(** * ReteGraph: recomputation, normalization, layout and payload building

    A shallow embedding of [retentioneering/core/rete_graph/rete_graph.py].

    - A pandas [DataFrame] is a list of columns and a list of rows.  The
      string and boolean columns of the node list (event name, [active],
      [parent], [alias], [changed_name]) and of the edge list (source,
      target, [type]) are record fields; the numeric columns are kept by
      name, a cell that was never written reading as NaN.  The numeric
      columns of an edge list start at [columns[2]].
    - A float is a rational, an infinity or NaN.  Finite arithmetic is
      exact: rounding, overflow and the sign of zero are not modelled
      (every divisor of the program is an absolute value or a difference
      [max - min], hence never a negative zero).  Python's own division
      raises on a zero divisor, numpy's returns an infinity or NaN.
    - A Python exception is a value of [exn].  A method whose effect on
      the session is at stake returns the session next to its result, so
      that what was mutated before an exception stays mutated.
    - The Explorer ([self.rete]) is a record of what the graph reads from
      it; its [create_nodelist] and [create_edgelist] are fields, any
      functions of the log.  networkx's [spring_layout] and the iteration
      order of a Python [set] are parameters. *)

From Stdlib Require Import List String ZArith QArith Qabs Bool Lia Lqa.
Import ListNotations.
Local Open Scope string_scope.
Local Open Scope Z_scope.

Set Implicit Arguments.

(** ** Exceptions *)

Inductive exn : Type :=
| KeyError
| IndexError
| ValueError
| ZeroDivisionError.

Inductive result (A : Type) : Type :=
| Ok (a : A)
| Raise (e : exn).

Arguments Ok {A} a.
Arguments Raise {A} e.

Definition bind {A B : Type} (r : result A) (k : A -> result B) : result B :=
  match r with
  | Ok a => k a
  | Raise e => Raise e
  end.

Notation "x <- c ;; k" := (bind c (fun x => k))
  (at level 61, c at next level, right associativity).

(** [for x in xs: ys.append(f(x))], stopping at the first exception. *)
Fixpoint mapM {A B : Type} (f : A -> result B) (xs : list A) : result (list B) :=
  match xs with
  | [] => Ok []
  | x :: xs' =>
      y <- f x ;;
      ys <- mapM f xs' ;;
      Ok (y :: ys)
  end.

(** ** Floats *)

Module Float.

Inductive float : Type :=
| Fin (q : Q)
| PInf
| NInf
| NaN.

Definition of_Z (z : Z) : float := Fin (inject_Z z).

Definition Qltb (a b : Q) : bool := negb (Qle_bool b a).

Definition is_zero (x : float) : bool :=
  match x with Fin q => Qeq_bool q 0 | _ => false end.

Definition is_nan (x : float) : bool :=
  match x with NaN => true | _ => false end.

Definition is_finite (x : float) : bool :=
  match x with Fin _ => true | _ => false end.

(** [abs(x)] *)
Definition abs (x : float) : float :=
  match x with
  | Fin q => Fin (Qabs q)
  | PInf | NInf => PInf
  | NaN => NaN
  end.

Definition neg (x : float) : float :=
  match x with
  | Fin q => Fin (- q)
  | PInf => NInf
  | NInf => PInf
  | NaN => NaN
  end.

(** [x < y]; every comparison with NaN is false. *)
Definition ltb (x y : float) : bool :=
  match x, y with
  | Fin a, Fin b => Qltb a b
  | NInf, Fin _ | NInf, PInf | Fin _, PInf => true
  | _, _ => false
  end.

Definition add (x y : float) : float :=
  match x, y with
  | NaN, _ | _, NaN => NaN
  | Fin a, Fin b => Fin (a + b)
  | PInf, NInf | NInf, PInf => NaN
  | PInf, _ | _, PInf => PInf
  | NInf, _ | _, NInf => NInf
  end.

Definition sub (x y : float) : float := add x (neg y).

(** The sign of a float that is neither zero nor NaN. *)
Definition positive (x : float) : bool :=
  match x with
  | Fin q => Qltb 0 q
  | PInf => true
  | _ => false
  end.

Definition signed_inf (pos : bool) : float := if pos then PInf else NInf.

Definition mul (x y : float) : float :=
  match x, y with
  | NaN, _ | _, NaN => NaN
  | Fin a, Fin b => Fin (a * b)
  | _, _ =>
      if is_zero x || is_zero y then NaN
      else signed_inf (Bool.eqb (positive x) (positive y))
  end.

(** numpy's [x / y]: a zero divisor gives an infinity or NaN (and a
    warning), never an exception. *)
Definition np_div (x y : float) : float :=
  match x, y with
  | NaN, _ | _, NaN => NaN
  | Fin a, Fin b =>
      if Qeq_bool b 0 then
        if Qeq_bool a 0 then NaN else signed_inf (Qltb 0 a)
      else Fin (a / b)
  | Fin _, _ => Fin 0
  | _, Fin b =>
      if Qeq_bool b 0 then x
      else signed_inf (Bool.eqb (positive x) (positive y))
  | _, _ => NaN
  end.

(** Python's [x / y] on its own floats: a zero divisor raises. *)
Definition py_div (x y : float) : result float :=
  if is_zero y then Raise ZeroDivisionError else Ok (np_div x y).

(** Python's builtin [min] and [max]: the first element, replaced by a
    later one only when that one compares strictly below (above). *)
Definition py_min (xs : list float) : result float :=
  match xs with
  | [] => Raise ValueError
  | x :: xs' => Ok (fold_left (fun m y => if ltb y m then y else m) xs' x)
  end.

Definition py_max (xs : list float) : result float :=
  match xs with
  | [] => Raise ValueError
  | x :: xs' => Ok (fold_left (fun m y => if ltb m y then y else m) xs' x)
  end.

(** pandas' [Series.max()]: NaN cells are skipped; NaN when nothing is
    left. *)
Definition series_max (xs : list float) : float :=
  fold_left (fun m y => if is_nan y then m
                        else if is_nan m then y
                        else if ltb m y then y else m) xs NaN.

(** pandas' [Series.abs().max()] *)
Definition series_abs_max (xs : list float) : float :=
  series_max (map abs xs).

(** [|x| <= 1], false for NaN and the infinities. *)
Definition abs_le_one (x : float) : Prop :=
  match x with
  | Fin q => (Qabs q <= 1)%Q
  | _ => False
  end.

(** Equality of floats as numbers ([Fin] up to [Qeq]). *)
Definition feq (x y : float) : Prop :=
  match x, y with
  | Fin a, Fin b => (a == b)%Q
  | PInf, PInf | NInf, NInf | NaN, NaN => True
  | _, _ => False
  end.

End Float.

Import Float.

(** ** Dictionaries

    A Python [dict] keeps its keys in insertion order: an association
    list whose [dict_set] overwrites in place or appends. *)

Definition dict (V : Type) : Type := list (string * V).

Fixpoint dict_get {V : Type} (k : string) (d : dict V) : option V :=
  match d with
  | [] => None
  | (k', v) :: d' => if String.eqb k' k then Some v else dict_get k d'
  end.

Fixpoint dict_set {V : Type} (k : string) (v : V) (d : dict V) : dict V :=
  match d with
  | [] => [(k, v)]
  | (k', v') :: d' =>
      if String.eqb k' k then (k', v) :: d' else (k', v') :: dict_set k v d'
  end.

Definition dict_keys {V : Type} (d : dict V) : list string := map fst d.
Definition dict_values {V : Type} (d : dict V) : list V := map snd d.

(** [d[k]] *)
Definition dict_item {V : Type} (k : string) (d : dict V) : result V :=
  match dict_get k d with
  | Some v => Ok v
  | None => Raise KeyError
  end.

(** [for key in keys: norm[key] = g(key)], one turn. *)
Definition fill {V : Type} (g : string -> result V) (acc : result (dict V))
    (key : string) : result (dict V) :=
  norm <- acc ;;
  q <- g key ;;
  Ok (dict_set key q norm).

(** [s in names] *)
Definition isin (names : list string) (s : string) : bool :=
  existsb (String.eqb s) names.

(** A column list with [c] added at its end unless it is there. *)
Definition add_column (c : string) (columns : list string) : list string :=
  if isin columns c then columns else columns ++ [c].

(** ** Data model *)

(** One row of the event log. *)
Record EventRecord : Type := {
  event : string;
  case_id : string;
  timestamp : Z
}.

Definition with_event (e : string) (row : EventRecord) : EventRecord :=
  {| event := e; case_id := case_id row; timestamp := timestamp row |}.

(** One row of the node list: the event-name column, the edit state and
    the numeric columns. *)
Record NodeRow : Type := {
  nr_event : string;
  nr_active : bool;
  nr_parent : option string;
  nr_alias : option string;
  nr_changed_name : option string;
  nr_metrics : dict float
}.

(** The node list: its numeric columns and its rows, each under its index
    label. *)
Record NodeList : Type := {
  ncolumns : list string;
  nrows : list (Z * NodeRow)
}.

(** One row of the edge list: [columns[0]], [columns[1]], the numeric
    columns, and the [type] column once it has been set. *)
Record EdgeRow : Type := {
  er_source : string;
  er_target : string;
  er_values : dict float;
  er_type : option string
}.

(** The edge list; [ecolumns] are the numeric columns in order, the first
    of them being [columns[2]]. *)
Record EdgeList : Type := {
  ecolumns : list string;
  erows : list EdgeRow
}.

Record Degree : Type := {
  dg_degree : float;
  dg_source : float
}.

(** [changed_name] is a key that may be missing ([None]) or hold null
    ([Some None]). *)
Record PreparedNode : Type := {
  pn_index : Z;
  pn_name : string;
  pn_degree : dict Degree;
  pn_changed_name : option (option string);
  pn_type : string;
  pn_x : option float;
  pn_y : option float;
  pn_active : bool;
  pn_alias : option string;
  pn_parent : option string
}.

Record Weight : Type := {
  w_weight_norm : float;
  w_weight : float
}.

Record PreparedLink : Type := {
  sourceIndex : Z;
  targetIndex : Z;
  weights : dict Weight;
  link_type : string
}.

Record LayoutNode : Type := {
  ln_name : string;
  ln_x : float;
  ln_y : float
}.

Definition Threshold : Type := dict float.
Definition Position : Type := dict (float * float).
Definition NodeParams : Type := dict string.

(** The Explorer collaborator, as far as the graph reads it. *)
Record ReteExplorer : Type := {
  clickstream : list EventRecord;
  get_nodelist_cols : list string;
  get_custom_cols : list string;
  get_nodelist_default_col : string;
  get_edgelist_default_col : string;
  create_nodelist : list EventRecord -> NodeList;
  create_edgelist : list EventRecord -> EdgeList
}.

(** The session. *)
Record ReteGraph : Type := {
  rete : ReteExplorer;
  nodelist : NodeList;
  edgelist : EdgeList;
  layout : option (list LayoutNode);
  updates : list PreparedNode
}.

Definition set_nodelist (nl : NodeList) (self : ReteGraph) : ReteGraph :=
  {| rete := rete self; nodelist := nl; edgelist := edgelist self;
     layout := layout self; updates := updates self |}.

Definition set_edgelist (el : EdgeList) (self : ReteGraph) : ReteGraph :=
  {| rete := rete self; nodelist := nodelist self; edgelist := el;
     layout := layout self; updates := updates self |}.

Definition set_updates (u : list PreparedNode) (self : ReteGraph) : ReteGraph :=
  {| rete := rete self; nodelist := nodelist self; edgelist := edgelist self;
     layout := layout self; updates := u |}.

Definition set_layout (l : option (list LayoutNode)) (self : ReteGraph) : ReteGraph :=
  {| rete := rete self; nodelist := nodelist self; edgelist := edgelist self;
     layout := l; updates := updates self |}.

(** ** Frame access *)

(** A numeric cell; a cell that was never written is NaN. *)
Definition cell (col : string) (values : dict float) : float :=
  match dict_get col values with
  | Some v => v
  | None => NaN
  end.

(** [nodelist[col]] for a numeric column. *)
Definition node_column (col : string) (nl : NodeList) : result (list float) :=
  if isin (ncolumns nl) col
  then Ok (map (fun r => cell col (nr_metrics (snd r))) (nrows nl))
  else Raise KeyError.

(** [edgelist[col]] for a numeric column. *)
Definition edge_column (col : string) (el : EdgeList) : result (list float) :=
  if isin (ecolumns el) col
  then Ok (map (fun r => cell col (er_values r)) (erows el))
  else Raise KeyError.

(** [row[col]] for a numeric column of the row's frame. *)
Definition row_item (columns : list string) (col : string) (values : dict float)
  : result float :=
  if isin columns col then Ok (cell col values) else Raise KeyError.

Definition set_metric (col : string) (v : float) (row : NodeRow) : NodeRow :=
  {| nr_event := nr_event row; nr_active := nr_active row;
     nr_parent := nr_parent row; nr_alias := nr_alias row;
     nr_changed_name := nr_changed_name row;
     nr_metrics := dict_set col v (nr_metrics row) |}.

(** ** GraphRecomputer *)

(** [_replace_grouped_events]: the row's event name becomes the [parent]
    of the first grouped row of that name.  [_recalculate] passes rows
    whose [parent] is not null; a null one leaves the row as it is. *)
Definition _replace_grouped_events (grouped : list NodeRow) (row : EventRecord)
  : EventRecord :=
  let event_name := event row in
  let mathced := filter (fun g => String.eqb (nr_event g) event_name) grouped in
  match mathced with
  | g :: _ =>
      match nr_parent g with
      | Some parent_node_name => with_event parent_node_name row
      | None => row
      end
  | [] => row
  end.

(** [_update_node_after_recalc]: the columns [get_nodelist_cols()] of the
    row are overwritten from the first recalculated row of the same name;
    a row without a match is returned as it is. *)
Definition _update_node_after_recalc (cols : list string)
    (recalculated_nodelist : NodeList) (row : NodeRow) : result NodeRow :=
  let node_name := nr_event row in
  let mathced := filter (fun r => String.eqb (nr_event (snd r)) node_name)
                        (nrows recalculated_nodelist) in
  match mathced with
  | (_, recalculated_node) :: _ =>
      fold_left
        (fun acc col =>
           row' <- acc ;;
           v <- row_item (ncolumns recalculated_nodelist) col
                         (nr_metrics recalculated_node) ;;
           Ok (set_metric col v row'))
        cols (Ok row)
  | [] => Ok row
  end.

Definition isnull {A : Type} (o : option A) : bool :=
  match o with None => true | Some _ => false end.

(** [curr_nodelist[curr_nodelist['active'] == True]] *)
Definition active_rows (nl : NodeList) : list NodeRow :=
  filter (fun r => Bool.eqb (nr_active r) true) (map snd (nrows nl)).

(** [curr_nodelist[~curr_nodelist['parent'].isnull() & curr_nodelist['active'] == True]]:
    [&] binds tighter than [==]. *)
Definition grouped_rows (nl : NodeList) : list NodeRow :=
  filter (fun r => Bool.eqb (negb (isnull (nr_parent r)) && nr_active r) true)
         (map snd (nrows nl)).

(** The log of [_recalculate]: disabled events removed, then one pass of
    [_replace_grouped_events] over every row. *)
Definition filtered_clickstream (rt : ReteExplorer) (nl : NodeList)
  : list EventRecord :=
  filter (fun row => isin (map nr_event (active_rows nl)) (event row))
         (clickstream rt).

Definition updated_clickstream (rt : ReteExplorer) (nl : NodeList)
  : list EventRecord :=
  map (_replace_grouped_events (grouped_rows nl)) (filtered_clickstream rt nl).

(** [curr_nodelist.apply(lambda x: self._update_node_after_recalc(...), axis=1)]:
    the rows keep their labels; a column written into a row is a column of
    the resulting frame. *)
Definition apply_update (cols : list string) (recalculated_nodelist : NodeList)
    (nl : NodeList) : result NodeList :=
  rows <- mapM (fun r =>
                  row' <- _update_node_after_recalc cols recalculated_nodelist (snd r) ;;
                  Ok (fst r, row'))
               (nrows nl) ;;
  let names := map (fun r => nr_event (snd r)) (nrows recalculated_nodelist) in
  let written := existsb (fun r => isin names (nr_event (snd r))) (nrows nl) in
  Ok {| ncolumns := if written then fold_left (fun cs c => add_column c cs) cols (ncolumns nl)
                    else ncolumns nl;
        nrows := rows |}.

(** The event-name column of the node list. *)
Definition node_names (nl : NodeList) : list string :=
  map nr_event (map snd (nrows nl)).

(** The name that one pass of [_replace_grouped_events] gives to the rows
    of event name [e]. *)
Definition relabel (nl : NodeList) (e : string) : string :=
  event (_replace_grouped_events (grouped_rows nl)
           {| event := e; case_id := EmptyString; timestamp := 0 |}).

(** [_recalculate]: the two assignments to [self] come last, so that an
    exception leaves the session as it was. *)
Definition _recalculate (self : ReteGraph) : result unit * ReteGraph :=
  let curr_nodelist := nodelist self in
  let updated_clickstream := updated_clickstream (rete self) curr_nodelist in
  let recalculated_nodelist := create_nodelist (rete self) updated_clickstream in
  let recalculated_edgelist := create_edgelist (rete self) updated_clickstream in
  match apply_update (get_nodelist_cols (rete self)) recalculated_nodelist curr_nodelist with
  | Ok nl => (Ok tt, set_edgelist recalculated_edgelist (set_nodelist nl self))
  | Raise e => (Raise e, self)
  end.

(** The part of a node row that decides the filtered and relabelled log. *)
Definition same_edits (r r' : NodeRow) : Prop :=
  nr_event r = nr_event r' /\ nr_active r = nr_active r' /\ nr_parent r = nr_parent r'.

(** ** GraphSession: node edits *)

(** [nodelist.at[index, ...] = ...] on the rows under label [index]. *)
Definition at_label (index : Z) (f : NodeRow -> NodeRow) (rows : list (Z * NodeRow))
  : list (Z * NodeRow) :=
  map (fun r => if Z.eqb (fst r) index then (fst r, f (snd r)) else r) rows.

(** [nodelist.loc[label] = row]: the row under that label is replaced, or
    the row is appended under it. *)
Definition loc_set (label : Z) (row : NodeRow) (rows : list (Z * NodeRow))
  : list (Z * NodeRow) :=
  if existsb (fun r => Z.eqb (fst r) label) rows
  then map (fun r => if Z.eqb (fst r) label then (label, row) else r) rows
  else rows ++ [(label, row)].

Definition update_found (node : PreparedNode) (row : NodeRow) : NodeRow :=
  let row1 :=
    {| nr_event := nr_event row;
       nr_active := pn_active node;
       nr_parent := pn_parent node;
       nr_alias := nr_alias row;
       nr_changed_name := match pn_changed_name node with
                          | Some c => c
                          | None => nr_changed_name row
                          end;
       nr_metrics := nr_metrics row |} in
  fold_left (fun r cv => set_metric (fst cv) (dg_source (snd cv)) r)
            (pn_degree node) row1.

Definition inserted_row (columns : list string) (node : PreparedNode) : NodeRow :=
  {| nr_event := pn_name node;
     nr_active := pn_active node;
     nr_parent := pn_parent node;
     nr_alias := pn_alias node;
     nr_changed_name := match pn_changed_name node with
                        | Some c => c
                        | None => None
                        end;
     nr_metrics := map (fun key => (key, match dict_get key (pn_degree node) with
                                         | Some d => dg_source d
                                         | None => NaN
                                         end)) columns |}.

(** One turn of the loop of [_on_nodelist_updated]. *)
Definition update_node (nl : NodeList) (node : PreparedNode) : NodeList :=
  let indexes := map fst (filter (fun r => String.eqb (nr_event (snd r)) (pn_name node))
                                 (nrows nl)) in
  match indexes with
  | index :: _ =>
      {| ncolumns := fold_left (fun cs cv => add_column (fst cv) cs)
                               (pn_degree node) (ncolumns nl);
         nrows := at_label index (update_found node) (nrows nl) |}
  | [] =>
      {| ncolumns := ncolumns nl;
         nrows := loc_set (pn_index node) (inserted_row (ncolumns nl) node) (nrows nl) |}
  end.

Definition _on_nodelist_updated (nodes : list PreparedNode) (self : ReteGraph)
  : ReteGraph :=
  let self := set_updates nodes self in
  set_nodelist (fold_left update_node nodes (nodelist self)) self.

(** ** MetricNormalizer

    Neither method assigns to [self]; each returns the session it was
    given.  The thresholds are Python floats and the scale is made one by
    [float(...)], so the division is Python's. *)

(** The edge-list column whose maximum scales the link threshold [key]. *)
Definition link_scale_column (rt : ReteExplorer) (key : string) : string :=
  if String.eqb key (get_nodelist_default_col rt)
  then get_edgelist_default_col rt
  else key.

Definition _get_norm_link_threshold (self : ReteGraph)
    (links_threshold : option Threshold) : result (option Threshold) * ReteGraph :=
  let nodelist_default_col := get_nodelist_default_col (rete self) in
  let edgelist_default_col := get_edgelist_default_col (rete self) in
  let r :=
    default_column <- edge_column edgelist_default_col (edgelist self) ;;
    let scale := series_abs_max default_column in
    match links_threshold with
    | None => Ok None
    | Some th =>
        norm_links_threshold <-
          fold_left
            (fun acc key =>
               norm <- acc ;;
               if String.eqb key nodelist_default_col then
                 v <- dict_item nodelist_default_col th ;;
                 q <- py_div v scale ;;
                 Ok (dict_set nodelist_default_col q norm)
               else
                 column <- edge_column key (edgelist self) ;;
                 let s := series_abs_max column in
                 v <- dict_item key th ;;
                 q <- py_div v s ;;
                 Ok (dict_set key q norm))
            (dict_keys th) (Ok []) ;;
        Ok (Some norm_links_threshold)
    end in
  (r, self).

Definition _get_norm_node_threshold (self : ReteGraph)
    (nodes_threshold : option Threshold) : result (option Threshold) * ReteGraph :=
  let r :=
    match nodes_threshold with
    | None => Ok None
    | Some th =>
        norm_nodes_threshold <-
          fold_left
            (fun acc key =>
               norm <- acc ;;
               column <- node_column key (nodelist self) ;;
               let scale := series_abs_max column in
               v <- dict_item key th ;;
               q <- py_div v scale ;;
               Ok (dict_set key q norm))
            (dict_keys th) (Ok []) ;;
        Ok (Some norm_nodes_threshold)
    end in
  (r, self).

(** The value the loop of [_get_norm_node_threshold] stores under a key. *)
Definition node_norm (self : ReteGraph) (th : Threshold) (key : string)
  : result float :=
  column <- node_column key (nodelist self) ;;
  v <- dict_item key th ;;
  py_div v (series_abs_max column).

(** The value the loop of [_get_norm_link_threshold] stores under a key. *)
Definition link_norm (self : ReteGraph) (th : Threshold) (scale : float)
    (key : string) : result float :=
  if String.eqb key (get_nodelist_default_col (rete self)) then
    v <- dict_item key th ;;
    py_div v scale
  else
    column <- edge_column key (edgelist self) ;;
    v <- dict_item key th ;;
    py_div v (series_abs_max column).

(** ** LayoutEngine and PayloadBuilder *)

Record Payload : Type := {
  nodes : list PreparedNode;
  links : list PreparedLink
}.

Definition set_value (col : string) (v : float) (row : EdgeRow) : EdgeRow :=
  {| er_source := er_source row; er_target := er_target row;
     er_values := dict_set col v (er_values row); er_type := er_type row |}.

Definition set_type (t : string) (row : EdgeRow) : EdgeRow :=
  {| er_source := er_source row; er_target := er_target row;
     er_values := er_values row; er_type := Some t |}.

(** [edgelist["type"] = t] *)
Definition set_type_column (t : string) (el : EdgeList) : EdgeList :=
  {| ecolumns := ecolumns el; erows := map (set_type t) (erows el) |}.

(** [edgelist[col] = f(row)] for a numeric column. *)
Definition set_edge_column (col : string) (f : EdgeRow -> float) (el : EdgeList)
  : EdgeList :=
  {| ecolumns := add_column col (ecolumns el);
     erows := map (fun r => set_value col (f r) r) (erows el) |}.

(** The triples [edgelist.loc[:, [source_col, target_col, weight_col]].values]
    that [_calc_layout] gives to the graph. *)
Definition weighted_edges (weight_col : string) (edgelist : EdgeList)
  : list (string * string * float) :=
  map (fun r => (er_source r, er_target r, cell weight_col (er_values r)))
      (erows edgelist).

(** [lines 303-313 of _calc_layout]: the bounding box of the positions and
    the rescale into the canvas; the divisions are numpy's. *)
Definition rescale (pos_new : Position) (width height : Z) : result Position :=
  min_x <- py_min (map (fun ij => fst (snd ij)) pos_new) ;;
  min_y <- py_min (map (fun ij => snd (snd ij)) pos_new) ;;
  max_x <- py_max (map (fun ij => fst (snd ij)) pos_new) ;;
  max_y <- py_max (map (fun ij => snd (snd ij)) pos_new) ;;
  Ok (map (fun ij =>
             (fst ij,
              (add (mul (np_div (sub (fst (snd ij)) min_x) (sub max_x min_x))
                        (of_Z (width - 150)))
                   (of_Z 75),
               add (mul (np_div (sub (snd (snd ij)) min_y) (sub max_y min_y))
                        (of_Z (height - 100)))
                   (of_Z 50))))
          pos_new).

(** One turn of the loop of [_use_layout]: [matched["x"].item()] raises
    unless exactly one row matched. *)
Definition overlay (stored : list LayoutNode) (acc : result Position)
    (node_name : string) : result Position :=
  position <- acc ;;
  let matched := filter (fun l => String.eqb (ln_name l) node_name) stored in
  match matched with
  | [] => Ok position
  | [m] => Ok (dict_set node_name (ln_x m, ln_y m) position)
  | _ => Raise ValueError
  end.

Definition _use_layout (self : ReteGraph) (position : Position) : result Position :=
  match layout self with
  | None => Ok position
  | Some stored => fold_left (overlay stored) (dict_keys position) (Ok position)
  end.

Definition is_empty (s : string) : bool :=
  match s with EmptyString => true | _ => false end.

(** [d.get(k) or "suit"] *)
Definition get_or_suit (d : NodeParams) (k : string) : string :=
  match dict_get k d with
  | Some v => if is_empty v then "suit" else v
  | None => "suit"
  end.

Section Libraries.

(** [nx.layout.spring_layout] with the session's configuration and
    [seed=0], from the weighted edges to the positions of their nodes. *)
Variable spring_layout : list (string * string * float) -> Position.

(** The iteration order of [set(names)]. *)
Variable set_order : list string -> list string.

Definition _calc_layout (edgelist : EdgeList) (width height : Z) : result Position :=
  match ecolumns edgelist with
  | [] => Raise IndexError
  | weight_col :: _ =>
      let G := weighted_edges weight_col edgelist in
      rescale (spring_layout G) width height
  end.

Definition prepare_node (cols : list string) (nodelist : NodeList)
    (node_params : option NodeParams) (pos : option Position)
    (idx : Z) (node_name : string) : result PreparedNode :=
  let row := filter (fun r => String.eqb (nr_event r) node_name)
                    (map snd (nrows nodelist)) in
  let first := match row with
               | [] => Raise IndexError
               | r :: _ => Ok r
               end in
  degree <-
    fold_left
      (fun acc weight_col =>
         degree <- acc ;;
         column <- node_column weight_col nodelist ;;
         let max_degree := series_max column in
         r <- first ;;
         let value := cell weight_col (nr_metrics r) in
         Ok (dict_set weight_col
               {| dg_degree := add (mul (np_div (abs value) (abs max_degree)) (of_Z 30))
                                   (of_Z 4);
                  dg_source := value |}
               degree))
      cols (Ok []) ;;
  let node_pos := match pos with
                  | Some p => dict_get node_name p
                  | None => None
                  end in
  r <- first ;;
  let type := match node_params with
              | Some np => get_or_suit np node_name
              | None => "suit"
              end in
  Ok {| pn_index := idx;
        pn_name := node_name;
        pn_degree := degree;
        pn_changed_name := Some None;
        pn_type := type ++ "_node";
        pn_x := option_map fst node_pos;
        pn_y := option_map snd node_pos;
        pn_active := nr_active r;
        pn_alias := nr_alias r;
        pn_parent := nr_parent r |}.

(** [for idx, node_name in enumerate(node_names)] *)
Fixpoint prepare_nodes_loop (cols : list string) (nodelist : NodeList)
    (node_params : option NodeParams) (pos : option Position)
    (idx : Z) (node_names : list string) (nodes_set : dict PreparedNode)
  : result (dict PreparedNode) :=
  match node_names with
  | [] => Ok nodes_set
  | node_name :: rest =>
      node <- prepare_node cols nodelist node_params pos idx node_name ;;
      prepare_nodes_loop cols nodelist node_params pos (idx + 1) rest
                         (dict_set node_name node nodes_set)
  end.

Definition _prepare_nodes (rt : ReteExplorer) (nodelist : NodeList)
    (node_params : option NodeParams) (pos : option Position)
  : result (list PreparedNode * dict PreparedNode) :=
  let node_names := set_order (map (fun r => nr_event (snd r)) (nrows nodelist)) in
  nodes_set <- prepare_nodes_loop (get_nodelist_cols rt) nodelist node_params pos
                                  0 node_names [] ;;
  Ok (dict_values nodes_set, nodes_set).

(** One turn of [for _, row in edgelist.iterrows()]: the link of the
    row, or nothing when an endpoint is not in [nodes_set]. *)
Definition prepare_edge (default_col weight_col : string) (custom_cols : list string)
    (edgelist : EdgeList) (nodes_set : dict PreparedNode) (row : EdgeRow)
  : result (list PreparedLink) :=
  let default_col_weight :=
    {| w_weight_norm := cell "weight_norm" (er_values row);
       w_weight := cell weight_col (er_values row) |} in
  weights <-
    fold_left
      (fun acc custom_weight_col =>
         weights <- acc ;;
         weight <- row_item (ecolumns edgelist) custom_weight_col (er_values row) ;;
         column <- edge_column custom_weight_col edgelist ;;
         let max_weight := series_abs_max column in
         Ok (dict_set custom_weight_col
               {| w_weight_norm := np_div weight max_weight; w_weight := weight |}
               weights))
      custom_cols (Ok [(default_col, default_col_weight)]) ;;
  match dict_get (er_source row) nodes_set, dict_get (er_target row) nodes_set with
  | Some source_node, Some target_node =>
      match er_type row with
      | Some t => Ok [ {| sourceIndex := pn_index source_node;
                          targetIndex := pn_index target_node;
                          weights := weights;
                          link_type := t |} ]
      | None => Raise KeyError
      end
  | _, _ => Ok []
  end.

(** [_prepare_edges]: the frame it is given gets its [weight_norm]
    column before the loop; the frame is returned next to the links. *)
Definition _prepare_edges (rt : ReteExplorer) (edgelist : EdgeList)
    (nodes_set : dict PreparedNode) : result (list PreparedLink) * EdgeList :=
  let default_col := get_nodelist_default_col rt in
  match ecolumns edgelist with
  | [] => (Raise IndexError, edgelist)
  | weight_col :: _ =>
      let custom_cols := get_custom_cols rt in
      let scale := series_abs_max (map (fun r => cell weight_col (er_values r))
                                       (erows edgelist)) in
      let edgelist :=
        set_edge_column "weight_norm"
          (fun r => np_div (cell weight_col (er_values r)) scale) edgelist in
      (edges <- mapM (prepare_edge default_col weight_col custom_cols edgelist nodes_set)
                     (erows edgelist) ;;
       Ok (List.concat edges),
       edgelist)
  end.

(** [_on_recalc_request]: the session's own edge list is the one that
    gets the [type] and [weight_norm] columns. *)
Definition _on_recalc_request (nodes : list PreparedNode) (self : ReteGraph)
  : result Payload * ReteGraph :=
  let self := set_updates nodes self in
  let self := _on_nodelist_updated nodes self in
  match _recalculate self with
  | (Raise e, self) => (Raise e, self)
  | (Ok _, self) =>
      let self := set_edgelist (set_type_column "suit" (edgelist self)) self in
      match _prepare_nodes (rete self) (nodelist self) None None with
      | Raise e => (Raise e, self)
      | Ok (nodes, nodes_set) =>
          let (r, edgelist) := _prepare_edges (rete self) (edgelist self) nodes_set in
          let self := set_edgelist edgelist self in
          match r with
          | Raise e => (Raise e, self)
          | Ok links => (Ok {| nodes := nodes; links := links |}, self)
          end
      end
  end.

(** The [type] of an edge in [_make_template_data]. *)
Definition edge_type (node_params : NodeParams) (row : EdgeRow) : string :=
  match dict_get (er_source row) node_params with
  | Some s => if String.eqb s "source" then s
              else get_or_suit node_params (er_target row)
  | None => get_or_suit node_params (er_target row)
  end.

(** [_make_template_data] works on copies: the session is only read. *)
Definition _make_template_data (self : ReteGraph) (node_params : NodeParams)
    (width height : Z) : result (list PreparedNode * list PreparedLink) :=
  let edgelist := edgelist self in
  let nodelist := nodelist self in
  let edgelist :=
    {| ecolumns := ecolumns edgelist;
       erows := map (fun r => set_type (edge_type node_params r) r) (erows edgelist) |} in
  computed <- _calc_layout edgelist width height ;;
  pos <- _use_layout self computed ;;
  prepared <- _prepare_nodes (rete self) nodelist (Some node_params) (Some pos) ;;
  let (nodes, nodes_set) := (prepared : list PreparedNode * dict PreparedNode) in
  links <- fst (_prepare_edges (rete self) edgelist nodes_set) ;;
  Ok (nodes, links).

End Libraries.

(** ** The Explorer's lists *)

(** The pairs of neighbours of a list, in order. *)
Fixpoint consecutive {A : Type} (l : list A) : list (A * A) :=
  match l with
  | a :: (b :: _) as rest => (a, b) :: consecutive rest
  | _ => []
  end.

(** Modelled from the spec: [create_edgelist] belongs to the Explorer and
    is not in the sources.  The edges are the observed transitions between
    consecutive events of the log (section 1), one row per transition pair
    (section 6). *)
Definition transitions (log : list EventRecord) : list (string * string) :=
  map (fun p => (event (fst p), event (snd p))) (consecutive log).

Definition pair_eqb (p q : string * string) : bool :=
  String.eqb (fst p) (fst q) && String.eqb (snd p) (snd q).

Definition edge_pairs (el : EdgeList) : list (string * string) :=
  map (fun r => (er_source r, er_target r)) (erows el).

Definition subset_pairs (ps qs : list (string * string)) : bool :=
  forallb (fun p => existsb (pair_eqb p) qs) ps.

(** Modelled from the spec: the contract of the missing [create_edgelist]
    at one log: the endpoints of the rows of [el] are exactly the
    transitions of [log]. *)
Definition is_edgelist_of (log : list EventRecord) (el : EdgeList) : bool :=
  subset_pairs (edge_pairs el) (transitions log)
  && subset_pairs (transitions log) (edge_pairs el).

(** The first occurrences of a list, in order. *)
Fixpoint distinct {A : Type} (eqb : A -> A -> bool) (l : list A) : list A :=
  match l with
  | [] => []
  | a :: l' => a :: filter (fun b => negb (eqb a b)) (distinct eqb l')
  end.

Definition count {A : Type} (eqb : A -> A -> bool) (a : A) (l : list A) : Z :=
  Z.of_nat (List.length (filter (eqb a) l)).

(** Modelled from the spec: an Explorer whose missing [create_edgelist]
    and [create_nodelist] count, in one metric column, the occurrences of
    each transition pair and of each event name (sections 4.2 and 6). *)
Definition counting_edgelist (col : string) (log : list EventRecord) : EdgeList :=
  {| ecolumns := [col];
     erows := map (fun p => {| er_source := fst p; er_target := snd p;
                               er_values := [(col, of_Z (count pair_eqb p (transitions log)))];
                               er_type := None |})
                  (distinct pair_eqb (transitions log)) |}.

Fixpoint enumerate {A : Type} (i : Z) (l : list A) : list (Z * A) :=
  match l with
  | [] => []
  | a :: l' => (i, a) :: enumerate (i + 1) l'
  end.

Definition counting_nodelist (col : string) (log : list EventRecord) : NodeList :=
  {| ncolumns := [col];
     nrows := enumerate 0
                (map (fun e => {| nr_event := e; nr_active := true; nr_parent := None;
                                  nr_alias := None; nr_changed_name := None;
                                  nr_metrics := [(col, of_Z (count String.eqb e (map event log)))] |})
                     (distinct String.eqb (map event log))) |}.

Definition counting_explorer (log : list EventRecord) : ReteExplorer :=
  {| clickstream := log;
     get_nodelist_cols := ["number_of_events"];
     get_custom_cols := [];
     get_nodelist_default_col := "number_of_events";
     get_edgelist_default_col := "edge_weight";
     create_nodelist := counting_nodelist "number_of_events";
     create_edgelist := counting_edgelist "edge_weight" |}.

(** ** Sample sessions *)

Definition ev (e : string) (t : Z) : EventRecord :=
  {| event := e; case_id := "u1"; timestamp := t |}.

Definition node (e : string) (a : bool) (p : option string) (m : dict float) : NodeRow :=
  {| nr_event := e; nr_active := a; nr_parent := p; nr_alias := None;
     nr_changed_name := None; nr_metrics := m |}.

Definition session (log : list EventRecord) (ns : list NodeRow) : ReteGraph :=
  {| rete := counting_explorer log;
     nodelist := {| ncolumns := ["number_of_events"]; nrows := enumerate 0 ns |};
     edgelist := counting_edgelist "edge_weight" log;
     layout := None;
     updates := [] |}.

(** The scenario of the spec: B grouped under A, log B then A. *)
Definition scenario_session : ReteGraph :=
  session [ev "B" 1; ev "A" 2]
          [node "A" true None [("number_of_events", of_Z 1)];
           node "B" true (Some "A") [("number_of_events", of_Z 1)]].

(** C grouped under B, B grouped under A. *)
Definition chain_session : ReteGraph :=
  session [ev "C" 1; ev "B" 2; ev "C" 3]
          [node "A" true None [("number_of_events", of_Z 0)];
           node "B" true (Some "A") [("number_of_events", of_Z 1)];
           node "C" true (Some "B") [("number_of_events", of_Z 2)]].

(** The set order of the sample runs: first occurrences. *)
Definition first_seen (names : list string) : list string := distinct String.eqb names.

(** ** Statements of the specification that are compared with the code *)

(** Section 8, grouping correctness, for one session: after a
    recomputation no edge has a grouped node as an endpoint. *)
Definition no_grouped_endpoint (self : ReteGraph) : Prop :=
  forall (A B : string) (rowA : NodeRow) (self' : ReteGraph),
    In rowA (map snd (nrows (nodelist self))) ->
    nr_event rowA = A -> nr_active rowA = true -> nr_parent rowA = Some B ->
    _recalculate self = (Ok tt, self') ->
    forall row, In row (erows (edgelist self')) ->
                er_source row <> A /\ er_target row <> A.

(** A session whose node metric and edge weight are all zero. *)
Definition zero_session : ReteGraph :=
  {| rete := counting_explorer [ev "A" 1; ev "B" 2];
     nodelist := {| ncolumns := ["number_of_events"];
                    nrows := enumerate 0
                               [node "A" true None [("number_of_events", of_Z 0)];
                                node "B" true None [("number_of_events", of_Z 0)]] |};
     edgelist := {| ecolumns := ["edge_weight"];
                    erows := [ {| er_source := "A"; er_target := "B";
                                  er_values := [("edge_weight", of_Z 0)];
                                  er_type := None |} ] |};
     layout := None;
     updates := [] |}.

(** A session with two weight columns on its edges. *)
Definition two_metric_session : ReteGraph :=
  {| rete := {| clickstream := [ev "A" 1; ev "B" 2; ev "A" 3];
                get_nodelist_cols := ["number_of_events"];
                get_custom_cols := ["duration"];
                get_nodelist_default_col := "number_of_events";
                get_edgelist_default_col := "edge_weight";
                create_nodelist := counting_nodelist "number_of_events";
                create_edgelist := counting_edgelist "edge_weight" |};
     nodelist := {| ncolumns := ["number_of_events"];
                    nrows := enumerate 0
                               [node "A" true None [("number_of_events", of_Z 2)];
                                node "B" true None [("number_of_events", of_Z 1)]] |};
     edgelist := {| ecolumns := ["edge_weight"; "duration"];
                    erows := [ {| er_source := "A"; er_target := "B";
                                  er_values := [("edge_weight", of_Z 4); ("duration", of_Z (-10))];
                                  er_type := None |};
                               {| er_source := "B"; er_target := "A";
                                  er_values := [("edge_weight", of_Z 2); ("duration", of_Z 5)];
                                  er_type := None |} ] |};
     layout := None;
     updates := [] |}.

(** Every entry of the node dictionary is filed under the name of its
    node. *)
Definition filed (nodes_set : dict PreparedNode) : Prop :=
  Forall (fun kv => pn_name (snd kv) = fst kv) nodes_set.

(** A link whose indices are those of the prepared nodes named by the
    endpoints [p] of an edge. *)
Definition resolves (nodes : list PreparedNode) (p : string * string)
    (link : PreparedLink) : Prop :=
  exists s t,
    In s nodes /\ In t nodes
    /\ pn_name s = fst p /\ pn_name t = snd p
    /\ sourceIndex link = pn_index s /\ targetIndex link = pn_index t.

(** Both endpoints are names of prepared nodes. *)
Definition both_known (nodes : list PreparedNode) (p : string * string) : bool :=
  isin (map pn_name nodes) (fst p) && isin (map pn_name nodes) (snd p).

(** The links are, in order, those of the edges of [el] whose endpoints
    are both prepared nodes; the other edges have no link. *)
Definition edges_resolved (nodes : list PreparedNode) (links : list PreparedLink)
    (el : EdgeList) : Prop :=
  Forall2 (resolves nodes) (filter (both_known nodes) (edge_pairs el)) links.

(** B grouped under a parent G that is not a node. *)
Definition orphan_session : ReteGraph :=
  session [ev "A" 1; ev "B" 2; ev "A" 3; ev "A" 4]
          [node "A" true None [("number_of_events", of_Z 3)];
           node "B" true (Some "G") [("number_of_events", of_Z 1)]].

(** A layout for the sample runs: the nodes of the edges in order of
    appearance, the i-th at (i, i * i). *)
Definition sample_layout (G : list (string * string * float)) : Position :=
  map (fun n => (snd n, (of_Z (fst n), of_Z (fst n * fst n))))
      (enumerate 0 (distinct String.eqb
                      (flat_map (fun e => [fst (fst e); snd (fst e)]) G))).

(** A node list with a signed metric: A at -10, B at 1. *)
Definition signed_session : ReteGraph :=
  {| rete := {| clickstream := [ev "A" 1; ev "B" 2];
                get_nodelist_cols := ["delta"];
                get_custom_cols := [];
                get_nodelist_default_col := "delta";
                get_edgelist_default_col := "edge_weight";
                create_nodelist := counting_nodelist "delta";
                create_edgelist := counting_edgelist "edge_weight" |};
     nodelist := {| ncolumns := ["delta"];
                    nrows := enumerate 0
                               [node "A" true None [("delta", of_Z (-10))];
                                node "B" true None [("delta", of_Z 1)]] |};
     edgelist := counting_edgelist "edge_weight" [ev "A" 1; ev "B" 2];
     layout := None;
     updates := [] |}.

(** ** Statements about the layout *)

Definition coords_x (pos : Position) : list float := map (fun ij => fst (snd ij)) pos.
Definition coords_y (pos : Position) : list float := map (fun ij => snd (snd ij)) pos.

Definition finite_position (ij : string * (float * float)) : bool :=
  is_finite (fst (snd ij)) && is_finite (snd (snd ij)).

(** The rational a finite float is. *)
Definition to_Q (x : float) : Q :=
  match x with Fin q => q | _ => 0%Q end.

(** A bounding box that is not degenerate along one axis: [min < max]. *)
Definition box_spread (vs : list float) : bool :=
  match py_min vs, py_max vs with
  | Ok a, Ok b => ltb a b
  | _, _ => false
  end.


(** The stored manual position of a node, if it has one. *)
Definition stored_position (self : ReteGraph) (node_name : string) : option LayoutNode :=
  match layout self with
  | None => None
  | Some stored => find (fun m => String.eqb (ln_name m) node_name) stored
  end.

(** At most one stored position per node name. *)
Definition single_overrides (self : ReteGraph) : Prop :=
  match layout self with
  | None => True
  | Some stored => NoDup (map ln_name stored)
  end.



Section LayoutStatements.

Variable spring_layout : list (string * string * float) -> Position.





End LayoutStatements.


(** The chain session with a stored position for B. *)
Definition override_session : ReteGraph :=
  set_layout (Some [ {| ln_name := "B"; ln_x := of_Z 10; ln_y := of_Z 20 |} ])
             chain_session.


(** ** GraphSession: layout, settings and node classification *)

(** [_on_layout_request]: the stored layout is replaced by a frame that
    gets one row per layout node, each under the label [shape[0]], the
    number of rows so far, hence at the end. *)
Definition _on_layout_request (layout_nodes : list LayoutNode) (self : ReteGraph)
  : ReteGraph :=
  set_layout
    (Some (fold_left (fun rows layout_node => (rows ++ [layout_node])%list)
                     layout_nodes []))
    self.

(** The two [if]s of the loop of [_make_node_params]. *)
Definition target_label (v : string) : string :=
  let v := if String.eqb v "red" then "bad_target" else v in
  if String.eqb v "green" then "nice_target" else v.

(** [_make_node_params]; [config] is [self.rete.config], a key it lacks
    reading as [None].  With [targets] the dictionary that was passed is
    rewritten in place and returned. *)
Definition _make_node_params (config : dict string) (targets : option NodeParams)
  : NodeParams :=
  match targets with
  | Some targets =>
      fold_left (fun targets kv => dict_set (fst kv) (target_label (snd kv)) targets)
                targets targets
  | None =>
      let _node_params := [("positive_target_event", "nice_target");
                           ("negative_target_event", "bad_target");
                           ("source_event", "source")] in
      fold_left (fun node_params kv =>
                   match dict_get (fst kv) config with
                   | None => node_params
                   | Some name => dict_set name (snd kv) node_params
                   end)
                _node_params []
  end.

(** [GraphSettings], a [TypedDict] with [total=False]: a key that is
    missing is [None]. *)
Record GraphSettings : Type := {
  show_weights : option bool;
  show_percents : option bool;
  show_nodes_names : option bool;
  show_all_edges_for_targets : option bool;
  show_nodes_without_links : option bool;
  nodes_threshold : option Threshold;
  links_threshold : option Threshold
}.

(** The graph with the two attributes the methods below read:
    [self.graph_settings] and [self.rete.config]. *)
Record GraphSession : Type := {
  graph : ReteGraph;
  graph_settings : GraphSettings;
  config : dict string
}.

Definition _on_graph_settings_request (settings : GraphSettings) (s : GraphSession)
  : GraphSession :=
  {| graph := graph s; graph_settings := settings; config := config s |}.

(** [settings[key] = arg] when [arg is not None]. *)
Definition override {A : Type} (arg stored : option A) : option A :=
  match arg with
  | Some a => Some a
  | None => stored
  end.

(** [_apply_settings]: a copy of the stored settings with the arguments
    that are not [None] written over it. *)
Definition _apply_settings (s : GraphSession)
    (show_weights' show_percents' show_nodes_names' show_all_edges_for_targets'
     show_nodes_without_links' : option bool) : GraphSettings :=
  let settings := graph_settings s in
  {| show_weights := override show_weights' (show_weights settings);
     show_percents := override show_percents' (show_percents settings);
     show_nodes_names := override show_nodes_names' (show_nodes_names settings);
     show_all_edges_for_targets :=
       override show_all_edges_for_targets' (show_all_edges_for_targets settings);
     show_nodes_without_links :=
       override show_nodes_without_links' (show_nodes_without_links settings);
     nodes_threshold := nodes_threshold settings;
     links_threshold := links_threshold settings |}.

(** What [plot_graph] computes before it renders. *)
Record PlotData : Type := {
  pd_settings : GraphSettings;
  pd_node_params : NodeParams;
  pd_nodes_threshold : option Threshold;
  pd_links_threshold : option Threshold;
  pd_nodes : list PreparedNode;
  pd_links : list PreparedLink
}.

Section Plot.

Variable spring_layout : list (string * string * float) -> Position.
Variable set_order : list string -> list string.

(** [lines 500-520 of plot_graph]: the settings, the node classification,
    the two thresholds (the stored one when the settings have it, else the
    requested one normalized) and the template data, in that order. *)
Definition plot_graph_data (s : GraphSession) (targets : option NodeParams)
    (width height : Z)
    (show_weights' show_percents' show_nodes_names' show_all_edges_for_targets'
     show_nodes_without_links' : option bool)
    (nodes_threshold' links_threshold' : option Threshold) : result PlotData :=
  let settings := _apply_settings s show_weights' show_percents' show_nodes_names'
                                  show_all_edges_for_targets' show_nodes_without_links' in
  let node_params := _make_node_params (config s) targets in
  norm_nodes_threshold <-
    match nodes_threshold settings with
    | Some stored => Ok (Some stored)
    | None => fst (_get_norm_node_threshold (graph s) nodes_threshold')
    end ;;
  norm_links_threshold <-
    match links_threshold settings with
    | Some stored => Ok (Some stored)
    | None => fst (_get_norm_link_threshold (graph s) links_threshold')
    end ;;
  template <- _make_template_data spring_layout set_order (graph s) node_params
                                  width height ;;
  Ok {| pd_settings := settings;
        pd_node_params := node_params;
        pd_nodes_threshold := norm_nodes_threshold;
        pd_links_threshold := norm_links_threshold;
        pd_nodes := fst template;
        pd_links := snd template |}.

End Plot.

(** The min-max rescale of one coordinate, as a rational function. *)
Definition affine (a b : Q) (size margin : Z) (q : Q) : Q :=
  ((q + - a) / (b + - a) * inject_Z size + inject_Z margin)%Q.

(** The degree entry [_prepare_nodes] computes for one metric column of
    the first row of a name. *)
Definition degree_entry (nodelist : NodeList) (node_name : string)
    (weight_col : string) : result Degree :=
  column <- node_column weight_col nodelist ;;
  r <- match filter (fun r => String.eqb (nr_event r) node_name)
                    (map snd (nrows nodelist)) with
       | [] => Raise IndexError
       | r :: _ => Ok r
       end ;;
  Ok {| dg_degree := add (mul (np_div (abs (cell weight_col (nr_metrics r)))
                                      (abs (series_max column)))
                              (of_Z 30))
                         (of_Z 4);
        dg_source := cell weight_col (nr_metrics r) |}.

(** Every entry of the node dictionary was prepared for its key. *)
Definition prepared_from (cols : list string) (nodelist : NodeList)
    (node_params : option NodeParams) (pos : option Position)
    (nodes_set : dict PreparedNode) : Prop :=
  Forall (fun kv => exists idx,
            prepare_node cols nodelist node_params pos idx (fst kv) = Ok (snd kv))
         nodes_set.

(** ** More sample data *)

Definition edit (name : string) (index : Z) (a : bool) (p : option string)
    (degree : dict Degree) : PreparedNode :=
  {| pn_index := index; pn_name := name; pn_degree := degree;
     pn_changed_name := None; pn_type := "suit_node"; pn_x := None; pn_y := None;
     pn_active := a; pn_alias := None; pn_parent := p |}.

(** Node B of the chain session, disabled and ungrouped. *)
Definition edit_B : PreparedNode := edit "B" 1 false None [].

(** A new node D under a label the chain session does not use. *)
Definition edit_D : PreparedNode :=
  edit "D" 7 true (Some "A")
       [("number_of_events", {| dg_degree := of_Z 4; dg_source := of_Z 5 |});
        ("duration", {| dg_degree := of_Z 4; dg_source := of_Z 9 |})].

(** A new node D under the label of node B. *)
Definition edit_D_on_B : PreparedNode := edit "D" 1 true None [].

(** The chain session with an Explorer that declares a column,
    [duration], its node list does not have. *)
Definition partial_session : ReteGraph :=
  {| rete := {| clickstream := [ev "C" 1; ev "B" 2; ev "C" 3];
                get_nodelist_cols := ["number_of_events"; "duration"];
                get_custom_cols := [];
                get_nodelist_default_col := "number_of_events";
                get_edgelist_default_col := "edge_weight";
                create_nodelist := counting_nodelist "number_of_events";
                create_edgelist := counting_edgelist "edge_weight" |};
     nodelist := nodelist chain_session;
     edgelist := edgelist chain_session;
     layout := None;
     updates := [] |}.

Definition sample_positions : Position :=
  [("A", (of_Z 0, of_Z 0)); ("B", (of_Z 1, of_Z 1)); ("C", (of_Z 2, of_Z 4))].

(** The chain session with two stored positions for B. *)
Definition duplicate_layout_session : ReteGraph :=
  set_layout (Some [ {| ln_name := "B"; ln_x := of_Z 10; ln_y := of_Z 20 |};
                     {| ln_name := "B"; ln_x := of_Z 30; ln_y := of_Z 40 |} ])
             chain_session.

(** The node dictionary of the chain session. *)
Definition chain_nodes_set : dict PreparedNode :=
  match _prepare_nodes first_seen (rete chain_session) (nodelist chain_session)
                       None None with
  | Ok (_, nodes_set) => nodes_set
  | Raise _ => []
  end.

Definition sample_targets : NodeParams :=
  [("A", "red"); ("B", "green"); ("C", "source")].

Definition no_settings : GraphSettings :=
  {| show_weights := None; show_percents := None; show_nodes_names := None;
     show_all_edges_for_targets := None; show_nodes_without_links := None;
     nodes_threshold := None; links_threshold := None |}.

Definition threshold_settings : GraphSettings :=
  {| show_weights := Some true; show_percents := None; show_nodes_names := None;
     show_all_edges_for_targets := None; show_nodes_without_links := None;
     nodes_threshold := Some [("number_of_events", of_Z 1)];
     links_threshold := Some [("number_of_events", of_Z 1)] |}.

Definition plot_session (g : ReteGraph) : GraphSession :=
  {| graph := g; graph_settings := no_settings;
     config := [("positive_target_event", "A"); ("source_event", "A")] |}.

(** Saved positions for A and C. *)
Definition saved_nodes : list LayoutNode :=
  [ {| ln_name := "A"; ln_x := of_Z 100; ln_y := of_Z 200 |};
    {| ln_name := "C"; ln_x := of_Z 300; ln_y := of_Z 400 |} ].

(** * Properties *)

Unset Implicit Arguments.

(** ** Lists, names and dictionaries *)

Lemma isin_In (names : list string) (s : string) :
  isin names s = true <-> In s names.
Proof.
  unfold isin. rewrite existsb_exists. split.
  - intros [x [Hx Heq]]. apply String.eqb_eq in Heq. now subst.
  - intros H. exists s. split; [assumption | apply String.eqb_refl].
Qed.

Lemma filter_filter_comm {A : Type} (p q : A -> bool) (l : list A) :
  filter p (filter q l) = filter q (filter p l).
Proof.
  induction l as [|a l IH]; simpl; [reflexivity|].
  destruct (q a) eqn:Hq, (p a) eqn:Hp; simpl; rewrite ?Hq, ?Hp, IH; reflexivity.
Qed.

Section UniqueKeys.

Variable A : Type.
Variable key : A -> string.

Lemma filter_no_key (l : list A) (k : string) :
  ~ In k (map key l) -> filter (fun y => String.eqb (key y) k) l = [].
Proof.
  induction l as [|a l IH]; simpl; intros Hn; [reflexivity|].
  destruct (String.eqb_spec (key a) k) as [Heq|Hne].
  - exfalso. apply Hn. now left.
  - apply IH. intros Hin. apply Hn. now right.
Qed.

(** Under unique keys, selecting by the key of a member selects it
    alone. *)
Lemma filter_key_unique (l : list A) (x : A) :
  NoDup (map key l) -> In x l ->
  filter (fun y => String.eqb (key y) (key x)) l = [x].
Proof.
  induction l as [|a l IH]; simpl; intros Hnd Hin; [contradiction|].
  inversion Hnd as [|? ? Hnotin Hnd']; subst.
  destruct Hin as [-> | Hin].
  - rewrite String.eqb_refl. f_equal. now apply filter_no_key.
  - destruct (String.eqb_spec (key a) (key x)) as [Heq|Hne].
    + exfalso. apply Hnotin. rewrite Heq. now apply in_map.
    + now apply IH.
Qed.

End UniqueKeys.

(** ** Grouping *)

Lemma grouped_rows_In (nl : NodeList) (g : NodeRow) :
  In g (grouped_rows nl) <->
  In g (map snd (nrows nl)) /\ nr_active g = true /\ nr_parent g <> None.
Proof.
  unfold grouped_rows. rewrite filter_In. split.
  - intros [Hin H]. split; [assumption|].
    destruct (nr_parent g), (nr_active g); simpl in H; try discriminate;
      split; congruence.
  - intros [Hin [Ha Hp]]. split; [assumption|].
    rewrite Ha. destruct (nr_parent g); [reflexivity | congruence].
Qed.

Lemma active_rows_In (nl : NodeList) (r : NodeRow) :
  In r (active_rows nl) <-> In r (map snd (nrows nl)) /\ nr_active r = true.
Proof.
  unfold active_rows. rewrite filter_In.
  destruct (nr_active r); simpl; intuition congruence.
Qed.

(** With unique names, the grouped rows matched by the name of a grouped
    node are that node alone. *)
Lemma grouped_match_unique (nl : NodeList) (g : NodeRow) :
  NoDup (node_names nl) -> In g (grouped_rows nl) ->
  filter (fun r => String.eqb (nr_event r) (nr_event g)) (grouped_rows nl) = [g].
Proof.
  intros Hnd Hg. pose proof Hg as Hg'. apply grouped_rows_In in Hg' as [Hin [Ha Hp]].
  unfold grouped_rows. rewrite filter_filter_comm.
  rewrite (filter_key_unique NodeRow nr_event (map snd (nrows nl)) g Hnd Hin).
  simpl. rewrite Ha. destruct (nr_parent g); [reflexivity | congruence].
Qed.

Lemma replace_grouped_events_member (nl : NodeList) (g : NodeRow) (B : string)
    (row : EventRecord) :
  NoDup (node_names nl) -> In g (grouped_rows nl) -> nr_parent g = Some B ->
  event row = nr_event g ->
  _replace_grouped_events (grouped_rows nl) row = with_event B row.
Proof.
  intros Hnd Hg Hp He. unfold _replace_grouped_events.
  rewrite He, (grouped_match_unique nl g Hnd Hg), Hp. reflexivity.
Qed.

(** The name a row gets is its own, when no grouped node has it, or the
    parent of a grouped node. *)
Lemma replace_grouped_events_cases (nl : NodeList) (row : EventRecord) :
  (event (_replace_grouped_events (grouped_rows nl) row) = event row
   /\ forall g, In g (grouped_rows nl) -> nr_event g <> event row)
  \/ (exists g, In g (grouped_rows nl)
                /\ nr_parent g = Some (event (_replace_grouped_events (grouped_rows nl) row))).
Proof.
  unfold _replace_grouped_events.
  destruct (filter (fun g => String.eqb (nr_event g) (event row)) (grouped_rows nl))
    as [|g rest] eqn:Hf.
  - left. split; [reflexivity|]. intros g Hg Heq.
    assert (Hin : In g (filter (fun g => String.eqb (nr_event g) (event row))
                               (grouped_rows nl))).
    { apply filter_In. split; [assumption|]. now apply String.eqb_eq. }
    rewrite Hf in Hin. contradiction.
  - assert (Hin : In g (filter (fun g => String.eqb (nr_event g) (event row))
                               (grouped_rows nl)))
      by (rewrite Hf; now left).
    apply filter_In in Hin as [Hin _].
    destruct (nr_parent g) as [p|] eqn:Hp.
    + right. exists g. split; [assumption|]. now rewrite Hp.
    + apply grouped_rows_In in Hin as [_ [_ Hne]]. congruence.
Qed.

Lemma consecutive_In {A : Type} (l : list A) (a b : A) :
  In (a, b) (consecutive l) -> In a l /\ In b l.
Proof.
  induction l as [|x l IH]; [intros []|].
  destruct l as [|y l]; [intros []|].
  intros [Heq | Hin].
  - inversion Heq; subst. split; [now left | right; now left].
  - destruct (IH Hin) as [Ha Hb]. split; now right.
Qed.

Lemma consecutive_map {A B : Type} (f : A -> B) (l : list A) :
  consecutive (map f l) = map (fun p => (f (fst p), f (snd p))) (consecutive l).
Proof.
  induction l as [|x l IH]; [reflexivity|].
  destruct l as [|y l]; [reflexivity|].
  change (map f (x :: y :: l)) with (f x :: f y :: map f l).
  change (consecutive (f x :: f y :: map f l))
    with ((f x, f y) :: consecutive (map f (y :: l))).
  rewrite IH. reflexivity.
Qed.

Lemma pair_eqb_eq (p q : string * string) : pair_eqb p q = true <-> p = q.
Proof.
  unfold pair_eqb. destruct p as [a b], q as [c d]. simpl.
  rewrite andb_true_iff, !String.eqb_eq. split.
  - intros [-> ->]. reflexivity.
  - intros H. inversion H. split; reflexivity.
Qed.

Lemma subset_pairs_In (ps qs : list (string * string)) :
  subset_pairs ps qs = true <-> (forall p, In p ps -> In p qs).
Proof.
  unfold subset_pairs. rewrite forallb_forall. split.
  - intros H p Hp. apply H in Hp. apply existsb_exists in Hp as [q [Hq Heq]].
    apply pair_eqb_eq in Heq. now subst.
  - intros H p Hp. apply existsb_exists. exists p. split; [now apply H|].
    now apply pair_eqb_eq.
Qed.

Lemma is_edgelist_of_In (log : list EventRecord) (el : EdgeList) :
  is_edgelist_of log el = true ->
  forall s t, In (s, t) (edge_pairs el) <-> In (s, t) (transitions log).
Proof.
  unfold is_edgelist_of. rewrite andb_true_iff, !subset_pairs_In.
  intros [H1 H2] s t. split; [apply H1 | apply H2].
Qed.

(** What [_recalculate] leaves in the session when it returns. *)
Lemma recalculate_edgelist (self self' : ReteGraph) :
  _recalculate self = (Ok tt, self') ->
  edgelist self' = create_edgelist (rete self)
                     (updated_clickstream (rete self) (nodelist self)).
Proof.
  unfold _recalculate.
  destruct (apply_update _ _ _); intros H; inversion H; reflexivity.
Qed.

Lemma replace_grouped_events_event (grouped : list NodeRow) (row row' : EventRecord) :
  event row = event row' ->
  event (_replace_grouped_events grouped row)
  = event (_replace_grouped_events grouped row').
Proof.
  unfold _replace_grouped_events. intros H. rewrite H.
  destruct (filter _ grouped) as [|g rest]; [assumption|].
  destruct (nr_parent g); [reflexivity | assumption].
Qed.

Lemma transitions_updated (rt : ReteExplorer) (nl : NodeList) :
  transitions (updated_clickstream rt nl)
  = map (fun p => (relabel nl (fst p), relabel nl (snd p)))
        (transitions (filtered_clickstream rt nl)).
Proof.
  unfold transitions, updated_clickstream. rewrite consecutive_map, !map_map.
  apply map_ext. intros [a b]. simpl. unfold relabel.
  f_equal; apply replace_grouped_events_event; reflexivity.
Qed.

(** C7. Group substitution is single-level: a log row whose event name is
    that of a grouped node C with parent B is relabelled to B by the one
    pass of [_recalculate], whether or not B is itself grouped under some
    node A; the relabelled name is B and no other name. *)
Theorem single_level_substitution
    (rt : ReteExplorer) (nl : NodeList) (C B : string) (rowC : NodeRow)
    (row : EventRecord) :
  NoDup (node_names nl) ->
  In rowC (map snd (nrows nl)) ->
  nr_event rowC = C -> nr_active rowC = true -> nr_parent rowC = Some B ->
  In row (filtered_clickstream rt nl) -> event row = C ->
  _replace_grouped_events (grouped_rows nl) row = with_event B row
  /\ In (with_event B row) (updated_clickstream rt nl)
  /\ forall A, A <> B ->
               event (_replace_grouped_events (grouped_rows nl) row) <> A.
Proof.
  intros Hnd Hin Hname Hact Hpar Hrow Hev.
  assert (Hg : In rowC (grouped_rows nl)).
  { apply grouped_rows_In. repeat split; congruence. }
  assert (Heq : _replace_grouped_events (grouped_rows nl) row = with_event B row).
  { apply (replace_grouped_events_member nl rowC B row); congruence. }
  split; [exact Heq|]. split.
  - unfold updated_clickstream. rewrite <- Heq. now apply in_map.
  - intros A HA. rewrite Heq. simpl. congruence.
Qed.

Lemma chain_names_nodup : NoDup (node_names (nodelist chain_session)).
Proof.
  repeat constructor; simpl; intuition discriminate.
Qed.

(** C7 on the chain C -> B -> A: the rows of C become B, not A. *)
Lemma single_level_substitution_witness :
  _replace_grouped_events (grouped_rows (nodelist chain_session)) (ev "C" 1)
  = with_event "B" (ev "C" 1)
  /\ In (with_event "B" (ev "C" 1))
        (updated_clickstream (rete chain_session) (nodelist chain_session))
  /\ forall A, A <> "B" ->
               event (_replace_grouped_events (grouped_rows (nodelist chain_session))
                                              (ev "C" 1)) <> A.
Proof.
  apply (single_level_substitution (rete chain_session) (nodelist chain_session)
           "C" "B" (node "C" true (Some "B") [("number_of_events", of_Z 2)])
           (ev "C" 1)).
  - exact chain_names_nodup.
  - simpl. right. right. left. reflexivity.
  - reflexivity.
  - reflexivity.
  - reflexivity.
  - simpl. left. reflexivity.
  - reflexivity.
Defined.

Lemma relabel_grouped (nl : NodeList) (g : NodeRow) (B : string) :
  NoDup (node_names nl) -> In g (grouped_rows nl) -> nr_parent g = Some B ->
  relabel nl (nr_event g) = B.
Proof.
  intros Hnd Hg Hp. unfold relabel.
  rewrite (replace_grouped_events_member nl g B); auto.
Qed.

(** No row of the relabelled log carries the name of a grouped node that
    is nobody's parent. *)
Lemma relabel_avoids (nl : NodeList) (rowA : NodeRow) (e : string) :
  In rowA (grouped_rows nl) ->
  (forall g, In g (grouped_rows nl) -> nr_parent g <> Some (nr_event rowA)) ->
  relabel nl e <> nr_event rowA.
Proof.
  intros HA Hfree. unfold relabel.
  destruct (replace_grouped_events_cases nl
              {| event := e; case_id := EmptyString; timestamp := 0 |})
    as [[Heq Hnone] | [g [Hg Hp]]].
  - rewrite Heq. simpl. intros He. apply (Hnone rowA HA). simpl. congruence.
  - intros He. apply (Hfree g Hg). congruence.
Qed.

(** C1, as amended. For a node list with unique names and a node A that
    is active with parent B, when no grouped node has A as its parent (A
    not its own parent either) and the Explorer's edge list holds the
    transitions of the log it is given: after a recomputation no edge has
    A as source or target, and every transition of the filtered log from
    or to an event of A is an edge from or to B. *)
Theorem grouping_correctness
    (self self' : ReteGraph) (A B : string) (rowA : NodeRow) :
  NoDup (node_names (nodelist self)) ->
  In rowA (map snd (nrows (nodelist self))) ->
  nr_event rowA = A -> nr_active rowA = true -> nr_parent rowA = Some B ->
  (forall g, In g (grouped_rows (nodelist self)) -> nr_parent g <> Some A) ->
  is_edgelist_of (updated_clickstream (rete self) (nodelist self))
                 (create_edgelist (rete self)
                    (updated_clickstream (rete self) (nodelist self))) = true ->
  _recalculate self = (Ok tt, self') ->
  (forall row, In row (erows (edgelist self')) ->
               er_source row <> A /\ er_target row <> A)
  /\ (forall b, In (A, b) (transitions (filtered_clickstream (rete self) (nodelist self))) ->
                exists row, In row (erows (edgelist self'))
                            /\ er_source row = B
                            /\ er_target row = relabel (nodelist self) b)
  /\ (forall a, In (a, A) (transitions (filtered_clickstream (rete self) (nodelist self))) ->
                exists row, In row (erows (edgelist self'))
                            /\ er_source row = relabel (nodelist self) a
                            /\ er_target row = B).
Proof.
  intros Hnd Hin Hname Hact Hpar Hfree Hspec Hrun.
  pose proof (is_edgelist_of_In _ _ Hspec) as Hedges.
  rewrite <- (recalculate_edgelist self self' Hrun) in Hedges.
  assert (Hg : In rowA (grouped_rows (nodelist self))).
  { apply grouped_rows_In. repeat split; congruence. }
  assert (HB : relabel (nodelist self) A = B).
  { rewrite <- Hname. now apply relabel_grouped. }
  assert (Havoid : forall e, relabel (nodelist self) e <> A).
  { intros e. rewrite <- Hname. apply relabel_avoids; [assumption|].
    rewrite Hname. assumption. }
  assert (Hedge : forall a b,
             In (a, b) (transitions (filtered_clickstream (rete self) (nodelist self))) ->
             exists row, In row (erows (edgelist self'))
                         /\ er_source row = relabel (nodelist self) a
                         /\ er_target row = relabel (nodelist self) b).
  { intros a b Hab.
    assert (Hp : In (relabel (nodelist self) a, relabel (nodelist self) b)
                    (edge_pairs (edgelist self'))).
    { apply Hedges. rewrite transitions_updated.
      apply (in_map (fun p => (relabel (nodelist self) (fst p),
                               relabel (nodelist self) (snd p))) _ (a, b)).
      assumption. }
    unfold edge_pairs in Hp. apply in_map_iff in Hp as [row [Heq Hrow]].
    inversion Heq. exists row. repeat split; assumption. }
  split; [|split].
  - intros row Hrow.
    assert (Hp : In (er_source row, er_target row) (edge_pairs (edgelist self'))).
    { unfold edge_pairs.
      apply (in_map (fun r => (er_source r, er_target r)) _ row). assumption. }
    apply Hedges in Hp. rewrite transitions_updated in Hp.
    apply in_map_iff in Hp as [[a b] [Heq _]]. simpl in Heq. inversion Heq.
    split; apply Havoid.
  - intros b Hb. destruct (Hedge A b Hb) as [row [Hrow [Hs Ht]]].
    exists row. rewrite <- HB. repeat split; assumption.
  - intros a Ha. destruct (Hedge a A Ha) as [row [Hrow [Hs Ht]]].
    exists row. rewrite <- HB. repeat split; assumption.
Qed.

Lemma scenario_names_nodup : NoDup (node_names (nodelist scenario_session)).
Proof.
  repeat constructor; simpl; intuition discriminate.
Qed.

(** C1, as amended, on the scenario of the spec: B grouped under A, log B
    then A; the one edge is A -> A. *)
Lemma grouping_correctness_witness :
  let self' := snd (_recalculate scenario_session) in
  (forall row, In row (erows (edgelist self')) ->
               er_source row <> "B" /\ er_target row <> "B")
  /\ (forall b, In ("B", b) (transitions (filtered_clickstream (rete scenario_session)
                                            (nodelist scenario_session))) ->
                exists row, In row (erows (edgelist self'))
                            /\ er_source row = "A"
                            /\ er_target row = relabel (nodelist scenario_session) b)
  /\ (forall a, In (a, "B") (transitions (filtered_clickstream (rete scenario_session)
                                            (nodelist scenario_session))) ->
                exists row, In row (erows (edgelist self'))
                            /\ er_source row = relabel (nodelist scenario_session) a
                            /\ er_target row = "A").
Proof.
  intros self'.
  apply (grouping_correctness scenario_session self' "B" "A"
           (node "B" true (Some "A") [("number_of_events", of_Z 1)])).
  - exact scenario_names_nodup.
  - simpl. right. left. reflexivity.
  - reflexivity.
  - reflexivity.
  - reflexivity.
  - intros g Hg. simpl in Hg. destruct Hg as [<- | []]. simpl. discriminate.
  - vm_compute. reflexivity.
  - reflexivity.
Defined.

(** C1, as it is written, fails on the chain C -> B -> A with the log
    C, B, C: B is active with parent A, and the rows of C, relabelled to B
    by the single pass, make B an endpoint of both edges. *)
Lemma grouping_chain_counterexample : ~ no_grouped_endpoint chain_session.
Proof.
  intros H.
  destruct (H "B" "A" (node "B" true (Some "A") [("number_of_events", of_Z 1)])
              (snd (_recalculate chain_session))
              ltac:(simpl; right; left; reflexivity)
              eq_refl eq_refl eq_refl eq_refl
              {| er_source := "B"; er_target := "A";
                 er_values := [("edge_weight", of_Z 1)]; er_type := None |}
              ltac:(vm_compute; left; reflexivity))
    as [Hs _].
  apply Hs. reflexivity.
Qed.

(** ** Dictionaries built by a loop *)

Lemma dict_get_set_same {V : Type} (k : string) (v : V) (d : dict V) :
  dict_get k (dict_set k v d) = Some v.
Proof.
  induction d as [|[k' v'] d IH]; simpl.
  - now rewrite String.eqb_refl.
  - destruct (String.eqb k' k) eqn:E; simpl; rewrite E; [reflexivity | exact IH].
Qed.

Lemma dict_get_set_other {V : Type} (k k0 : string) (v : V) (d : dict V) :
  k <> k0 -> dict_get k (dict_set k0 v d) = dict_get k d.
Proof.
  intros Hne. induction d as [|[k' v'] d IH]; simpl.
  - destruct (String.eqb_spec k0 k); [congruence | reflexivity].
  - destruct (String.eqb_spec k' k0) as [->|Hk]; simpl.
    + destruct (String.eqb_spec k0 k); [congruence | reflexivity].
    + destruct (String.eqb k' k); [reflexivity | exact IH].
Qed.

Lemma dict_get_keys {V : Type} (k : string) (d : dict V) :
  In k (dict_keys d) <-> exists v, dict_get k d = Some v.
Proof.
  induction d as [|[k' v'] d IH]; simpl.
  - split; [intros [] | intros [v Hv]; discriminate].
  - destruct (String.eqb_spec k' k) as [->|Hne].
    + split; [intros _; now exists v' | intros _; now left].
    + rewrite IH. split; [intros [H|H]; [congruence | exact H] | intros H; now right].
Qed.

Lemma fold_left_pointwise {S K : Type} (f g : S -> K -> S) (l : list K) (s : S) :
  (forall a k, f a k = g a k) -> fold_left f l s = fold_left g l s.
Proof.
  intros H. revert s. induction l as [|k l IH]; intros s; simpl;
    [reflexivity | now rewrite H, IH].
Qed.

Section LoopOverKeys.

Variable V : Type.
Variable g : string -> result V.

Lemma fill_raised (keys : list string) (e : exn) :
  fold_left (fill g) keys (Raise e) = Raise e.
Proof.
  induction keys as [|k keys IH]; simpl; [reflexivity | exact IH].
Qed.

(** One key on which [g] raises makes the whole loop raise. *)
Lemma fill_raises (keys : list string) (key : string) :
  In key keys -> (exists e, g key = Raise e) ->
  forall acc, exists e, fold_left (fill g) keys acc = Raise e.
Proof.
  intros Hin [e He]. induction keys as [|k keys IH]; [contradiction|].
  intros acc. simpl.
  destruct acc as [norm | e0]; [| exists e0; apply fill_raised].
  destruct Hin as [-> | Hin].
  - exists e. cbn [fold_left].
    replace (fill g (Ok norm) key) with (@Raise (dict V) e);
      [apply fill_raised | unfold fill; simpl; now rewrite He].
  - apply IH. exact Hin.
Qed.

(** When [g] returns on every key, the loop returns a dictionary that
    holds [g key] under each key and is otherwise the one it started
    from. *)
Lemma fill_returns (keys : list string) :
  (forall k, In k keys -> exists q, g k = Ok q) ->
  forall norm0, exists norm,
    fold_left (fill g) keys (Ok norm0) = Ok norm
    /\ (forall k q, In k keys -> g k = Ok q -> dict_get k norm = Some q)
    /\ (forall k, ~ In k keys -> dict_get k norm = dict_get k norm0).
Proof.
  induction keys as [|k0 keys IH]; intros Hg norm0.
  - exists norm0. split; [reflexivity | split; [intros k q [] | reflexivity]].
  - destruct (Hg k0 (or_introl eq_refl)) as [q0 Hq0].
    destruct (IH (fun k Hk => Hg k (or_intror Hk)) (dict_set k0 q0 norm0))
      as [norm [Hfold [Hin Hout]]].
    exists norm. split; [|split].
    + cbn [fold_left].
      replace (fill g (Ok norm0) k0) with (Ok (dict_set k0 q0 norm0));
        [exact Hfold | unfold fill; simpl; now rewrite Hq0].
    + intros k q Hk Hq.
      destruct (in_dec string_dec k keys) as [Hi|Hni]; [now apply Hin|].
      destruct Hk as [<- | Hk]; [|contradiction].
      rewrite (Hout k0 Hni), dict_get_set_same. congruence.
    + intros k Hk. rewrite Hout by (intros H; apply Hk; now right).
      apply dict_get_set_other. intros ->. apply Hk. now left.
Qed.

End LoopOverKeys.

(** ** MetricNormalizer *)

Lemma node_threshold_loop (self : ReteGraph) (th : Threshold) :
  _get_norm_node_threshold self (Some th)
  = (norm <- fold_left (fill (node_norm self th)) (dict_keys th) (Ok []) ;;
     Ok (Some norm), self).
Proof.
  unfold _get_norm_node_threshold. f_equal. f_equal.
  apply fold_left_pointwise. intros acc key. unfold fill, node_norm.
  destruct acc as [norm|e]; simpl; [|reflexivity].
  destruct (node_column key (nodelist self)); simpl; [|reflexivity].
  destruct (dict_item key th); simpl; [|reflexivity].
  destruct (py_div _ _); reflexivity.
Qed.

Lemma link_threshold_loop (self : ReteGraph) (th : Threshold) (column : list float) :
  edge_column (get_edgelist_default_col (rete self)) (edgelist self) = Ok column ->
  _get_norm_link_threshold self (Some th)
  = (norm <- fold_left (fill (link_norm self th (series_abs_max column)))
                       (dict_keys th) (Ok []) ;;
     Ok (Some norm), self).
Proof.
  intros Hcol. unfold _get_norm_link_threshold. rewrite Hcol. simpl.
  f_equal. f_equal.
  apply fold_left_pointwise. intros acc key. unfold fill, link_norm.
  destruct acc as [norm|e]; simpl; [|reflexivity].
  destruct (String.eqb_spec key (get_nodelist_default_col (rete self))) as [->|Hne].
  - destruct (dict_item _ th); simpl; [|reflexivity].
    destruct (py_div _ _); reflexivity.
  - destruct (edge_column key (edgelist self)); simpl; [|reflexivity].
    destruct (dict_item key th); simpl; [|reflexivity].
    destruct (py_div _ _); reflexivity.
Qed.

Lemma dict_item_keys {V : Type} (k : string) (d : dict V) :
  In k (dict_keys d) -> exists v, dict_item k d = Ok v.
Proof.
  intros H. apply dict_get_keys in H as [v Hv]. exists v.
  unfold dict_item. now rewrite Hv.
Qed.

Lemma py_div_zero (v s : float) : is_zero s = true -> py_div v s = Raise ZeroDivisionError.
Proof. unfold py_div. now intros ->. Qed.

Lemma py_div_nonzero (v s : float) : is_zero s = false -> py_div v s = Ok (np_div v s).
Proof. unfold py_div. now intros ->. Qed.

(** C8. Link-threshold normalization: when the columns that scale the
    requested keys exist with a nonzero maximum, the call returns, and in
    what it returns the threshold under the node list's default column
    name is the requested one divided by the maximum absolute value of the
    edge list's default column, while the threshold under any other key is
    the requested one divided by the maximum absolute value of that key's
    own column of the edge list. *)
Theorem link_threshold_scaling
    (self : ReteGraph) (th : Threshold) (default_column : list float) :
  edge_column (get_edgelist_default_col (rete self)) (edgelist self)
  = Ok default_column ->
  (forall key, In key (dict_keys th) ->
     exists column,
       edge_column (link_scale_column (rete self) key) (edgelist self) = Ok column
       /\ is_zero (series_abs_max column) = false) ->
  exists norm,
    _get_norm_link_threshold self (Some th) = (Ok (Some norm), self)
    /\ (forall v,
          dict_get (get_nodelist_default_col (rete self)) th = Some v ->
          dict_get (get_nodelist_default_col (rete self)) norm
          = Some (np_div v (series_abs_max default_column)))
    /\ (forall key v column,
          key <> get_nodelist_default_col (rete self) ->
          dict_get key th = Some v ->
          edge_column key (edgelist self) = Ok column ->
          dict_get key norm = Some (np_div v (series_abs_max column))).
Proof.
  intros Hdef Hcols.
  rewrite (link_threshold_loop self th default_column Hdef).
  set (g := link_norm self th (series_abs_max default_column)).
  assert (Hg : forall key v, dict_get key th = Some v ->
                 exists column,
                   edge_column (link_scale_column (rete self) key) (edgelist self)
                   = Ok column
                   /\ g key = Ok (np_div v (series_abs_max column))).
  { intros key v Hv.
    assert (Hin : In key (dict_keys th)) by (apply dict_get_keys; now exists v).
    destruct (Hcols key Hin) as [column [Hc Hz]]. exists column. split; [exact Hc|].
    unfold g, link_norm, link_scale_column in *.
    destruct (String.eqb key (get_nodelist_default_col (rete self))).
    - assert (column = default_column) by congruence. subst column.
      unfold dict_item. rewrite Hv. simpl. now apply py_div_nonzero.
    - rewrite Hc. unfold dict_item. rewrite Hv. simpl. now apply py_div_nonzero. }
  destruct (fill_returns float g (dict_keys th)) with (norm0 := @nil (string * float))
    as [norm [Hfold [Hin _]]].
  { intros k Hk. apply dict_get_keys in Hk as [v Hv].
    destruct (Hg k v Hv) as [column [_ Hq]]. eexists. exact Hq. }
  exists norm. unfold Threshold, dict in *. rewrite Hfold. simpl. split; [reflexivity|]. split.
  - intros v Hv. destruct (Hg _ v Hv) as [column [Hc Hq]].
    unfold link_scale_column in Hc. rewrite String.eqb_refl in Hc.
    assert (column = default_column) by congruence. subst column.
    apply Hin; [apply dict_get_keys; now exists v | exact Hq].
  - intros key v column Hne Hv Hc. destruct (Hg key v Hv) as [column' [Hc' Hq]].
    unfold link_scale_column in Hc'.
    destruct (String.eqb_spec key (get_nodelist_default_col (rete self)));
      [contradiction|].
    assert (column' = column) by congruence. subst column'.
    apply Hin; [apply dict_get_keys; now exists v | exact Hq].
Qed.

(** C8 on a session with the edge columns [edge_weight] (maximum 4) and
    [duration] (maximum magnitude 10): the threshold 2 under the node
    default name becomes 2/4, the threshold 5 under [duration] 5/10. *)
Lemma link_threshold_scaling_witness :
  exists norm,
    _get_norm_link_threshold two_metric_session
      (Some [("number_of_events", of_Z 2); ("duration", of_Z 5)])
    = (Ok (Some norm), two_metric_session)
    /\ (forall v,
          dict_get "number_of_events" [("number_of_events", of_Z 2); ("duration", of_Z 5)]
          = Some v ->
          dict_get "number_of_events" norm
          = Some (np_div v (series_abs_max [of_Z 4; of_Z 2])))
    /\ (forall key v column,
          key <> "number_of_events" ->
          dict_get key [("number_of_events", of_Z 2); ("duration", of_Z 5)] = Some v ->
          edge_column key (edgelist two_metric_session) = Ok column ->
          dict_get key norm = Some (np_div v (series_abs_max column))).
Proof.
  apply (link_threshold_scaling two_metric_session
           [("number_of_events", of_Z 2); ("duration", of_Z 5)] [of_Z 4; of_Z 2]).
  - reflexivity.
  - intros key [<- | [<- | []]].
    + exists [of_Z 4; of_Z 2]. split; reflexivity.
    + exists [of_Z (-10); of_Z 5]. split; reflexivity.
Defined.

(** C2. A node threshold requested for a metric whose maximum absolute
    value over the node list is zero, and a link threshold requested for
    a metric whose scaling column of the edge list has maximum absolute
    value zero, make the call raise (the zero divisor raises Python's
    ZeroDivisionError when no earlier key raised), and the session the
    call leaves is the one it was given. *)
Theorem zero_scale_threshold_fails
    (self : ReteGraph) (th : Threshold) (key : string) :
  In key (dict_keys th) ->
  (forall column,
     node_column key (nodelist self) = Ok column ->
     is_zero (series_abs_max column) = true ->
     exists e, _get_norm_node_threshold self (Some th) = (Raise e, self))
  /\ (forall column,
        edge_column (link_scale_column (rete self) key) (edgelist self) = Ok column ->
        is_zero (series_abs_max column) = true ->
        exists e, _get_norm_link_threshold self (Some th) = (Raise e, self)).
Proof.
  intros Hin. destruct (dict_item_keys key th Hin) as [v Hv]. split.
  - intros column Hc Hz. rewrite node_threshold_loop.
    destruct (fill_raises float (node_norm self th) (dict_keys th) key Hin)
      with (acc := @Ok (dict float) []) as [e He].
    { exists ZeroDivisionError. unfold node_norm. rewrite Hc, Hv. simpl.
      now apply py_div_zero. }
    exists e. unfold Threshold, dict in *. now rewrite He.
  - intros column Hc Hz.
    destruct (edge_column (get_edgelist_default_col (rete self)) (edgelist self))
      as [default_column | e0] eqn:Hdef.
    + rewrite (link_threshold_loop self th default_column Hdef).
      destruct (fill_raises float (link_norm self th (series_abs_max default_column))
                  (dict_keys th) key Hin)
        with (acc := @Ok (dict float) []) as [e He].
      { exists ZeroDivisionError. unfold link_norm, link_scale_column in *.
        destruct (String.eqb key (get_nodelist_default_col (rete self))).
        - assert (column = default_column) by congruence. subst column.
          rewrite Hv. simpl. now apply py_div_zero.
        - rewrite Hc, Hv. simpl. now apply py_div_zero. }
      exists e. unfold Threshold, dict in *. now rewrite He.
    + exists e0. unfold _get_norm_link_threshold. rewrite Hdef. reflexivity.
Qed.

(** C2 on the session whose node metric and edge weight are all zero. *)
Lemma zero_scale_threshold_fails_witness :
  (exists e, _get_norm_node_threshold zero_session
               (Some [("number_of_events", of_Z 5)]) = (Raise e, zero_session))
  /\ (exists e, _get_norm_link_threshold zero_session
                  (Some [("number_of_events", of_Z 5)]) = (Raise e, zero_session)).
Proof.
  destruct (zero_scale_threshold_fails zero_session
              [("number_of_events", of_Z 5)] "number_of_events")
    as [Hnode Hlink].
  - simpl. left. reflexivity.
  - split.
    + apply (Hnode [of_Z 0; of_Z 0]); reflexivity.
    + apply (Hlink [of_Z 0]); reflexivity.
Defined.

(** ** Recomputation *)

Lemma set_metric_same_edits (col : string) (v : float) (r : NodeRow) :
  same_edits r (set_metric col v r).
Proof. repeat split. Qed.

Lemma dict_set_present {V : Type} (k : string) (v : V) (d : dict V) :
  dict_get k d = Some v -> dict_set k v d = d.
Proof.
  induction d as [|[k' v'] d IH]; simpl; [discriminate|].
  destruct (String.eqb k' k); intros H.
  - inversion H. reflexivity.
  - now rewrite IH.
Qed.

Lemma set_metric_present (col : string) (v : float) (r : NodeRow) :
  dict_get col (nr_metrics r) = Some v -> set_metric col v r = r.
Proof.
  intros H. destruct r. unfold set_metric. simpl in *.
  now rewrite (dict_set_present _ _ _ H).
Qed.

Section UpdateRow.

Variable columns : list string.
Variable values : dict float.

(** The loop of [_update_node_after_recalc] over [cols]. *)
Let write (acc : result NodeRow) (col : string) : result NodeRow :=
  row' <- acc ;;
  v <- row_item columns col values ;;
  Ok (set_metric col v row').

Lemma write_raised (cols : list string) (e : exn) :
  fold_left write cols (Raise e) = Raise e.
Proof. induction cols as [|c cols IH]; simpl; [reflexivity | exact IH]. Qed.

Lemma write_same_edits (cols : list string) (r r' : NodeRow) :
  fold_left write cols (Ok r) = Ok r' -> same_edits r r'.
Proof.
  revert r. induction cols as [|c cols IH]; intros r; simpl.
  - intros H. inversion H. repeat split.
  - destruct (row_item columns c values) as [v|e]; simpl.
    + intros H. apply IH in H. destruct H as [H1 [H2 H3]]. repeat split; assumption.
    + rewrite write_raised. discriminate.
Qed.

(** A column that holds its recalculated value keeps it. *)
Lemma write_keeps (cols : list string) (c : string) (v : float) (r r' : NodeRow) :
  row_item columns c values = Ok v ->
  dict_get c (nr_metrics r) = Some v ->
  fold_left write cols (Ok r) = Ok r' ->
  dict_get c (nr_metrics r') = Some v.
Proof.
  intros Hv. revert r. induction cols as [|c0 cols IH]; intros r Hc; simpl.
  - intros H. inversion H. now subst.
  - destruct (row_item columns c0 values) as [v0|e] eqn:Hv0; simpl.
    + apply IH. simpl. destruct (String.eqb_spec c c0) as [->|Hne].
      * rewrite dict_get_set_same. congruence.
      * rewrite dict_get_set_other by assumption. exact Hc.
    + rewrite write_raised. discriminate.
Qed.

Lemma write_written (cols : list string) (r r' : NodeRow) :
  fold_left write cols (Ok r) = Ok r' ->
  forall c, In c cols ->
            exists v, row_item columns c values = Ok v
                      /\ dict_get c (nr_metrics r') = Some v.
Proof.
  revert r. induction cols as [|c0 cols IH]; intros r H c Hc; [contradiction|].
  simpl in H.
  destruct (row_item columns c0 values) as [v0|e] eqn:Hv0; simpl in H;
    [| rewrite write_raised in H; discriminate].
  destruct (in_dec string_dec c cols) as [Hin|Hnin].
  - exact (IH _ H c Hin).
  - destruct Hc as [<- | Hc]; [|contradiction].
    exists v0. split; [assumption|].
    apply (write_keeps cols c0 v0 (set_metric c0 v0 r) r' Hv0); [|exact H].
    simpl. apply dict_get_set_same.
Qed.

Lemma write_again (cols : list string) (r : NodeRow) :
  (forall c, In c cols ->
             exists v, row_item columns c values = Ok v
                       /\ dict_get c (nr_metrics r) = Some v) ->
  fold_left write cols (Ok r) = Ok r.
Proof.
  induction cols as [|c0 cols IH]; intros H; simpl; [reflexivity|].
  destruct (H c0 (or_introl eq_refl)) as [v [Hv Hg]].
  rewrite Hv. simpl. rewrite (set_metric_present _ _ _ Hg).
  apply IH. intros c Hc. apply H. now right.
Qed.

Lemma write_idempotent (cols : list string) (r r' : NodeRow) :
  fold_left write cols (Ok r) = Ok r' -> fold_left write cols (Ok r') = Ok r'.
Proof.
  intros H. apply write_again. exact (write_written cols r r' H).
Qed.

End UpdateRow.

Lemma update_node_same_edits (cols : list string) (rec : NodeList) (r r' : NodeRow) :
  _update_node_after_recalc cols rec r = Ok r' -> same_edits r r'.
Proof.
  unfold _update_node_after_recalc.
  destruct (filter _ (nrows rec)) as [|[l rn] rest].
  - intros H. inversion H. repeat split.
  - apply write_same_edits.
Qed.

(** Updating an updated row from the same recalculated list changes
    nothing. *)
Lemma update_node_idempotent (cols : list string) (rec : NodeList) (r r' : NodeRow) :
  _update_node_after_recalc cols rec r = Ok r' ->
  _update_node_after_recalc cols rec r' = Ok r'.
Proof.
  intros H. pose proof (update_node_same_edits cols rec r r' H) as [Hname _].
  unfold _update_node_after_recalc in *. rewrite <- Hname.
  destruct (filter _ (nrows rec)) as [|[l rn] rest].
  - reflexivity.
  - now apply write_idempotent with (r := r).
Qed.

Lemma add_column_In (c c' : string) (cs : list string) :
  isin cs c' = true -> isin (add_column c cs) c' = true.
Proof.
  unfold add_column. destruct (isin cs c); [trivial|].
  rewrite !isin_In, in_app_iff. now left.
Qed.

Lemma add_column_self (c : string) (cs : list string) :
  isin (add_column c cs) c = true.
Proof.
  unfold add_column. destruct (isin cs c) eqn:E; [exact E|].
  rewrite isin_In, in_app_iff. right. now left.
Qed.

Lemma add_columns_keep (cols cs : list string) (c : string) :
  isin cs c = true -> isin (fold_left (fun cs c => add_column c cs) cols cs) c = true.
Proof.
  revert cs. induction cols as [|c0 cols IH]; intros cs H; simpl; [exact H|].
  apply IH. now apply add_column_In.
Qed.

Lemma add_columns_all (cols cs : list string) (c : string) :
  In c cols -> isin (fold_left (fun cs c => add_column c cs) cols cs) c = true.
Proof.
  revert cs. induction cols as [|c0 cols IH]; intros cs H; [contradiction|].
  simpl. destruct H as [<- | H].
  - apply add_columns_keep, add_column_self.
  - now apply IH.
Qed.

Lemma add_columns_present (cols cs : list string) :
  (forall c, In c cols -> isin cs c = true) ->
  fold_left (fun cs c => add_column c cs) cols cs = cs.
Proof.
  induction cols as [|c0 cols IH]; intros H; simpl; [reflexivity|].
  unfold add_column at 2. rewrite (H c0 (or_introl eq_refl)).
  apply IH. intros c Hc. apply H. now right.
Qed.

Lemma add_columns_idempotent (cols cs : list string) :
  fold_left (fun cs c => add_column c cs) cols
            (fold_left (fun cs c => add_column c cs) cols cs)
  = fold_left (fun cs c => add_column c cs) cols cs.
Proof.
  apply add_columns_present. intros c Hc. now apply add_columns_all.
Qed.

Section UpdateRows.

Variable cols : list string.
Variable rec : NodeList.

Let update (r : Z * NodeRow) : result (Z * NodeRow) :=
  row' <- _update_node_after_recalc cols rec (snd r) ;;
  Ok (fst r, row').

Lemma update_rows_same_edits (rows rows' : list (Z * NodeRow)) :
  mapM update rows = Ok rows' ->
  Forall2 same_edits (map snd rows) (map snd rows').
Proof.
  revert rows'. induction rows as [|r rows IH]; intros rows'; simpl.
  - intros H. inversion H. constructor.
  - unfold update at 1.
    destruct (_update_node_after_recalc cols rec (snd r)) as [r'|e] eqn:Hr;
      simpl; [|discriminate].
    destruct (mapM update rows) as [rs|e]; simpl; [|discriminate].
    intros H. inversion H. simpl. constructor.
    + exact (update_node_same_edits cols rec _ _ Hr).
    + now apply IH.
Qed.

Lemma update_rows_idempotent (rows rows' : list (Z * NodeRow)) :
  mapM update rows = Ok rows' -> mapM update rows' = Ok rows'.
Proof.
  revert rows'. induction rows as [|r rows IH]; intros rows'; simpl.
  - intros H. inversion H. reflexivity.
  - unfold update at 1.
    destruct (_update_node_after_recalc cols rec (snd r)) as [r'|e] eqn:Hr;
      simpl; [|discriminate].
    destruct (mapM update rows) as [rs|e]; simpl; [|discriminate].
    intros H. inversion H. simpl. unfold update at 1. simpl.
    rewrite (update_node_idempotent cols rec _ _ Hr). simpl.
    rewrite (IH rs eq_refl). reflexivity.
Qed.

End UpdateRows.

Lemma same_edits_names (rows rows' : list NodeRow) :
  Forall2 same_edits rows rows' -> map nr_event rows = map nr_event rows'.
Proof.
  induction 1 as [|r r' rows rows' [Hn _] _ IH]; simpl; [reflexivity|].
  now rewrite Hn, IH.
Qed.

Lemma same_edits_filter (p : NodeRow -> bool) (rows rows' : list NodeRow) :
  (forall r r', same_edits r r' -> p r = p r') ->
  Forall2 same_edits rows rows' ->
  Forall2 same_edits (filter p rows) (filter p rows').
Proof.
  intros Hp. induction 1 as [|r r' rows rows' Hr _ IH]; simpl; [constructor|].
  rewrite <- (Hp r r' Hr). destruct (p r); [constructor|]; assumption.
Qed.

Lemma same_edits_replace (grouped grouped' : list NodeRow) (row : EventRecord) :
  Forall2 same_edits grouped grouped' ->
  _replace_grouped_events grouped row = _replace_grouped_events grouped' row.
Proof.
  unfold _replace_grouped_events.
  induction 1 as [|g g' gs gs' [Hn [_ Hp]] _ IH]; simpl; [reflexivity|].
  rewrite <- Hn. destruct (String.eqb (nr_event g) (event row)).
  - now rewrite Hp.
  - exact IH.
Qed.

(** The log of [_recalculate] depends on the node list through the names,
    the [active] flags and the parents of its rows only. *)
Lemma same_edits_clickstream (rt : ReteExplorer) (nl nl' : NodeList) :
  Forall2 same_edits (map snd (nrows nl)) (map snd (nrows nl')) ->
  updated_clickstream rt nl' = updated_clickstream rt nl.
Proof.
  intros H. unfold updated_clickstream, filtered_clickstream.
  assert (Ha : map nr_event (active_rows nl') = map nr_event (active_rows nl)).
  { symmetry. apply same_edits_names. unfold active_rows.
    apply same_edits_filter; [|exact H].
    intros r r' [_ [Hact _]]. now rewrite Hact. }
  assert (Hg : Forall2 same_edits (grouped_rows nl) (grouped_rows nl')).
  { unfold grouped_rows. apply same_edits_filter; [|exact H].
    intros r r' [_ [Hact Hpar]]. now rewrite Hact, Hpar. }
  rewrite Ha. apply map_ext. intros row. symmetry. now apply same_edits_replace.
Qed.

(** The node list [_recalculate] writes is a fixed point of the update
    that wrote it. *)
Lemma apply_update_idempotent (cols : list string) (rec nl nl' : NodeList) :
  apply_update cols rec nl = Ok nl' ->
  apply_update cols rec nl' = Ok nl'
  /\ Forall2 same_edits (map snd (nrows nl)) (map snd (nrows nl')).
Proof.
  unfold apply_update.
  destruct (mapM _ (nrows nl)) as [rows|e] eqn:Hrows; simpl; [|discriminate].
  intros H. inversion H as [Hnl]. clear H. simpl.
  pose proof (update_rows_same_edits cols rec _ _ Hrows) as Hsame.
  split; [|exact Hsame].
  rewrite (update_rows_idempotent cols rec _ _ Hrows). simpl. f_equal.
  assert (Hw : existsb (fun r => isin (map (fun r => nr_event (snd r)) (nrows rec))
                                      (nr_event (snd r))) rows
               = existsb (fun r => isin (map (fun r => nr_event (snd r)) (nrows rec))
                                        (nr_event (snd r))) (nrows nl)).
  { apply same_edits_names in Hsame. rewrite !map_map in Hsame.
    clear - Hsame. revert rows Hsame.
    induction (nrows nl) as [|r rs IH]; intros [|r' rows'] H; simpl in *;
      try discriminate; [reflexivity|].
    inversion H as [[Hh Ht]]. rewrite Hh. f_equal. now apply IH. }
  rewrite Hw. destruct (existsb _ (nrows nl)); [|reflexivity].
  now rewrite add_columns_idempotent.
Qed.

(** [_recalculate] reads the Explorer and the node list of the session. *)
Lemma recalculate_frame (self self2 : ReteGraph) :
  rete self2 = rete self -> nodelist self2 = nodelist self ->
  _recalculate self2
  = match _recalculate self with
    | (Ok _, s) => (Ok tt, set_edgelist (edgelist s) (set_nodelist (nodelist s) self2))
    | (Raise e, _) => (Raise e, self2)
    end.
Proof.
  intros Hr Hn. unfold _recalculate. rewrite Hr, Hn.
  destruct (apply_update _ _ (nodelist self)); reflexivity.
Qed.

(** A second [_recalculate] finds the lists the first one wrote. *)
Lemma recalculate_stable (self self1 : ReteGraph) :
  _recalculate self = (Ok tt, self1) -> _recalculate self1 = (Ok tt, self1).
Proof.
  unfold _recalculate.
  destruct (apply_update _ _ (nodelist self)) as [nl|e] eqn:Hup; [|discriminate].
  intros H. inversion H as [Hs]. clear H. simpl.
  apply apply_update_idempotent in Hup as [Hagain Hsame].
  rewrite (same_edits_clickstream (rete self) (nodelist self) nl Hsame).
  rewrite Hagain. destruct self. reflexivity.
Qed.

Lemma recalculate_raise (self self1 : ReteGraph) (e : exn) :
  _recalculate self = (Raise e, self1) -> self1 = self.
Proof.
  unfold _recalculate. destruct (apply_update _ _ _); intros H; inversion H; reflexivity.
Qed.

Lemma recompute_again
    (set_order : list string -> list string)
    (edits : list PreparedNode) (self s1 : ReteGraph) (r1 : result Payload) :
  _on_recalc_request set_order edits self = (r1, s1) ->
  exists s2,
    _on_recalc_request set_order [] s1 = (r1, s2)
    /\ nodelist s2 = nodelist s1 /\ edgelist s2 = edgelist s1.
Proof.
  unfold _on_recalc_request at 1.
  set (self0 := _on_nodelist_updated edits (set_updates edits self)).
  destruct (_recalculate self0) as [[[]|e] self1] eqn:Hrun.
  - pose proof (recalculate_stable self0 self1 Hrun) as Hstable.
    destruct (_prepare_nodes set_order (rete _) (nodelist _) None None)
      as [[nodes nodes_set]|e] eqn:Hnodes.
    + destruct (_prepare_edges _ _ nodes_set) as [r el] eqn:Hedges.
      simpl in Hnodes, Hedges.
      destruct r as [links|e]; intros H; inversion H; subst r1 s1; clear H;
        unfold _on_recalc_request;
        match goal with
        | |- context [_recalculate ?S] =>
            rewrite !(recalculate_frame self1 S eq_refl eq_refl), Hstable
        end; simpl; rewrite Hnodes, Hedges; simpl; eexists; repeat split.
    + simpl in Hnodes. intros H; inversion H; subst r1 s1; clear H.
      unfold _on_recalc_request.
      match goal with
      | |- context [_recalculate ?S] =>
          rewrite !(recalculate_frame self1 S eq_refl eq_refl), Hstable
      end; simpl; rewrite Hnodes; simpl; eexists; repeat split.
  - pose proof (recalculate_raise self0 self1 e Hrun). subst self1.
    intros H; inversion H; subst r1 s1; clear H.
    unfold _on_recalc_request.
    match goal with
    | |- context [_recalculate ?S] =>
        rewrite !(recalculate_frame self0 S eq_refl eq_refl), Hrun
    end; simpl; eexists; repeat split.
Qed.

(** C3. Recomputing twice in a row, the second time with no edits, gives
    the payload of the first request again (with the set order of the
    first, its indices too) and leaves the node list and the edge list of
    the session, metric values included, as the first request left them. *)
Theorem recompute_twice
    (set_order : list string -> list string)
    (edits : list PreparedNode) (self : ReteGraph) :
  let first := _on_recalc_request set_order edits self in
  let second := _on_recalc_request set_order [] (snd first) in
  fst second = fst first
  /\ nodelist (snd second) = nodelist (snd first)
  /\ edgelist (snd second) = edgelist (snd first).
Proof.
  intros first second. subst second.
  destruct first as [r1 s1] eqn:Hfirst. subst first.
  destruct (recompute_again set_order edits self s1 r1 Hfirst) as [s2 [H2 [Hn He]]].
  simpl. rewrite H2. simpl. auto.
Qed.


(** ** PayloadBuilder *)

Lemma dict_set_filed (k : string) (n : PreparedNode) (d : dict PreparedNode) :
  pn_name n = k -> filed d -> filed (dict_set k n d).
Proof.
  intros Hn. unfold filed. induction d as [|[k' v'] d IH]; simpl; intros H.
  - constructor; [exact Hn | constructor].
  - inversion H as [|x l Hh Ht Hx]. clear H Hx.
    destruct (String.eqb k' k) eqn:E; constructor; auto.
    simpl. apply String.eqb_eq in E. congruence.
Qed.

Lemma dict_get_In {V : Type} (k : string) (v : V) (d : dict V) :
  dict_get k d = Some v -> In (k, v) d.
Proof.
  induction d as [|[k' v'] d IH]; simpl; [discriminate|].
  destruct (String.eqb_spec k' k) as [->|Hne]; intros H.
  - inversion H. now left.
  - right. now apply IH.
Qed.

Lemma filed_get (d : dict PreparedNode) (k : string) (n : PreparedNode) :
  filed d -> dict_get k d = Some n -> In n (dict_values d) /\ pn_name n = k.
Proof.
  intros Hf Hg. apply dict_get_In in Hg. split.
  - unfold dict_values. now apply (in_map snd) in Hg.
  - unfold filed in Hf. rewrite Forall_forall in Hf. exact (Hf _ Hg).
Qed.

Lemma filed_names (d : dict PreparedNode) :
  filed d -> map pn_name (dict_values d) = dict_keys d.
Proof.
  unfold filed, dict_values, dict_keys. induction 1 as [|[k v] d Hh _ IH]; simpl;
    [reflexivity | simpl in Hh; now rewrite Hh, IH].
Qed.

Lemma filed_known (d : dict PreparedNode) (k : string) :
  filed d ->
  isin (map pn_name (dict_values d)) k
  = match dict_get k d with Some _ => true | None => false end.
Proof.
  intros Hf. rewrite (filed_names d Hf).
  destruct (dict_get k d) as [v|] eqn:Hg.
  - apply isin_In, dict_get_keys. now exists v.
  - destruct (isin (dict_keys d) k) eqn:E; [|reflexivity].
    apply isin_In, dict_get_keys in E as [v Hv]. congruence.
Qed.

Section Prepared.

Variable spring_layout : list (string * string * float) -> Position.
Variable set_order : list string -> list string.

Lemma prepare_node_name (cols : list string) (nl : NodeList)
    (np : option NodeParams) (pos : option Position) (idx : Z) (name : string)
    (n : PreparedNode) :
  prepare_node cols nl np pos idx name = Ok n -> pn_name n = name.
Proof.
  unfold prepare_node.
  match goal with
  | |- context [fold_left ?f cols ?a] => destruct (fold_left f cols a) as [degree|e]
  end; simpl; [|discriminate].
  destruct (filter _ (map snd (nrows nl))) as [|r rest]; simpl; [discriminate|].
  intros H. inversion H. reflexivity.
Qed.

Lemma prepare_nodes_loop_filed (cols : list string) (nl : NodeList)
    (np : option NodeParams) (pos : option Position) (names : list string) :
  forall (idx : Z) (acc nodes_set : dict PreparedNode),
    filed acc ->
    prepare_nodes_loop cols nl np pos idx names acc = Ok nodes_set ->
    filed nodes_set.
Proof.
  induction names as [|name names IH]; intros idx acc nodes_set Hacc; simpl.
  - intros H. inversion H. now subst.
  - destruct (prepare_node cols nl np pos idx name) as [n|e] eqn:Hn; simpl;
      [|discriminate].
    apply IH. apply dict_set_filed; [|exact Hacc].
    exact (prepare_node_name cols nl np pos idx name n Hn).
Qed.

Lemma prepare_nodes_filed (rt : ReteExplorer) (nl : NodeList)
    (np : option NodeParams) (pos : option Position)
    (nodes : list PreparedNode) (nodes_set : dict PreparedNode) :
  _prepare_nodes set_order rt nl np pos = Ok (nodes, nodes_set) ->
  filed nodes_set /\ nodes = dict_values nodes_set.
Proof.
  unfold _prepare_nodes.
  destruct (prepare_nodes_loop _ nl np pos 0 _ []) as [ns|e] eqn:Hloop; simpl;
    [|discriminate].
  intros H. inversion H. subst. split; [|reflexivity].
  apply (prepare_nodes_loop_filed _ _ _ _ _ _ _ _ (Forall_nil _) Hloop).
Qed.

(** One edge row gives its link when both endpoints are prepared nodes,
    and nothing otherwise. *)
Lemma prepare_edge_resolves (default_col weight_col : string)
    (custom_cols : list string) (el : EdgeList) (nodes_set : dict PreparedNode)
    (row : EdgeRow) (ls : list PreparedLink) :
  filed nodes_set ->
  prepare_edge default_col weight_col custom_cols el nodes_set row = Ok ls ->
  Forall2 (resolves (dict_values nodes_set))
          (filter (both_known (dict_values nodes_set)) [(er_source row, er_target row)])
          ls.
Proof.
  intros Hf. unfold prepare_edge.
  match goal with
  | |- context [fold_left ?f custom_cols ?a] =>
      destruct (fold_left f custom_cols a) as [ws|e]
  end; simpl; [|discriminate].
  unfold both_known. simpl fst. simpl snd.
  rewrite !(filed_known nodes_set _ Hf).
  destruct (dict_get (er_source row) nodes_set) as [s|] eqn:Hs;
    [destruct (dict_get (er_target row) nodes_set) as [t|] eqn:Ht|].
  - destruct (er_type row); [|discriminate].
    intros H. inversion H. simpl. constructor; [|constructor].
    destruct (filed_get nodes_set _ s Hf Hs) as [Hsin Hsn].
    destruct (filed_get nodes_set _ t Hf Ht) as [Htin Htn].
    exists s, t. simpl. repeat split; assumption.
  - intros H. inversion H. simpl. constructor.
  - intros H. inversion H. simpl. constructor.
Qed.

Lemma prepare_edges_rows (default_col weight_col : string)
    (custom_cols : list string) (el : EdgeList) (nodes_set : dict PreparedNode)
    (rows : list EdgeRow) (edges : list (list PreparedLink)) :
  filed nodes_set ->
  mapM (prepare_edge default_col weight_col custom_cols el nodes_set) rows = Ok edges ->
  Forall2 (resolves (dict_values nodes_set))
          (filter (both_known (dict_values nodes_set))
                  (map (fun r => (er_source r, er_target r)) rows))
          (List.concat edges).
Proof.
  intros Hf. revert edges. induction rows as [|row rows IH]; intros edges; simpl mapM.
  - intros H. inversion H. constructor.
  - destruct (prepare_edge _ _ _ el nodes_set row) as [ls|e] eqn:Hrow; cbn [bind];
      [|discriminate].
    destruct (mapM _ rows) as [rest|e]; cbn [bind]; [|discriminate].
    intros H. inversion H. subst edges.
    change (map (fun r => (er_source r, er_target r)) (row :: rows))
      with ([(er_source row, er_target row)]
            ++ map (fun r => (er_source r, er_target r)) rows)%list.
    rewrite filter_app. simpl List.concat.
    apply Forall2_app; [|now apply IH].
    exact (prepare_edge_resolves _ _ _ el nodes_set row ls Hf Hrow).
Qed.

Lemma edge_pairs_set_column (col : string) (f : EdgeRow -> float) (el : EdgeList) :
  edge_pairs (set_edge_column col f el) = edge_pairs el.
Proof.
  unfold edge_pairs, set_edge_column. simpl. rewrite map_map. reflexivity.
Qed.

Lemma edge_pairs_set_type (f : EdgeRow -> string) (el : EdgeList) :
  edge_pairs {| ecolumns := ecolumns el;
                erows := map (fun r => set_type (f r) r) (erows el) |}
  = edge_pairs el.
Proof.
  unfold edge_pairs. simpl. rewrite map_map. reflexivity.
Qed.

(** [_prepare_edges] returns the links of the rows it keeps and the frame
    with its [weight_norm] column. *)
Lemma prepare_edges_resolved (rt : ReteExplorer) (el el' : EdgeList)
    (nodes_set : dict PreparedNode) (links : list PreparedLink) :
  filed nodes_set ->
  _prepare_edges rt el nodes_set = (Ok links, el') ->
  edges_resolved (dict_values nodes_set) links el
  /\ exists weight_col scale,
       el' = set_edge_column "weight_norm"
               (fun r => np_div (cell weight_col (er_values r)) scale) el.
Proof.
  intros Hf. unfold _prepare_edges.
  destruct (ecolumns el) as [|weight_col rest] eqn:Hcols; [discriminate|].
  destruct (mapM _ _) as [edges|e] eqn:Hm; simpl; [|discriminate].
  intros H. inversion H. subst. split.
  - unfold edges_resolved.
    rewrite <- (edge_pairs_set_column "weight_norm"
                  (fun r => np_div (cell weight_col (er_values r))
                                   (series_abs_max
                                      (map (fun r => cell weight_col (er_values r))
                                           (erows el)))) el).
    exact (prepare_edges_rows _ _ _ _ nodes_set _ edges Hf Hm).
  - eexists. eexists. reflexivity.
Qed.

End Prepared.

Lemma resolved_indices (nodes : list PreparedNode) (links : list PreparedLink)
    (el : EdgeList) :
  edges_resolved nodes links el ->
  forall link, In link links ->
    (exists s, In s nodes /\ pn_index s = sourceIndex link)
    /\ (exists t, In t nodes /\ pn_index t = targetIndex link).
Proof.
  unfold edges_resolved. induction 1 as [|p l ps ls Hr _ IH]; intros link Hin.
  - contradiction.
  - destruct Hin as [<- | Hin]; [|now apply IH].
    destruct Hr as [s [t [Hs [Ht [_ [_ [Hsi Hti]]]]]]].
    split; [exists s | exists t]; split; congruence.
Qed.

(** What a request that returns has done. *)
Lemma recalc_request_returns (set_order : list string -> list string)
    (edits : list PreparedNode) (self self' : ReteGraph) (payload : Payload) :
  _on_recalc_request set_order edits self = (Ok payload, self') ->
  exists self1 nodes_set,
    _recalculate (_on_nodelist_updated edits (set_updates edits self)) = (Ok tt, self1)
    /\ _prepare_nodes set_order (rete self1) (nodelist self1) None None
       = Ok (nodes payload, nodes_set)
    /\ _prepare_edges (rete self1) (set_type_column "suit" (edgelist self1)) nodes_set
       = (Ok (links payload), edgelist self').
Proof.
  unfold _on_recalc_request.
  destruct (_recalculate _) as [[[]|e] self1] eqn:Hrun; [|discriminate].
  destruct (_prepare_nodes set_order (rete _) (nodelist _) None None)
    as [[ns nodes_set]|e] eqn:Hnodes; [|discriminate].
  destruct (_prepare_edges _ _ nodes_set) as [r el] eqn:Hedges.
  simpl in Hnodes, Hedges.
  destruct r as [ls|e]; [|discriminate].
  intros H. inversion H. subst. exists self1, nodes_set. simpl. auto.
Qed.

(** C9. In the payload of a recalculation request, and in the nodes and
    links of the template data, the source and target index of every link
    are indices of node records of the same payload; the links are, in
    order, those of the edges whose source and target are both names of
    nodes of the payload, so that an edge with an endpoint outside the
    node set has no link. *)
Theorem edge_drop_invariant
    (spring_layout : list (string * string * float) -> Position)
    (set_order : list string -> list string) :
  (forall edits self payload self',
     _on_recalc_request set_order edits self = (Ok payload, self') ->
     (forall link, In link (links payload) ->
        (exists s, In s (nodes payload) /\ pn_index s = sourceIndex link)
        /\ (exists t, In t (nodes payload) /\ pn_index t = targetIndex link))
     /\ edges_resolved (nodes payload) (links payload) (edgelist self'))
  /\ (forall self node_params width height nodes links,
        _make_template_data spring_layout set_order self node_params width height
        = Ok (nodes, links) ->
        (forall link, In link links ->
           (exists s, In s nodes /\ pn_index s = sourceIndex link)
           /\ (exists t, In t nodes /\ pn_index t = targetIndex link))
        /\ edges_resolved nodes links (edgelist self)).
Proof.
  split.
  - intros edits self payload self' Hreq.
    destruct (recalc_request_returns set_order edits self self' payload Hreq)
      as [self1 [nodes_set [_ [Hnodes Hedges]]]].
    destruct (prepare_nodes_filed set_order _ _ _ _ _ _ Hnodes) as [Hf Hvals].
    destruct (prepare_edges_resolved _ _ _ _ _ Hf Hedges)
      as [Hres [weight_col [scale Hel]]].
    rewrite <- Hvals in Hres.
    assert (Hres' : edges_resolved (nodes payload) (links payload) (edgelist self')).
    { unfold edges_resolved in *. rewrite Hel, edge_pairs_set_column. exact Hres. }
    split; [|exact Hres'].
    exact (resolved_indices _ _ _ Hres').
  - intros self node_params width height nodes links.
    unfold _make_template_data.
    destruct (_calc_layout _ _ _ _) as [computed|e]; simpl; [|discriminate].
    destruct (_use_layout self computed) as [pos|e]; simpl; [|discriminate].
    destruct (_prepare_nodes _ _ _ _ _) as [[ns nodes_set]|e] eqn:Hnodes; simpl;
      [|discriminate].
    destruct (_prepare_edges _ _ nodes_set) as [r el] eqn:Hedges. simpl.
    destruct r as [ls|e]; simpl; [|discriminate].
    intros H. inversion H. subst ns ls. clear H.
    destruct (prepare_nodes_filed set_order _ _ _ _ _ _ Hnodes) as [Hf Hvals].
    destruct (prepare_edges_resolved _ _ _ _ _ Hf Hedges) as [Hres _].
    rewrite <- Hvals in Hres.
    assert (Hres' : edges_resolved nodes links (edgelist self)).
    { unfold edges_resolved in *. rewrite edge_pairs_set_type in Hres. exact Hres. }
    split; [|exact Hres'].
    exact (resolved_indices _ _ _ Hres').
Qed.

(** C9 on two runs: a request on the session whose node B is grouped
    under G, not a node (the edges A -> G and G -> A have no link), and
    the template data of the chain session. *)
Lemma edge_drop_invariant_witness :
  (exists payload self',
     _on_recalc_request first_seen [] orphan_session = (Ok payload, self')
     /\ (forall link, In link (links payload) ->
           (exists s, In s (nodes payload) /\ pn_index s = sourceIndex link)
           /\ (exists t, In t (nodes payload) /\ pn_index t = targetIndex link))
     /\ edges_resolved (nodes payload) (links payload) (edgelist self'))
  /\ (exists nodes links,
        _make_template_data sample_layout first_seen chain_session
          [("A", "source")] 960 900 = Ok (nodes, links)
        /\ (forall link, In link links ->
              (exists s, In s nodes /\ pn_index s = sourceIndex link)
              /\ (exists t, In t nodes /\ pn_index t = targetIndex link))
        /\ edges_resolved nodes links (edgelist chain_session)).
Proof.
  destruct (edge_drop_invariant sample_layout first_seen) as [Hrequest Htemplate].
  split.
  - destruct (_on_recalc_request first_seen [] orphan_session) as [r s] eqn:E.
    destruct r as [p|e]; [|vm_compute in E; discriminate].
    exists p, s. split; [reflexivity|].
    exact (Hrequest [] orphan_session p s E).
  - destruct (_make_template_data sample_layout first_seen chain_session
                [("A", "source")] 960 900) as [[ns ls]|e] eqn:E;
      [|vm_compute in E; discriminate].
    exists ns, ls. split; [reflexivity|].
    exact (Htemplate chain_session [("A", "source")] 960 900 ns ls E).
Defined.



(** ** Floats *)

Lemma Qltb_lt (a b : Q) : Qltb a b = true <-> (a < b)%Q.
Proof.
  unfold Qltb. rewrite negb_true_iff. split.
  - intros H. apply Qnot_le_lt. intros Hle. apply Qle_bool_iff in Hle. congruence.
  - intros H. destruct (Qle_bool b a) eqn:E; [|reflexivity].
    apply Qle_bool_iff in E. exfalso. exact (Qlt_not_le _ _ H E).
Qed.

Lemma Qltb_ge (a b : Q) : Qltb a b = false <-> (b <= a)%Q.
Proof.
  unfold Qltb. rewrite negb_false_iff. apply Qle_bool_iff.
Qed.

Lemma Qeq_bool_false (a b : Q) : Qeq_bool a b = false <-> ~ (a == b)%Q.
Proof.
  split.
  - intros H Heq. apply Qeq_bool_iff in Heq. congruence.
  - intros H. destruct (Qeq_bool a b) eqn:E; [|reflexivity].
    apply Qeq_bool_iff in E. contradiction.
Qed.

(** The larger and the smaller of a list of rationals, as the loops of
    [max] and [min] find them. *)
Lemma fold_max_spec (qs : list Q) (m : Q) :
  let r := fold_left (fun m y => if Qltb m y then y else m) qs m in
  (r = m \/ In r qs) /\ (m <= r)%Q /\ (forall q, In q qs -> (q <= r)%Q).
Proof.
  revert m. induction qs as [|y qs IH]; intros m; simpl.
  - split; [now left|]. split; [apply Qle_refl | intros q []].
  - destruct (IH (if Qltb m y then y else m)) as [Hin [Hle Hall]].
    destruct (Qltb m y) eqn:E.
    + apply Qltb_lt in E. split; [|split].
      * right. destruct Hin as [-> | Hin]; [now left | now right].
      * apply Qle_trans with y; [now apply Qlt_le_weak | exact Hle].
      * intros q [<- | Hq]; [exact Hle | now apply Hall].
    + apply Qltb_ge in E. split; [|split].
      * destruct Hin as [-> | Hin]; [now left | right; now right].
      * exact Hle.
      * intros q [<- | Hq]; [now apply Qle_trans with m | now apply Hall].
Qed.

Lemma fold_min_spec (qs : list Q) (m : Q) :
  let r := fold_left (fun m y => if Qltb y m then y else m) qs m in
  (r = m \/ In r qs) /\ (r <= m)%Q /\ (forall q, In q qs -> (r <= q)%Q).
Proof.
  revert m. induction qs as [|y qs IH]; intros m; simpl.
  - split; [now left|]. split; [apply Qle_refl | intros q []].
  - destruct (IH (if Qltb y m then y else m)) as [Hin [Hle Hall]].
    destruct (Qltb y m) eqn:E.
    + apply Qltb_lt in E. split; [|split].
      * right. destruct Hin as [-> | Hin]; [now left | now right].
      * apply Qle_trans with y; [exact Hle | now apply Qlt_le_weak].
      * intros q [<- | Hq]; [exact Hle | now apply Hall].
    + apply Qltb_ge in E. split; [|split].
      * destruct Hin as [-> | Hin]; [now left | right; now right].
      * exact Hle.
      * intros q [<- | Hq]; [now apply Qle_trans with m | now apply Hall].
Qed.

Lemma fold_py_max_finite (qs : list Q) (m : Q) :
  fold_left (fun m y => if ltb m y then y else m) (map Fin qs) (Fin m)
  = Fin (fold_left (fun m y => if Qltb m y then y else m) qs m).
Proof.
  revert m. induction qs as [|y qs IH]; intros m; simpl; [reflexivity|].
  destruct (Qltb m y); apply IH.
Qed.

Lemma fold_py_min_finite (qs : list Q) (m : Q) :
  fold_left (fun m y => if ltb y m then y else m) (map Fin qs) (Fin m)
  = Fin (fold_left (fun m y => if Qltb y m then y else m) qs m).
Proof.
  revert m. induction qs as [|y qs IH]; intros m; simpl; [reflexivity|].
  destruct (Qltb y m); apply IH.
Qed.

(** [min] and [max] of finite floats: an element of the list below
    (above) every element. *)
Lemma py_min_finite (qs : list Q) :
  qs <> [] ->
  exists a, py_min (map Fin qs) = Ok (Fin a)
            /\ In a qs /\ forall q, In q qs -> (a <= q)%Q.
Proof.
  destruct qs as [|q0 qs]; [congruence|]. intros _. simpl.
  rewrite fold_py_min_finite.
  destruct (fold_min_spec qs q0) as [Hin [Hle Hall]].
  eexists. split; [reflexivity|]. split.
  - destruct Hin as [-> | Hin]; [now left | now right].
  - intros q [<- | Hq]; [exact Hle | now apply Hall].
Qed.

Lemma py_max_finite (qs : list Q) :
  qs <> [] ->
  exists b, py_max (map Fin qs) = Ok (Fin b)
            /\ In b qs /\ forall q, In q qs -> (q <= b)%Q.
Proof.
  destruct qs as [|q0 qs]; [congruence|]. intros _. simpl.
  rewrite fold_py_max_finite.
  destruct (fold_max_spec qs q0) as [Hin [Hle Hall]].
  eexists. split; [reflexivity|]. split.
  - destruct Hin as [-> | Hin]; [now left | now right].
  - intros q [<- | Hq]; [exact Hle | now apply Hall].
Qed.

Lemma fold_series_max_finite (qs : list Q) (m : Q) :
  fold_left (fun m y => if is_nan y then m
                        else if is_nan m then y
                        else if ltb m y then y else m) (map Fin qs) (Fin m)
  = Fin (fold_left (fun m y => if Qltb m y then y else m) qs m).
Proof.
  revert m. induction qs as [|y qs IH]; intros m; simpl; [reflexivity|].
  destruct (Qltb m y); apply IH.
Qed.

(** The [max()] of a column of finite cells, not empty: a cell of the
    column above every cell. *)
Lemma series_max_finite (qs : list Q) :
  qs <> [] ->
  exists m, series_max (map Fin qs) = Fin m
            /\ In m qs /\ forall q, In q qs -> (q <= m)%Q.
Proof.
  destruct qs as [|q0 qs]; [congruence|]. intros _. unfold series_max. simpl.
  rewrite fold_series_max_finite.
  destruct (fold_max_spec qs q0) as [Hin [Hle Hall]].
  eexists. split; [reflexivity|]. split.
  - destruct Hin as [-> | Hin]; [now left | now right].
  - intros q [<- | Hq]; [exact Hle | now apply Hall].
Qed.

Lemma series_abs_max_finite (qs : list Q) :
  qs <> [] ->
  exists m, series_abs_max (map Fin qs) = Fin m
            /\ (exists q, In q qs /\ m = Qabs q)
            /\ forall q, In q qs -> (Qabs q <= m)%Q.
Proof.
  intros Hne. unfold series_abs_max. rewrite map_map.
  change (map (fun x => abs (Fin x)) qs) with (map (fun x => Fin (Qabs x)) qs).
  rewrite <- (map_map Qabs Fin).
  destruct (series_max_finite (map Qabs qs)) as [m [Hm [Hin Hall]]].
  { destruct qs; [congruence | discriminate]. }
  exists m. split; [exact Hm|]. split.
  - apply in_map_iff in Hin as [q [Hq Hin]]. exists q. split; [assumption | now symmetry].
  - intros q Hq. apply Hall. now apply in_map.
Qed.

(** ** Layout *)


Lemma finite_to_Q (x : float) : is_finite x = true -> x = Fin (to_Q x).
Proof. destruct x; simpl; intros H; congruence. Qed.

Lemma finite_coords (pos : Position) :
  forallb finite_position pos = true ->
  coords_x pos = map Fin (map to_Q (coords_x pos))
  /\ coords_y pos = map Fin (map to_Q (coords_y pos)).
Proof.
  unfold coords_x, coords_y. induction pos as [|[n [x y]] pos IH]; simpl.
  - intros _. split; reflexivity.
  - unfold finite_position at 1. simpl. rewrite !andb_true_iff.
    intros [[Hx Hy] Hrest]. destruct (IH Hrest) as [IHx IHy].
    rewrite <- IHx, <- IHy, <- (finite_to_Q x Hx), <- (finite_to_Q y Hy).
    split; reflexivity.
Qed.

(** The bounds of a box of finite coordinates that is not degenerate. *)
Lemma box_spread_bounds (vs : list float) :
  vs = map Fin (map to_Q vs) -> box_spread vs = true ->
  exists a b,
    py_min vs = Ok (Fin a) /\ py_max vs = Ok (Fin b) /\ (a < b)%Q
    /\ forall v, In v vs -> (a <= to_Q v)%Q /\ (to_Q v <= b)%Q.
Proof.
  intros Hfin Hspread.
  assert (Hne : map to_Q vs <> []).
  { destruct vs; [discriminate Hspread | discriminate]. }
  destruct (py_min_finite (map to_Q vs) Hne) as [a [Hmin [_ Ha]]].
  destruct (py_max_finite (map to_Q vs) Hne) as [b [Hmax [_ Hb]]].
  rewrite <- Hfin in Hmin, Hmax.
  exists a, b. unfold box_spread in Hspread. rewrite Hmin, Hmax in Hspread.
  simpl in Hspread. apply Qltb_lt in Hspread.
  repeat split; try assumption.
  - apply Ha. now apply in_map.
  - apply Hb. now apply in_map.
Qed.


Lemma filter_find_unique {A : Type} (key : A -> string) (l : list A) (k : string) :
  NoDup (map key l) ->
  filter (fun y => String.eqb (key y) k) l
  = match find (fun y => String.eqb (key y) k) l with
    | Some m => [m]
    | None => []
    end.
Proof.
  induction l as [|a l IH]; simpl; intros Hnd; [reflexivity|].
  inversion Hnd as [|? ? Hnotin Hnd']; subst.
  destruct (String.eqb_spec (key a) k) as [Heq|Hne].
  - f_equal. apply filter_no_key. now rewrite <- Heq.
  - now apply IH.
Qed.

(** The loop of [_use_layout] under single overrides: a key of the loop
    with a stored position gets it, every other entry stays. *)
Lemma overlay_loop (stored : list LayoutNode) (keys : list string) :
  NoDup (map ln_name stored) ->
  forall pos0, exists pos,
    fold_left (overlay stored) keys (Ok pos0) = Ok pos
    /\ (forall n, In n keys ->
          dict_get n pos
          = match find (fun m => String.eqb (ln_name m) n) stored with
            | Some m => Some (ln_x m, ln_y m)
            | None => dict_get n pos0
            end)
    /\ (forall n, ~ In n keys -> dict_get n pos = dict_get n pos0).
Proof.
  intros Hnd. induction keys as [|k keys IH]; intros pos0.
  - exists pos0. split; [reflexivity | split; [intros n [] | reflexivity]].
  - cbn [fold_left]. unfold overlay at 2. cbn [bind].
    rewrite (filter_find_unique ln_name stored k Hnd).
    destruct (find (fun m => String.eqb (ln_name m) k) stored) as [m|] eqn:Hfind.
    + destruct (IH (dict_set k (ln_x m, ln_y m) pos0)) as [pos [Hfold [Hin Hout]]].
      exists pos. split; [exact Hfold|]. split.
      * intros n Hn. destruct (in_dec string_dec n keys) as [Hi|Hni].
        -- rewrite (Hin n Hi).
           destruct (find (fun m0 => String.eqb (ln_name m0) n) stored) eqn:Hfn;
             [reflexivity|].
           destruct (string_dec n k) as [->|Hne]; [congruence|].
           now apply dict_get_set_other.
        -- destruct Hn as [<- | Hn]; [|contradiction].
           rewrite (Hout k Hni), Hfind. apply dict_get_set_same.
      * intros n Hn. rewrite Hout by (intros H; apply Hn; now right).
        apply dict_get_set_other. intros ->. apply Hn. now left.
    + destruct (IH pos0) as [pos [Hfold [Hin Hout]]].
      exists pos. split; [exact Hfold|]. split.
      * intros n Hn. destruct (in_dec string_dec n keys) as [Hi|Hni].
        -- exact (Hin n Hi).
        -- destruct Hn as [<- | Hn]; [|contradiction].
           rewrite (Hout k Hni), Hfind. reflexivity.
      * intros n Hn. apply Hout. intros H. apply Hn. now right.
Qed.

Lemma use_layout_overrides (self : ReteGraph) (computed : Position) :
  single_overrides self ->
  exists pos,
    _use_layout self computed = Ok pos
    /\ forall n, In n (dict_keys computed) ->
         dict_get n pos
         = match stored_position self n with
           | Some m => Some (ln_x m, ln_y m)
           | None => dict_get n computed
           end.
Proof.
  unfold single_overrides, _use_layout, stored_position.
  destruct (layout self) as [stored|]; intros Hnd.
  - destruct (overlay_loop stored (dict_keys computed) Hnd computed)
      as [pos [Hfold [Hin _]]].
    exists pos. split; assumption.
  - exists computed. split; [reflexivity | intros; reflexivity].
Qed.

(** The overlay keeps the keys, and every node of [_prepare_nodes] was
    made by [prepare_node]. *)
Lemma dict_set_keys {V : Type} (k : string) (v : V) (d : dict V) :
  In k (dict_keys d) -> dict_keys (dict_set k v d) = dict_keys d.
Proof.
  unfold dict_keys. induction d as [|[k' v'] d IH]; simpl; [contradiction|].
  destruct (String.eqb_spec k' k) as [->|Hne]; [reflexivity|].
  intros [H|H]; [congruence|]. simpl. now rewrite IH.
Qed.

Lemma overlay_raised (stored : list LayoutNode) (keys : list string) (e : exn) :
  fold_left (overlay stored) keys (Raise e) = Raise e.
Proof. induction keys as [|k keys IH]; simpl; [reflexivity | exact IH]. Qed.

Lemma overlay_keys (stored : list LayoutNode) (keys : list string) :
  forall position pos,
    (forall k, In k keys -> In k (dict_keys position)) ->
    fold_left (overlay stored) keys (Ok position) = Ok pos ->
    dict_keys pos = dict_keys position.
Proof.
  induction keys as [|k keys IH]; intros position pos Hsub; simpl.
  - intros H. now inversion H.
  - destruct (filter (fun l => String.eqb (ln_name l) k) stored) as [|m [|m' rest]].
    + apply IH. intros k' Hk'. apply Hsub. now right.
    + intros H.
      assert (Hk : In k (dict_keys position)) by (apply Hsub; now left).
      rewrite (IH _ _ (fun k' Hk' =>
                         eq_ind_r (fun ks => In k' ks) (Hsub k' (or_intror Hk'))
                                  (dict_set_keys k (ln_x m, ln_y m) position Hk)) H).
      now apply dict_set_keys.
    + rewrite overlay_raised. discriminate.
Qed.

Lemma dict_set_Forall {V : Type} (P : string * V -> Prop) (k : string) (v : V)
    (d : dict V) :
  P (k, v) -> Forall P d -> Forall P (dict_set k v d).
Proof.
  intros Hkv. induction d as [|[k' v'] d IH]; simpl; intros H.
  - constructor; [exact Hkv | constructor].
  - inversion H as [|x l Hh Ht Hx]. clear H Hx.
    destruct (String.eqb_spec k' k) as [->|Hne]; constructor; auto.
Qed.

Lemma prepare_nodes_loop_made (cols : list string) (nl : NodeList)
    (np : option NodeParams) (pos : option Position) (names : list string) :
  forall (idx : Z) (acc nodes_set : dict PreparedNode),
    prepared_from cols nl np pos acc ->
    prepare_nodes_loop cols nl np pos idx names acc = Ok nodes_set ->
    prepared_from cols nl np pos nodes_set.
Proof.
  induction names as [|name names IH]; intros idx acc nodes_set Hacc; simpl.
  - intros H. inversion H. now subst.
  - destruct (prepare_node cols nl np pos idx name) as [n|e] eqn:Hn; simpl;
      [|discriminate].
    apply IH. apply dict_set_Forall; [|exact Hacc]. exists idx. exact Hn.
Qed.

Lemma prepare_nodes_made (set_order : list string -> list string)
    (rt : ReteExplorer) (nl : NodeList) (np : option NodeParams)
    (pos : option Position) (nodes : list PreparedNode)
    (nodes_set : dict PreparedNode) :
  _prepare_nodes set_order rt nl np pos = Ok (nodes, nodes_set) ->
  forall n, In n nodes ->
    exists idx name, prepare_node (get_nodelist_cols rt) nl np pos idx name = Ok n.
Proof.
  unfold _prepare_nodes.
  destruct (prepare_nodes_loop _ nl np pos 0 _ []) as [ns|e] eqn:Hloop; simpl;
    [|discriminate].
  intros H. inversion H. subst nodes nodes_set. clear H.
  pose proof (prepare_nodes_loop_made _ nl np pos _ 0 [] ns (Forall_nil _) Hloop) as Hm.
  intros n Hn. unfold dict_values in Hn. apply in_map_iff in Hn as [[k v] [Hv Hin]].
  unfold prepared_from in Hm. rewrite Forall_forall in Hm.
  destruct (Hm _ Hin) as [idx Hidx]. simpl in Hv, Hidx. subst v.
  now exists idx, k.
Qed.














(** ** Normalization *)

Lemma np_div_finite (q m : Q) :
  Qeq_bool m 0 = false -> np_div (Fin q) (Fin m) = Fin (q / m).
Proof. intros H. unfold np_div. now rewrite H. Qed.

(** Dividing the cells of a finite column by its maximum magnitude, when
    that is not zero, gives values of magnitude at most 1, and magnitude
    1 for a cell of maximum magnitude. *)
Lemma normalized_bound (qs : list Q) :
  qs <> [] ->
  is_zero (series_abs_max (map Fin qs)) = false ->
  (forall q, In q qs -> abs_le_one (np_div (Fin q) (series_abs_max (map Fin qs))))
  /\ exists q, In q qs
               /\ feq (abs (np_div (Fin q) (series_abs_max (map Fin qs)))) (Fin 1).
Proof.
  intros Hne Hnz.
  destruct (series_abs_max_finite qs Hne) as [m [Hm [[q0 [Hq0 Hmq]] Hall]]].
  rewrite Hm in *. simpl in Hnz.
  assert (Hm0 : ~ (m == 0)%Q) by (now apply Qeq_bool_false).
  assert (Hmpos : (0 < m)%Q).
  { pose proof (Qabs_nonneg q0) as H0. rewrite <- Hmq in H0.
    destruct (Qlt_le_dec 0 m) as [Hlt|Hle]; [exact Hlt|].
    exfalso. apply Hm0. now apply Qle_antisym. }
  assert (Hdiv : forall q, (Qabs (q / m) == Qabs q / m)%Q).
  { intros q. unfold Qdiv. rewrite Qabs_Qmult, Qabs_Qinv.
    rewrite (Qabs_pos m) by (now apply Qlt_le_weak). reflexivity. }
  split.
  - intros q Hq. rewrite (np_div_finite q m Hnz). unfold abs_le_one.
    rewrite (Hdiv q).
    apply Qle_shift_div_r; [exact Hmpos|]. rewrite Qmult_1_l. now apply Hall.
  - exists q0. split; [exact Hq0|]. rewrite (np_div_finite q0 m Hnz).
    unfold abs, feq. rewrite (Hdiv q0), <- Hmq. unfold Qdiv. now apply Qmult_inv_r.
Qed.

(** The [weight_norm] column that [_prepare_edges] writes, for a weight
    column of finite cells whose maximum magnitude is not zero: every
    cell has magnitude at most 1. *)
Lemma weight_norm_bound (rt : ReteExplorer) (el el' : EdgeList)
    (nodes_set : dict PreparedNode) (r : result (list PreparedLink))
    (weight_col : string) (rest : list string) (qs : list Q) :
  ecolumns el = weight_col :: rest ->
  map (fun row => cell weight_col (er_values row)) (erows el) = map Fin qs ->
  is_zero (series_abs_max (map Fin qs)) = false ->
  _prepare_edges rt el nodes_set = (r, el') ->
  forall row, In row (erows el') -> abs_le_one (cell "weight_norm" (er_values row)).
Proof.
  intros Hcols Hcells Hnz. unfold _prepare_edges. rewrite Hcols, Hcells.
  intros H. inversion H. subst. clear H.
  intros row Hrow. simpl in Hrow. apply in_map_iff in Hrow as [row0 [<- Hrow0]].
  unfold cell at 1. simpl. rewrite dict_get_set_same.
  assert (Hin : In (cell weight_col (er_values row0)) (map Fin qs)).
  { rewrite <- Hcells.
    apply (in_map (fun row => cell weight_col (er_values row))). exact Hrow0. }
  apply in_map_iff in Hin as [q [Hq Hqin]]. rewrite <- Hq.
  assert (Hne : qs <> []) by (destruct qs; [contradiction | discriminate]).
  exact (proj1 (normalized_bound qs Hne Hnz) q Hqin).
Qed.

(** The ratio of [_prepare_nodes], for a finite column without negative
    cells whose maximum is not zero: at most 1. *)
Lemma node_ratio_bound_nonneg (qs : list Q) :
  (forall q, In q qs -> (0 <= q)%Q) ->
  is_zero (series_max (map Fin qs)) = false ->
  forall q, In q qs ->
    abs_le_one (np_div (abs (Fin q)) (abs (series_max (map Fin qs)))).
Proof.
  intros Hpos Hnz q Hq.
  assert (Hne : qs <> []) by (destruct qs; [contradiction | discriminate]).
  destruct (series_max_finite qs Hne) as [m [Hm [Hin Hall]]].
  rewrite Hm in *. simpl in Hnz. simpl abs.
  pose proof (Hpos m Hin) as Hm0. pose proof (Hpos q Hq) as Hq0.
  assert (Hmnz : ~ (m == 0)%Q) by (now apply Qeq_bool_false).
  assert (Hmpos : (0 < m)%Q).
  { destruct (Qlt_le_dec 0 m) as [Hlt|Hle]; [exact Hlt|].
    exfalso. apply Hmnz. now apply Qle_antisym. }
  assert (Hanz : Qeq_bool (Qabs m) 0 = false).
  { apply Qeq_bool_false. rewrite (Qabs_pos m Hm0). exact Hmnz. }
  rewrite (np_div_finite (Qabs q) (Qabs m) Hanz). unfold abs_le_one.
  rewrite (Qabs_pos m Hm0), (Qabs_pos q Hq0).
  assert (Hdiv : (0 <= q / m)%Q).
  { apply Qle_shift_div_l; [exact Hmpos | lra]. }
  rewrite (Qabs_pos _ Hdiv).
  apply Qle_shift_div_r; [exact Hmpos|]. rewrite Qmult_1_l. now apply Hall.
Qed.

(** C4, on the node list whose metric [delta] is -10 for A and 1 for B.
    The maximum magnitude of the metric is 10, not zero; [_prepare_nodes]
    divides by the magnitude of the signed maximum, 1, so that the ratio
    of A is 10, above 1, and its degree 10 * 30 + 4 = 304. *)
Theorem node_degree_exceeds_one :
  node_column "delta" (nodelist signed_session) = Ok [of_Z (-10); of_Z 1]
  /\ series_abs_max [of_Z (-10); of_Z 1] = of_Z 10
  /\ np_div (abs (of_Z (-10))) (abs (series_max [of_Z (-10); of_Z 1])) = of_Z 10
  /\ ~ abs_le_one (of_Z 10)
  /\ exists nodes nodes_set node_A,
       _prepare_nodes first_seen (rete signed_session) (nodelist signed_session)
                      None None = Ok (nodes, nodes_set)
       /\ dict_get "A" nodes_set = Some node_A
       /\ dict_get "delta" (pn_degree node_A)
          = Some {| dg_degree := of_Z 304; dg_source := of_Z (-10) |}.
Proof.
  split; [reflexivity|]. split; [reflexivity|]. split; [reflexivity|]. split.
  - simpl. intros H. vm_compute in H. apply H. reflexivity.
  - do 3 eexists. split; [vm_compute; reflexivity|]. split; reflexivity.
Qed.

(** * Further properties of the code *)

(** ** Node edits *)

Lemma set_metrics_fields (degree : dict Degree) (r : NodeRow) :
  let r' := fold_left (fun r cv => set_metric (fst cv) (dg_source (snd cv)) r) degree r in
  nr_event r' = nr_event r /\ nr_active r' = nr_active r
  /\ nr_parent r' = nr_parent r /\ nr_alias r' = nr_alias r
  /\ nr_changed_name r' = nr_changed_name r.
Proof.
  revert r. induction degree as [|cv degree IH]; intros r; simpl.
  - repeat split.
  - destruct (IH (set_metric (fst cv) (dg_source (snd cv)) r)) as [H1 [H2 [H3 [H4 H5]]]].
    repeat split; assumption.
Qed.

Lemma update_found_fields (node : PreparedNode) (r : NodeRow) :
  nr_event (update_found node r) = nr_event r
  /\ nr_active (update_found node r) = pn_active node
  /\ nr_parent (update_found node r) = pn_parent node
  /\ nr_alias (update_found node r) = nr_alias r.
Proof.
  unfold update_found.
  match goal with
  | |- context [fold_left ?f (pn_degree node) ?r0] =>
      destruct (set_metrics_fields (pn_degree node) r0) as [H1 [H2 [H3 [H4 _]]]]
  end.
  repeat split; assumption.
Qed.

Lemma at_label_In (index : Z) (f : NodeRow -> NodeRow) (rows : list (Z * NodeRow))
    (r : NodeRow) :
  In (index, r) rows -> In (index, f r) (at_label index f rows).
Proof.
  intros H. unfold at_label.
  apply (in_map (fun r => if Z.eqb (fst r) index then (fst r, f (snd r)) else r)) in H.
  simpl in H. now rewrite Z.eqb_refl in H.
Qed.

Lemma loc_set_In (label : Z) (row : NodeRow) (rows : list (Z * NodeRow)) :
  In (label, row) (loc_set label row rows).
Proof.
  unfold loc_set. destruct (existsb _ rows) eqn:E.
  - apply existsb_exists in E as [[l r] [Hin Hl]]. simpl in Hl.
    apply (in_map (fun r => if Z.eqb (fst r) label then (label, row) else r)) in Hin.
    simpl in Hin. now rewrite Hl in Hin.
  - apply in_or_app. right. now left.
Qed.

(** What one edit leaves in the node list: a row of the edited name with
    the flag and the parent of the edit. *)
Lemma update_node_lookup (nl : NodeList) (node : PreparedNode) :
  exists l r,
    In (l, r) (nrows (update_node nl node))
    /\ nr_event r = pn_name node
    /\ nr_active r = pn_active node
    /\ nr_parent r = pn_parent node.
Proof.
  unfold update_node.
  destruct (filter (fun r => String.eqb (nr_event (snd r)) (pn_name node)) (nrows nl))
    as [|[index r0] rest] eqn:Hf; simpl.
  - exists (pn_index node), (inserted_row (ncolumns nl) node).
    split; [apply loc_set_In | repeat split].
  - assert (Hin : In (index, r0)
                     (filter (fun r => String.eqb (nr_event (snd r)) (pn_name node))
                             (nrows nl))) by (rewrite Hf; now left).
    apply filter_In in Hin as [Hin Hname]. simpl in Hname. apply String.eqb_eq in Hname.
    destruct (update_found_fields node r0) as [H1 [H2 [H3 _]]].
    exists index, (update_found node r0).
    split; [now apply at_label_In | repeat split; congruence].
Qed.

(** X1. After a batch of node edits the node list has a row named as the
    last edit of the batch, with the [active] flag and the [parent] of
    that edit, whether the node was known or not; the batch is kept in
    [updates]. *)
Theorem nodelist_updated_lookup
    (nodes : list PreparedNode) (node : PreparedNode) (self : ReteGraph) :
  updates (_on_nodelist_updated (nodes ++ [node]) self) = (nodes ++ [node])%list
  /\ exists l r,
       In (l, r) (nrows (nodelist (_on_nodelist_updated (nodes ++ [node]) self)))
       /\ nr_event r = pn_name node
       /\ nr_active r = pn_active node
       /\ nr_parent r = pn_parent node.
Proof.
  split; [reflexivity|].
  unfold _on_nodelist_updated. simpl. rewrite fold_left_app. simpl.
  apply update_node_lookup.
Qed.



Lemma cell_of_columns (g : string -> float) (columns : list string) (c : string) :
  In c columns -> cell c (map (fun key => (key, g key)) columns) = g c.
Proof.
  unfold cell. induction columns as [|c0 columns IH]; simpl; [contradiction|].
  destruct (String.eqb_spec c0 c) as [->|Hne]; [reflexivity|].
  intros [H|H]; [congruence | now apply IH].
Qed.

Lemma no_label (label : Z) (rows : list (Z * NodeRow)) :
  ~ In label (map fst rows) -> existsb (fun r => Z.eqb (fst r) label) rows = false.
Proof.
  intros H. destruct (existsb _ rows) eqn:E; [|reflexivity].
  apply existsb_exists in E as [x [Hin Hl]]. apply Z.eqb_eq in Hl.
  exfalso. apply H. rewrite <- Hl. now apply in_map.
Qed.

Lemma some_label (label : Z) (rows : list (Z * NodeRow)) :
  In label (map fst rows) -> existsb (fun r => Z.eqb (fst r) label) rows = true.
Proof.
  intros H. apply in_map_iff in H as [x [Hl Hin]].
  apply existsb_exists. exists x. split; [exact Hin | now apply Z.eqb_eq].
Qed.

Lemma unknown_name (nl : NodeList) (name : string) :
  ~ In name (node_names nl) ->
  filter (fun r => String.eqb (nr_event (snd r)) name) (nrows nl) = [].
Proof.
  intros H. unfold node_names in H. rewrite map_map in H.
  exact (filter_no_key (Z * NodeRow) (fun r => nr_event (snd r)) (nrows nl) name H).
Qed.

(** X3. An edit for a name that is not in the node list, under an index
    that is no label of it, appends one row and changes nothing else: the
    rows before it and the columns stay, and the new row holds the source
    value of the edit for each column the edit mentions and NaN for
    every other column. *)
Theorem nodelist_updated_insert (node : PreparedNode) (self : ReteGraph) :
  ~ In (pn_name node) (node_names (nodelist self)) ->
  ~ In (pn_index node) (map fst (nrows (nodelist self))) ->
  let nl' := nodelist (_on_nodelist_updated [node] self) in
  ncolumns nl' = ncolumns (nodelist self)
  /\ exists r,
       nrows nl' = (nrows (nodelist self) ++ [(pn_index node, r)])%list
       /\ nr_event r = pn_name node /\ nr_active r = pn_active node
       /\ nr_parent r = pn_parent node /\ nr_alias r = pn_alias node
       /\ forall c, In c (ncolumns (nodelist self)) ->
            cell c (nr_metrics r)
            = match dict_get c (pn_degree node) with
              | Some d => dg_source d
              | None => NaN
              end.
Proof.
  intros Hname Hlabel nl'. subst nl'.
  unfold _on_nodelist_updated. simpl. unfold update_node.
  rewrite (unknown_name _ _ Hname). simpl. split; [reflexivity|].
  unfold loc_set. rewrite (no_label _ _ Hlabel).
  eexists. split; [reflexivity|]. repeat split.
  intros c Hc. simpl.
  exact (cell_of_columns (fun key => match dict_get key (pn_degree node) with
                                     | Some d => dg_source d
                                     | None => NaN
                                     end) _ c Hc).
Qed.

Lemma NoDup_map_injective {A B : Type} (f : A -> B) (l : list A) (x y : A) :
  NoDup (map f l) -> In x l -> In y l -> f x = f y -> x = y.
Proof.
  induction l as [|a l IH]; simpl; intros Hnd Hx Hy Hf; [contradiction|].
  inversion Hnd as [|? ? Hnotin Hnd']; subst.
  destruct Hx as [-> | Hx], Hy as [-> | Hy].
  - reflexivity.
  - exfalso. apply Hnotin. rewrite Hf. now apply in_map.
  - exfalso. apply Hnotin. rewrite <- Hf. now apply in_map.
  - now apply IH.
Qed.

(** X4. An edit for a name that is not in the node list, under an index
    that is the label of a row, overwrites that row: the node list keeps
    its length, holds the new row under the label, and, the names being
    unique, no longer holds the node that was under it. *)
Theorem nodelist_updated_overwrites
    (node : PreparedNode) (self : ReteGraph) (r0 : NodeRow) :
  NoDup (node_names (nodelist self)) ->
  ~ In (pn_name node) (node_names (nodelist self)) ->
  In (pn_index node, r0) (nrows (nodelist self)) ->
  let nl' := nodelist (_on_nodelist_updated [node] self) in
  List.length (nrows nl') = List.length (nrows (nodelist self))
  /\ In (pn_index node, inserted_row (ncolumns (nodelist self)) node) (nrows nl')
  /\ ~ In (nr_event r0) (node_names nl').
Proof.
  intros Hnd Hname Hold nl'. subst nl'.
  unfold _on_nodelist_updated. simpl. unfold update_node.
  rewrite (unknown_name _ _ Hname). simpl. split; [|split].
  - unfold loc_set. rewrite some_label.
    + now rewrite length_map.
    + apply (in_map fst) in Hold. exact Hold.
  - apply loc_set_In.
  - unfold loc_set. rewrite some_label by (apply (in_map fst) in Hold; exact Hold).
    unfold node_names. simpl. rewrite !map_map. intros Hin.
    apply in_map_iff in Hin as [[l x] [Hx Hin]]. simpl in Hx.
    destruct (Z.eqb_spec l (pn_index node)) as [Hl|Hl]; simpl in Hx.
    + apply Hname. rewrite Hx. unfold node_names. rewrite map_map.
      apply (in_map (fun r => nr_event (snd r))) in Hold. exact Hold.
    + assert (Heq : (l, x) = (pn_index node, r0)).
      { apply (NoDup_map_injective (fun r => nr_event (snd r)) (nrows (nodelist self)));
          try assumption.
        unfold node_names in Hnd. now rewrite map_map in Hnd. }
      inversion Heq. contradiction.
Qed.

(** ** Recalculation: what it keeps and what it writes *)

Lemma mapM_Forall2 {A B : Type} (f : A -> result B) (xs : list A) (ys : list B) :
  mapM f xs = Ok ys -> Forall2 (fun x y => f x = Ok y) xs ys.
Proof.
  revert ys. induction xs as [|x xs IH]; intros ys; simpl.
  - intros H. inversion H. constructor.
  - destruct (f x) as [y|e] eqn:Hx; simpl; [|discriminate].
    destruct (mapM f xs) as [ys'|e]; simpl; [|discriminate].
    intros H. inversion H. constructor; [exact Hx | now apply IH].
Qed.

Lemma mapM_raises {A B : Type} (f : A -> result B) (xs : list A) (x : A) (e : exn) :
  (forall x' e', f x' = Raise e' -> e' = e) ->
  In x xs -> f x = Raise e -> mapM f xs = Raise e.
Proof.
  intros Honly Hin Hx. induction xs as [|x0 xs IH]; [contradiction|]. simpl.
  destruct (f x0) as [y|e0] eqn:H0; simpl.
  - destruct Hin as [-> | Hin]; [congruence|]. now rewrite (IH Hin).
  - now rewrite (Honly x0 e0 H0).
Qed.

Lemma mapM_returns {A B : Type} (f : A -> result B) (xs : list A) :
  (forall x, In x xs -> exists y, f x = Ok y) -> exists ys, mapM f xs = Ok ys.
Proof.
  induction xs as [|x xs IH]; intros H; simpl; [now exists []|].
  destruct (H x (or_introl eq_refl)) as [y Hy]. rewrite Hy. simpl.
  destruct (IH (fun x' Hx' => H x' (or_intror Hx'))) as [ys Hys]. rewrite Hys. simpl.
  now exists (y :: ys).
Qed.

Section WriteColumns.

Variable columns : list string.
Variable values : dict float.

Let write (acc : result NodeRow) (col : string) : result NodeRow :=
  row' <- acc ;;
  v <- row_item columns col values ;;
  Ok (set_metric col v row').

Lemma write_stays_raised (cols : list string) (e : exn) :
  fold_left write cols (Raise e) = Raise e.
Proof. exact (write_raised columns values cols e). Qed.

Lemma write_fields (cols : list string) (r r' : NodeRow) :
  fold_left write cols (Ok r) = Ok r' ->
  nr_alias r' = nr_alias r /\ nr_changed_name r' = nr_changed_name r.
Proof.
  revert r. induction cols as [|c cols IH]; intros r; simpl.
  - intros H. inversion H. split; reflexivity.
  - destruct (row_item columns c values) as [v|e]; simpl.
    + intros H. apply IH in H. exact H.
    + rewrite write_stays_raised. discriminate.
Qed.

Lemma write_other (cols : list string) (c : string) (r r' : NodeRow) :
  ~ In c cols -> fold_left write cols (Ok r) = Ok r' ->
  dict_get c (nr_metrics r') = dict_get c (nr_metrics r).
Proof.
  intros Hc. revert r. induction cols as [|c0 cols IH]; intros r; simpl.
  - intros H. inversion H. reflexivity.
  - destruct (row_item columns c0 values) as [v|e]; simpl.
    + intros H. rewrite (IH (fun Hin => Hc (or_intror Hin)) _ H). simpl.
      apply dict_get_set_other. intros ->. apply Hc. now left.
    + rewrite write_stays_raised. discriminate.
Qed.

Lemma write_only_key_error (cols : list string) (r : NodeRow) (e : exn) :
  fold_left write cols (Ok r) = Raise e -> e = KeyError.
Proof.
  revert r. induction cols as [|c cols IH]; intros r; simpl; [discriminate|].
  unfold row_item. destruct (isin columns c); simpl.
  - apply IH.
  - rewrite write_stays_raised. intros H. inversion H. reflexivity.
Qed.

Lemma write_missing (cols : list string) (c : string) (r : NodeRow) :
  In c cols -> isin columns c = false ->
  fold_left write cols (Ok r) = Raise KeyError.
Proof.
  intros Hin Hc. destruct (fold_left write cols (Ok r)) as [r'|e] eqn:H.
  - destruct (write_written columns values cols r r' H c Hin) as [v [Hv _]].
    unfold row_item in Hv. rewrite Hc in Hv. discriminate.
  - now rewrite (write_only_key_error cols r e H).
Qed.

Lemma write_present (cols : list string) (r : NodeRow) :
  (forall c, In c cols -> isin columns c = true) ->
  exists r', fold_left write cols (Ok r) = Ok r'.
Proof.
  revert r. induction cols as [|c cols IH]; intros r H; simpl; [now exists r|].
  unfold row_item. rewrite (H c (or_introl eq_refl)). simpl.
  apply IH. intros c' Hc'. apply H. now right.
Qed.

End WriteColumns.

Lemma first_match_In {A : Type} (p : A -> bool) (l : list A) (x : A) (rest : list A) :
  filter p l = x :: rest -> In x l /\ p x = true.
Proof.
  intros H. apply filter_In. rewrite H. now left.
Qed.

(** X5. A recalculation that returns keeps, row by row and in order, the
    label, the name, the [active] flag, the [parent], the alias and the
    changed name of every node: only numeric columns are written. *)
Theorem recalculate_keeps_edit_state (self self' : ReteGraph) :
  _recalculate self = (Ok tt, self') ->
  map (fun r => (fst r, nr_event (snd r), nr_active (snd r), nr_parent (snd r),
                 nr_alias (snd r), nr_changed_name (snd r)))
      (nrows (nodelist self'))
  = map (fun r => (fst r, nr_event (snd r), nr_active (snd r), nr_parent (snd r),
                   nr_alias (snd r), nr_changed_name (snd r)))
        (nrows (nodelist self)).
Proof.
  unfold _recalculate.
  destruct (apply_update _ _ (nodelist self)) as [nl|e] eqn:Hup; [|discriminate].
  intros H. inversion H. subst self'. clear H. simpl.
  unfold apply_update in Hup.
  destruct (mapM _ (nrows (nodelist self))) as [rows|e] eqn:Hrows; [|discriminate].
  simpl in Hup. inversion Hup. subst nl. clear Hup. simpl.
  apply mapM_Forall2 in Hrows.
  induction Hrows as [|[l r] [l' r'] xs ys Hxy _ IH]; simpl; [reflexivity|].
  rewrite IH. f_equal. simpl in Hxy.
  destruct (_update_node_after_recalc _ _ r) as [r1|e] eqn:Hr; simpl in Hxy;
    [|discriminate].
  inversion Hxy. subst l' r'.
  destruct (update_node_same_edits _ _ _ _ Hr) as [H1 [H2 H3]].
  assert (Hf : nr_alias r1 = nr_alias r /\ nr_changed_name r1 = nr_changed_name r).
  { unfold _update_node_after_recalc in Hr.
    destruct (filter _ (nrows _)) as [|[l0 rn] rest].
    - inversion Hr. split; reflexivity.
    - exact (write_fields _ _ _ _ _ Hr). }
  destruct Hf as [H4 H5]. congruence.
Qed.

Lemma recalculate_rows (self self' : ReteGraph) :
  _recalculate self = (Ok tt, self') ->
  Forall2 (fun r r' =>
             fst r' = fst r
             /\ _update_node_after_recalc
                  (get_nodelist_cols (rete self))
                  (create_nodelist (rete self)
                     (updated_clickstream (rete self) (nodelist self)))
                  (snd r) = Ok (snd r'))
          (nrows (nodelist self)) (nrows (nodelist self')).
Proof.
  unfold _recalculate.
  destruct (apply_update _ _ (nodelist self)) as [nl|e] eqn:Hup; [|discriminate].
  intros H. inversion H. subst self'. clear H. simpl.
  unfold apply_update in Hup.
  destruct (mapM _ (nrows (nodelist self))) as [rows|e] eqn:Hrows; [|discriminate].
  simpl in Hup. inversion Hup. subst nl. clear Hup. simpl.
  apply mapM_Forall2 in Hrows.
  induction Hrows as [|[l r] [l' r'] xs ys Hxy _ IH]; constructor; [|exact IH].
  simpl in *. destruct (_update_node_after_recalc _ _ r) as [r1|e]; simpl in Hxy;
    [|discriminate].
  inversion Hxy. split; reflexivity.
Qed.

Lemma Forall2_In_l {A B : Type} (R : A -> B -> Prop) (xs : list A) (ys : list B) (x : A) :
  Forall2 R xs ys -> In x xs -> exists y, In y ys /\ R x y.
Proof.
  induction 1 as [|a b xs ys Hab _ IH]; intros Hin; [contradiction|].
  destruct Hin as [<- | Hin].
  - exists b. split; [now left | exact Hab].
  - destruct (IH Hin) as [y [Hy Hr]]. exists y. split; [now right | exact Hr].
Qed.

(** X6. Stale but present: a node whose name has no row in the
    recalculated node list, such as a disabled node or a node grouped
    under another, keeps its row as it is through a recalculation that
    returns. *)
Theorem recalculate_keeps_unmatched
    (self self' : ReteGraph) (l : Z) (r : NodeRow) :
  _recalculate self = (Ok tt, self') ->
  In (l, r) (nrows (nodelist self)) ->
  ~ In (nr_event r)
       (node_names (create_nodelist (rete self)
                      (updated_clickstream (rete self) (nodelist self)))) ->
  In (l, r) (nrows (nodelist self')).
Proof.
  intros Hrun Hin Hun.
  destruct (Forall2_In_l _ _ _ _ (recalculate_rows self self' Hrun) Hin)
    as [[l' r'] [Hin' [Hl Hr]]].
  simpl in Hl, Hr. unfold _update_node_after_recalc in Hr.
  rewrite (unknown_name _ _ Hun) in Hr. inversion Hr. now subst.
Qed.

(** X7. A node whose name has a row in the recalculated node list gets,
    through a recalculation that returns, the cell of the first such row
    in every column of [get_nodelist_cols()], and keeps its cell in every
    other column. *)
Theorem recalculate_writes_matched
    (self self' : ReteGraph) (l l0 : Z) (r rn : NodeRow)
    (rest : list (Z * NodeRow)) :
  _recalculate self = (Ok tt, self') ->
  In (l, r) (nrows (nodelist self)) ->
  filter (fun x => String.eqb (nr_event (snd x)) (nr_event r))
         (nrows (create_nodelist (rete self)
                   (updated_clickstream (rete self) (nodelist self))))
  = (l0, rn) :: rest ->
  exists r',
    In (l, r') (nrows (nodelist self'))
    /\ (forall c, In c (get_nodelist_cols (rete self)) ->
          cell c (nr_metrics r') = cell c (nr_metrics rn))
    /\ (forall c, ~ In c (get_nodelist_cols (rete self)) ->
          dict_get c (nr_metrics r') = dict_get c (nr_metrics r)).
Proof.
  intros Hrun Hin Hmatch.
  destruct (Forall2_In_l _ _ _ _ (recalculate_rows self self' Hrun) Hin)
    as [[l' r'] [Hin' [Hl Hr]]].
  simpl in Hl, Hr. subst l'. exists r'. split; [exact Hin'|].
  unfold _update_node_after_recalc in Hr. rewrite Hmatch in Hr. split.
  - intros c Hc.
    destruct (write_written _ _ _ _ _ Hr c Hc) as [v [Hv Hg]].
    unfold cell at 1. rewrite Hg. unfold row_item in Hv.
    destruct (isin _ c); [|discriminate]. now inversion Hv.
  - intros c Hc. exact (write_other _ _ _ c r r' Hc Hr).
Qed.

(** X8. The log that is recomputed holds one row per row of the filtered
    log, at most as many as the raw log, and the name of each of its rows
    is the name of an active node that no grouped node bears, or the
    parent of an active grouped node. *)
Theorem updated_clickstream_events (rt : ReteExplorer) (nl : NodeList) :
  List.length (updated_clickstream rt nl) = List.length (filtered_clickstream rt nl)
  /\ (List.length (filtered_clickstream rt nl) <= List.length (clickstream rt))%nat
  /\ forall row, In row (updated_clickstream rt nl) ->
       (In (event row) (map nr_event (active_rows nl))
        /\ forall g, In g (grouped_rows nl) -> nr_event g <> event row)
       \/ exists g, In g (grouped_rows nl) /\ nr_parent g = Some (event row).
Proof.
  split; [|split].
  - unfold updated_clickstream. apply length_map.
  - unfold filtered_clickstream. apply filter_length_le.
  - intros row Hrow. unfold updated_clickstream in Hrow.
    apply in_map_iff in Hrow as [row0 [<- Hin]].
    destruct (replace_grouped_events_cases nl row0) as [[Heq Hnone] | Hgrouped].
    + left. rewrite Heq. split; [|exact Hnone].
      unfold filtered_clickstream in Hin. apply filter_In in Hin as [_ Hact].
      now apply isin_In.
    + right. exact Hgrouped.
Qed.

Lemma update_only_key_error (cols : list string) (rec : NodeList) (r : NodeRow)
    (e : exn) :
  _update_node_after_recalc cols rec r = Raise e -> e = KeyError.
Proof.
  unfold _update_node_after_recalc.
  destruct (filter _ (nrows rec)) as [|[l rn] rest]; [discriminate|].
  apply write_only_key_error.
Qed.

(** X9. When a column of [get_nodelist_cols()] is no column of the
    recalculated node list and a node has a row in that list, the
    recalculation raises KeyError and leaves the session as it was. *)
Theorem recalculate_missing_column
    (self : ReteGraph) (c : string) (l : Z) (r : NodeRow) :
  let rec := create_nodelist (rete self)
               (updated_clickstream (rete self) (nodelist self)) in
  In c (get_nodelist_cols (rete self)) ->
  isin (ncolumns rec) c = false ->
  In (l, r) (nrows (nodelist self)) ->
  In (nr_event r) (node_names rec) ->
  _recalculate self = (Raise KeyError, self).
Proof.
  intros rec Hc Hmissing Hin Hname. unfold _recalculate, apply_update. fold rec.
  assert (Hrow : _update_node_after_recalc (get_nodelist_cols (rete self)) rec r
                 = Raise KeyError).
  { unfold _update_node_after_recalc.
    destruct (filter (fun x => String.eqb (nr_event (snd x)) (nr_event r)) (nrows rec))
      as [|[l0 rn] rest] eqn:Hf.
    - exfalso. unfold node_names in Hname. rewrite map_map in Hname.
      apply in_map_iff in Hname as [x [Hx Hxin]].
      assert (Hin' : In x (filter (fun x => String.eqb (nr_event (snd x)) (nr_event r))
                                  (nrows rec))).
      { apply filter_In. split; [exact Hxin | now apply String.eqb_eq]. }
      rewrite Hf in Hin'. contradiction.
    - exact (write_missing _ _ _ c r Hc Hmissing). }
  rewrite (mapM_raises
             (fun x => row' <- _update_node_after_recalc
                                 (get_nodelist_cols (rete self)) rec (snd x) ;;
                       Ok (fst x, row'))
             (nrows (nodelist self)) (l, r) KeyError).
  - reflexivity.
  - intros x e He.
    destruct (_update_node_after_recalc _ rec (snd x)) as [y|e0] eqn:Hx; simpl in He;
      [discriminate|].
    inversion He. subst e0. exact (update_only_key_error _ _ _ _ Hx).
  - exact Hin.
  - simpl. now rewrite Hrow.
Qed.

(** X10. When the recalculated node list has every column of
    [get_nodelist_cols()], the recalculation returns, and its session
    holds the edge list the Explorer made of the relabelled log. *)
Theorem recalculate_returns (self : ReteGraph) :
  (forall c, In c (get_nodelist_cols (rete self)) ->
     isin (ncolumns (create_nodelist (rete self)
                       (updated_clickstream (rete self) (nodelist self)))) c = true) ->
  exists self',
    _recalculate self = (Ok tt, self')
    /\ edgelist self' = create_edgelist (rete self)
                          (updated_clickstream (rete self) (nodelist self))
    /\ rete self' = rete self /\ layout self' = layout self.
Proof.
  intros Hcols. unfold _recalculate, apply_update.
  destruct (mapM_returns
              (fun x => row' <- _update_node_after_recalc
                                  (get_nodelist_cols (rete self))
                                  (create_nodelist (rete self)
                                     (updated_clickstream (rete self) (nodelist self)))
                                  (snd x) ;;
                        Ok (fst x, row'))
              (nrows (nodelist self))) as [rows Hrows].
  { intros x _. unfold _update_node_after_recalc.
    destruct (filter _ (nrows _)) as [|[l0 rn] rest].
    - simpl. eexists. reflexivity.
    - destruct (write_present _ (nr_metrics rn) _ (snd x) Hcols) as [r' Hr'].
      rewrite Hr'. simpl. eexists. reflexivity. }
  rewrite Hrows. simpl. eexists. repeat split.
Qed.

(** ** Layout: rescale and overrides *)

(** On finite positions whose box is degenerate along no axis, the
    rescale is the affine map of each axis between the bounds of the
    box. *)
Lemma rescale_affine (pos : Position) (width height : Z) :
  forallb finite_position pos = true ->
  box_spread (coords_x pos) = true -> box_spread (coords_y pos) = true ->
  exists ax bx ay by',
    py_min (coords_x pos) = Ok (Fin ax) /\ py_max (coords_x pos) = Ok (Fin bx)
    /\ py_min (coords_y pos) = Ok (Fin ay) /\ py_max (coords_y pos) = Ok (Fin by')
    /\ (ax < bx)%Q /\ (ay < by')%Q
    /\ rescale pos width height
       = Ok (map (fun ij =>
                    (fst ij,
                     (Fin (affine ax bx (width - 150) 75 (to_Q (fst (snd ij)))),
                      Fin (affine ay by' (height - 100) 50 (to_Q (snd (snd ij)))))))
                 pos).
Proof.
  intros Hfin Hx Hy.
  destruct (finite_coords pos Hfin) as [Hfx Hfy].
  destruct (box_spread_bounds (coords_x pos) Hfx Hx) as [ax [bx [Hminx [Hmaxx [Hltx _]]]]].
  destruct (box_spread_bounds (coords_y pos) Hfy Hy) as [ay [by' [Hminy [Hmaxy [Hlty _]]]]].
  exists ax, bx, ay, by'. repeat split; try assumption.
  unfold rescale. fold (coords_x pos). fold (coords_y pos).
  rewrite Hminx, Hminy, Hmaxx, Hmaxy. cbn [bind]. f_equal.
  apply map_ext_in. intros [n [x y]] Hin.
  assert (Hfp : finite_position (n, (x, y)) = true).
  { rewrite forallb_forall in Hfin. now apply Hfin. }
  unfold finite_position in Hfp. simpl in Hfp. apply andb_true_iff in Hfp as [Hfx0 Hfy0].
  simpl fst. simpl snd.
  rewrite (finite_to_Q x Hfx0), (finite_to_Q y Hfy0). simpl to_Q.
  assert (Hnx : Qeq_bool (bx + - ax) 0 = false) by (apply Qeq_bool_false; lra).
  assert (Hny : Qeq_bool (by' + - ay) 0 = false) by (apply Qeq_bool_false; lra).
  simpl. rewrite Hnx, Hny. reflexivity.
Qed.

Lemma affine_min (a b : Q) (size margin : Z) (q : Q) :
  (a < b)%Q -> (q == a)%Q -> (affine a b size margin q == inject_Z margin)%Q.
Proof.
  intros Hab Hq. unfold affine. rewrite Hq. field. lra.
Qed.

Lemma affine_max (a b : Q) (size margin : Z) (q : Q) :
  (a < b)%Q -> (q == b)%Q ->
  (affine a b size margin q == inject_Z (size + margin))%Q.
Proof.
  intros Hab Hq. unfold affine. rewrite Hq, inject_Z_plus. field. lra.
Qed.

Lemma affine_monotone (a b : Q) (size margin : Z) (p q : Q) :
  (a < b)%Q -> 0 <= size -> (p <= q)%Q ->
  (affine a b size margin p <= affine a b size margin q)%Q.
Proof.
  intros Hab Hsize Hpq. unfold affine.
  assert (Hs : (0 <= inject_Z size)%Q).
  { change 0%Q with (inject_Z 0). now rewrite <- Zle_Qle. }
  assert (Hpos : (0 < b + - a)%Q) by lra.
  apply Qplus_le_compat; [|apply Qle_refl].
  apply Qmult_le_compat_r; [|exact Hs].
  unfold Qdiv. apply Qmult_le_compat_r.
  - lra.
  - apply Qlt_le_weak. now apply Qinv_lt_0_compat.
Qed.

(** X11. The rescale puts the corners of the bounding box on the margins:
    for finite positions whose box is degenerate along no axis, a node at
    the least x gets x = 75 and a node at the greatest x gets
    x = width - 75; likewise 50 and height - 50 for y. *)
Theorem rescale_extremes
    (pos computed : Position) (width height : Z) (min_x max_x min_y max_y : float) :
  forallb finite_position pos = true ->
  box_spread (coords_x pos) = true -> box_spread (coords_y pos) = true ->
  py_min (coords_x pos) = Ok min_x -> py_max (coords_x pos) = Ok max_x ->
  py_min (coords_y pos) = Ok min_y -> py_max (coords_y pos) = Ok max_y ->
  rescale pos width height = Ok computed ->
  Forall2 (fun p q =>
             fst q = fst p
             /\ (feq (fst (snd p)) min_x -> feq (fst (snd q)) (of_Z 75))
             /\ (feq (fst (snd p)) max_x -> feq (fst (snd q)) (of_Z (width - 75)))
             /\ (feq (snd (snd p)) min_y -> feq (snd (snd q)) (of_Z 50))
             /\ (feq (snd (snd p)) max_y -> feq (snd (snd q)) (of_Z (height - 50))))
          pos computed.
Proof.
  intros Hfin Hx Hy Hminx Hmaxx Hminy Hmaxy Hres.
  destruct (rescale_affine pos width height Hfin Hx Hy)
    as [ax [bx [ay [by' [Eminx [Emaxx [Eminy [Emaxy [Hltx [Hlty Eres]]]]]]]]]].
  rewrite Eminx in Hminx. rewrite Emaxx in Hmaxx.
  rewrite Eminy in Hminy. rewrite Emaxy in Hmaxy.
  inversion Hminx. inversion Hmaxx. inversion Hminy. inversion Hmaxy.
  subst min_x max_x min_y max_y. clear Hminx Hmaxx Hminy Hmaxy.
  rewrite Eres in Hres. inversion Hres. subst computed. clear Hres Eres.
  assert (Hall : forall p, In p pos -> finite_position p = true).
  { now rewrite forallb_forall in Hfin. }
  clear Hfin Hx Hy Eminx Emaxx Eminy Emaxy.
  induction pos as [|[n [x y]] pos IH]; simpl; constructor.
  - pose proof (Hall _ (or_introl eq_refl)) as Hfp.
    unfold finite_position in Hfp. simpl in Hfp.
    apply andb_true_iff in Hfp as [Hfx0 Hfy0].
    destruct x as [qx| | |]; try discriminate. destruct y as [qy| | |]; try discriminate.
    simpl. split; [reflexivity|]. repeat split; intros Heq.
    + now apply affine_min.
    + replace (width - 75) with (width - 150 + 75) by lia. now apply affine_max.
    + now apply affine_min.
    + replace (height - 50) with (height - 100 + 50) by lia. now apply affine_max.
  - apply IH. intros p Hp. apply Hall. now right.
Qed.

(** X12. On a canvas at least as wide and high as its margins the
    rescale keeps the order of the nodes along each axis: the i-th and
    the j-th position keep their names, and if the one is left of (below)
    the other before the rescale it is so after it. *)
Theorem rescale_keeps_order
    (pos computed : Position) (width height : Z) (i j : nat)
    (ni nj : string) (xi yi xj yj : Q) :
  150 <= width -> 100 <= height ->
  forallb finite_position pos = true ->
  box_spread (coords_x pos) = true -> box_spread (coords_y pos) = true ->
  rescale pos width height = Ok computed ->
  nth_error pos i = Some (ni, (Fin xi, Fin yi)) ->
  nth_error pos j = Some (nj, (Fin xj, Fin yj)) ->
  exists xi' yi' xj' yj',
    nth_error computed i = Some (ni, (Fin xi', Fin yi'))
    /\ nth_error computed j = Some (nj, (Fin xj', Fin yj'))
    /\ ((xi <= xj)%Q -> (xi' <= xj')%Q)
    /\ ((yi <= yj)%Q -> (yi' <= yj')%Q).
Proof.
  intros Hw Hh Hfin Hx Hy Hres Hi Hj.
  destruct (rescale_affine pos width height Hfin Hx Hy)
    as [ax [bx [ay [by' [_ [_ [_ [_ [Hltx [Hlty Eres]]]]]]]]]].
  rewrite Eres in Hres. inversion Hres. subst computed. clear Hres Eres.
  do 4 eexists. split; [|split; [|split]].
  - rewrite nth_error_map, Hi. reflexivity.
  - rewrite nth_error_map, Hj. reflexivity.
  - simpl. intros Hle. apply affine_monotone; [assumption | lia | assumption].
  - simpl. intros Hle. apply affine_monotone; [assumption | lia | assumption].
Qed.

(** X13. [_use_layout] adds no node and removes none: when it returns,
    the positions it returns have the names of the positions it was
    given, in the same order. *)
Theorem use_layout_keeps_nodes (self : ReteGraph) (position pos : Position) :
  _use_layout self position = Ok pos -> dict_keys pos = dict_keys position.
Proof.
  unfold _use_layout. destruct (layout self) as [stored|].
  - apply overlay_keys. auto.
  - intros H. now inversion H.
Qed.

Lemma overlay_only_value_error (stored : list LayoutNode) (keys : list string) :
  forall position e,
    fold_left (overlay stored) keys (Ok position) = Raise e -> e = ValueError.
Proof.
  induction keys as [|k keys IH]; intros position e; simpl; [discriminate|].
  destruct (filter (fun l => String.eqb (ln_name l) k) stored) as [|m [|m' rest]].
  - apply IH.
  - apply IH.
  - rewrite overlay_raised. intros H. now inversion H.
Qed.

Lemma overlay_duplicate (stored : list LayoutNode) (keys : list string)
    (n : string) (m m' : LayoutNode) (rest : list LayoutNode) :
  In n keys ->
  filter (fun l => String.eqb (ln_name l) n) stored = m :: m' :: rest ->
  forall position, fold_left (overlay stored) keys (Ok position) = Raise ValueError.
Proof.
  intros Hin Hdup. induction keys as [|k keys IH]; [contradiction|].
  intros position. simpl.
  destruct (filter (fun l => String.eqb (ln_name l) k) stored) as [|m0 [|m1 rest0]] eqn:Hk.
  - destruct Hin as [-> | Hin]; [congruence | now apply IH].
  - destruct Hin as [-> | Hin]; [congruence | now apply IH].
  - apply overlay_raised.
Qed.

(** X14. Two stored positions for one node of the layout make
    [_use_layout] raise ValueError ([item()] on more than one row),
    whatever the other stored positions are. *)
Theorem use_layout_duplicate_raises
    (self : ReteGraph) (position : Position) (stored : list LayoutNode)
    (n : string) (m m' : LayoutNode) (rest : list LayoutNode) :
  layout self = Some stored ->
  In n (dict_keys position) ->
  filter (fun l => String.eqb (ln_name l) n) stored = m :: m' :: rest ->
  _use_layout self position = Raise ValueError.
Proof.
  intros Hl Hin Hdup. unfold _use_layout. rewrite Hl.
  exact (overlay_duplicate stored (dict_keys position) n m m' rest Hin Hdup position).
Qed.

Lemma append_each {A : Type} (xs acc : list A) :
  fold_left (fun rows x => (rows ++ [x])%list) xs acc = (acc ++ xs)%list.
Proof.
  revert acc. induction xs as [|x xs IH]; intros acc; simpl.
  - now rewrite app_nil_r.
  - rewrite IH, <- app_assoc. reflexivity.
Qed.

(** X15. A saved layout is what [_use_layout] lays over the computed
    positions, and nothing of the layout stored before is left: after
    [_on_layout_request] with at most one position per name, every node
    of the computed positions that was saved is at its saved (x, y) and
    every other node stays where it was computed. *)
Theorem saved_layout_is_used
    (layout_nodes : list LayoutNode) (self : ReteGraph) (position : Position) :
  NoDup (map ln_name layout_nodes) ->
  layout (_on_layout_request layout_nodes self) = Some layout_nodes
  /\ exists pos,
       _use_layout (_on_layout_request layout_nodes self) position = Ok pos
       /\ forall n, In n (dict_keys position) ->
            dict_get n pos
            = match find (fun m => String.eqb (ln_name m) n) layout_nodes with
              | Some m => Some (ln_x m, ln_y m)
              | None => dict_get n position
              end.
Proof.
  intros Hnd.
  assert (Hl : layout (_on_layout_request layout_nodes self) = Some layout_nodes).
  { unfold _on_layout_request. simpl. now rewrite append_each. }
  split; [exact Hl|].
  destruct (use_layout_overrides (_on_layout_request layout_nodes self) position)
    as [pos [Huse Hget]].
  { unfold single_overrides. now rewrite Hl. }
  exists pos. split; [exact Huse|].
  intros n Hn. rewrite (Hget n Hn). unfold stored_position. now rewrite Hl.
Qed.

(** ** Payload: indices, degrees and links *)

Lemma dict_set_fresh {V : Type} (k : string) (v : V) (d : dict V) :
  ~ In k (dict_keys d) -> dict_set k v d = (d ++ [(k, v)])%list.
Proof.
  unfold dict_keys. induction d as [|[k' v'] d IH]; simpl; intros H; [reflexivity|].
  destruct (String.eqb_spec k' k) as [->|Hne].
  - exfalso. apply H. now left.
  - rewrite IH; [reflexivity|]. intros Hin. apply H. now right.
Qed.

Section PreparedNodes.

Variable set_order : list string -> list string.

Lemma prepare_node_index (cols : list string) (nl : NodeList)
    (np : option NodeParams) (pos : option Position) (idx : Z) (name : string)
    (n : PreparedNode) :
  prepare_node cols nl np pos idx name = Ok n -> pn_index n = idx.
Proof.
  unfold prepare_node.
  match goal with
  | |- context [fold_left ?f cols ?a] => destruct (fold_left f cols a) as [degree|e]
  end; simpl; [|discriminate].
  destruct (filter _ (map snd (nrows nl))) as [|r rest]; simpl; [discriminate|].
  intros H. inversion H. reflexivity.
Qed.

(** Over distinct names that are no keys yet, the loop of
    [_prepare_nodes] appends one node per name, numbered from [idx]. *)
Lemma prepare_nodes_loop_appends (cols : list string) (nl : NodeList)
    (np : option NodeParams) (pos : option Position) (names : list string) :
  NoDup names ->
  forall (idx : Z) (acc nodes_set : dict PreparedNode),
    (forall n, In n names -> ~ In n (dict_keys acc)) ->
    prepare_nodes_loop cols nl np pos idx names acc = Ok nodes_set ->
    exists new,
      nodes_set = (acc ++ new)%list
      /\ dict_keys new = names
      /\ map pn_name (dict_values new) = names
      /\ map pn_index (dict_values new)
         = map (fun i => idx + Z.of_nat i) (seq 0 (List.length names)).
Proof.
  induction 1 as [|name names Hnotin Hnd IH]; intros idx acc nodes_set Hfresh; simpl.
  - intros H. inversion H. exists []. rewrite app_nil_r. repeat split.
  - destruct (prepare_node cols nl np pos idx name) as [n|e] eqn:Hn; simpl;
      [|discriminate].
    intros Hloop.
    rewrite (dict_set_fresh name n acc (Hfresh name (or_introl eq_refl))) in Hloop.
    assert (Hfresh' : forall n', In n' names ->
                        ~ In n' (dict_keys (acc ++ [(name, n)])%list)).
    { intros n' Hn' Hin. unfold dict_keys in Hin. rewrite map_app in Hin.
      apply in_app_or in Hin. destruct Hin as [Hin | [Hin | []]].
      - exact (Hfresh n' (or_intror Hn') Hin).
      - simpl in Hin. subst n'. contradiction. }
    destruct (IH (idx + 1) _ _ Hfresh' Hloop) as [new [Hset [Hkeys [Hnames Hidx]]]].
    exists ((name, n) :: new). split; [|split; [|split]].
    + rewrite Hset, <- app_assoc. reflexivity.
    + simpl. now rewrite Hkeys.
    + simpl. rewrite Hnames. f_equal.
      exact (prepare_node_name cols nl np pos idx name n Hn).
    + simpl. rewrite Hidx. f_equal.
      * rewrite (prepare_node_index cols nl np pos idx name n Hn). lia.
      * rewrite <- seq_shift, map_map. apply map_ext. intros i. lia.
Qed.

(** X16. For a set order that lists each name once, the nodes of
    [_prepare_nodes] are the names in that order, their indices are
    0, 1, 2, ... in that order, and the node dictionary has the same
    keys. *)
Theorem prepare_nodes_dense_indices
    (rt : ReteExplorer) (nl : NodeList) (np : option NodeParams)
    (pos : option Position) (nodes : list PreparedNode)
    (nodes_set : dict PreparedNode) :
  NoDup (set_order (map (fun r => nr_event (snd r)) (nrows nl))) ->
  _prepare_nodes set_order rt nl np pos = Ok (nodes, nodes_set) ->
  map pn_name nodes = set_order (map (fun r => nr_event (snd r)) (nrows nl))
  /\ map pn_index nodes = map Z.of_nat (seq 0 (List.length nodes))
  /\ dict_keys nodes_set = map pn_name nodes.
Proof.
  intros Hnd. unfold _prepare_nodes.
  destruct (prepare_nodes_loop _ nl np pos 0 _ []) as [ns|e] eqn:Hloop; simpl;
    [|discriminate].
  intros H. inversion H. subst nodes nodes_set. clear H.
  destruct (prepare_nodes_loop_appends _ nl np pos _ Hnd 0 [] ns
              (fun n _ Hin => Hin) Hloop) as [new [Hset [Hkeys [Hnames Hidx]]]].
  simpl in Hset. subst ns. split; [exact Hnames|]. split.
  - rewrite Hidx. unfold dict_values. rewrite length_map.
    rewrite <- Hkeys at 1. unfold dict_keys. rewrite length_map. reflexivity.
  - now rewrite Hkeys, Hnames.
Qed.

End PreparedNodes.

Lemma fill_made {V : Type} (g : string -> result V) (keys : list string)
    (d0 d : dict V) :
  fold_left (fill g) keys (Ok d0) = Ok d ->
  forall k, In k keys -> exists q, g k = Ok q /\ dict_get k d = Some q.
Proof.
  intros Hfold.
  assert (Hall : forall k, In k keys -> exists q, g k = Ok q).
  { intros k Hk. destruct (g k) as [q|e] eqn:Hg; [now exists q|].
    destruct (fill_raises V g keys k Hk (ex_intro _ e Hg) (Ok d0)) as [e' He'].
    congruence. }
  destruct (fill_returns V g keys Hall d0) as [norm [Hnorm [Hin _]]].
  assert (norm = d) by congruence. subst norm.
  intros k Hk. destruct (Hall k Hk) as [q Hq]. exists q. split; [exact Hq|].
  now apply Hin.
Qed.

Lemma prepare_node_degree (cols : list string) (nl : NodeList)
    (np : option NodeParams) (pos : option Position) (idx : Z) (name : string)
    (n : PreparedNode) (col : string) :
  prepare_node cols nl np pos idx name = Ok n -> In col cols ->
  exists d, degree_entry nl name col = Ok d /\ dict_get col (pn_degree n) = Some d.
Proof.
  unfold prepare_node.
  match goal with
  | |- context [fold_left ?f cols ?a] =>
      rewrite (fold_left_pointwise f (fill (degree_entry nl name)) cols a)
  end.
  - destruct (fold_left (fill (degree_entry nl name)) cols (Ok [])) as [degree|e] eqn:Hd;
      simpl; [|discriminate].
    destruct (filter _ (map snd (nrows nl))) as [|r rest]; simpl; [discriminate|].
    intros H Hcol. inversion H. simpl.
    exact (fill_made (degree_entry nl name) cols [] degree Hd col Hcol).
  - intros acc weight_col. unfold fill, degree_entry.
    destruct acc as [degree|e]; simpl; [|reflexivity].
    destruct (node_column weight_col nl); simpl; [|reflexivity].
    destruct (filter _ (map snd (nrows nl))); reflexivity.
Qed.

(** The degree of a cell that is not negative in a column whose maximum
    is positive. *)
Lemma degree_range (q m : Q) :
  (0 <= q)%Q -> (q <= m)%Q -> (0 < m)%Q ->
  exists d,
    add (mul (np_div (abs (Fin q)) (abs (Fin m))) (of_Z 30)) (of_Z 4) = Fin d
    /\ (inject_Z 4 <= d)%Q /\ (d <= inject_Z 34)%Q.
Proof.
  intros Hq Hqm Hm. simpl.
  assert (Hnz : Qeq_bool (Qabs m) 0 = false).
  { apply Qeq_bool_false. rewrite Qabs_pos; lra. }
  rewrite Hnz. eexists. split; [reflexivity|].
  rewrite (Qabs_pos q Hq), (Qabs_pos m) by lra.
  assert (Ht0 : (0 <= q / m)%Q) by (apply Qle_shift_div_l; [exact Hm | lra]).
  assert (Ht1 : (q / m <= 1)%Q) by (apply Qle_shift_div_r; [exact Hm | lra]).
  set (t := (q / m)%Q) in *.
  change (inject_Z 30) with 30%Q. change (inject_Z 4) with 4%Q.
  change (inject_Z 34) with 34%Q.
  split; lra.
Qed.

(** X17. The visual degree lies in [4, 34]: for a metric column of
    [get_nodelist_cols()] whose cells are finite and not negative and
    whose maximum is not zero, every node of [_prepare_nodes] has, under
    that column, the raw value of its row as source and a degree between
    4 and 34. *)
Theorem prepare_nodes_degree_range
    (set_order : list string -> list string)
    (rt : ReteExplorer) (nl : NodeList) (np : option NodeParams)
    (pos : option Position) (nodes : list PreparedNode)
    (nodes_set : dict PreparedNode) (col : string) (qs : list Q) :
  In col (get_nodelist_cols rt) ->
  node_column col nl = Ok (map Fin qs) ->
  (forall q, In q qs -> (0 <= q)%Q) ->
  is_zero (series_max (map Fin qs)) = false ->
  _prepare_nodes set_order rt nl np pos = Ok (nodes, nodes_set) ->
  forall n, In n nodes ->
    exists d q,
      dict_get col (pn_degree n) = Some {| dg_degree := Fin d; dg_source := Fin q |}
      /\ In q qs
      /\ (inject_Z 4 <= d)%Q /\ (d <= inject_Z 34)%Q.
Proof.
  intros Hcol Hcolumn Hpos Hnz Hprep n Hn.
  destruct (prepare_nodes_made set_order rt nl np pos nodes nodes_set Hprep n Hn)
    as [idx [name Hnode]].
  destruct (prepare_node_degree _ nl np pos idx name n col Hnode Hcol) as [d [Hd Hget]].
  unfold degree_entry in Hd. rewrite Hcolumn in Hd. simpl in Hd.
  destruct (filter (fun r => String.eqb (nr_event r) name) (map snd (nrows nl)))
    as [|r rest] eqn:Hf; simpl in Hd; [discriminate|].
  destruct (first_match_In _ _ _ _ Hf) as [Hrin _].
  assert (Hcell : In (cell col (nr_metrics r)) (map Fin qs)).
  { unfold node_column in Hcolumn. destruct (isin (ncolumns nl) col); [|discriminate].
    injection Hcolumn as Hmap. rewrite <- Hmap.
    apply in_map_iff in Hrin as [x [Hx Hxin]]. subst r.
    apply (in_map (fun r => cell col (nr_metrics (snd r)))). exact Hxin. }
  apply in_map_iff in Hcell as [q [Hq Hqin]].
  assert (Hne : qs <> []) by (destruct qs; [contradiction | discriminate]).
  destruct (series_max_finite qs Hne) as [m [Hm [Hmin Hall]]].
  rewrite Hm in Hnz, Hd. simpl in Hnz. rewrite <- Hq in Hd.
  assert (Hmpos : (0 < m)%Q).
  { pose proof (Hpos m Hmin) as Hm0.
    assert (Hmnz : ~ (m == 0)%Q) by (now apply Qeq_bool_false).
    destruct (Qlt_le_dec 0 m) as [Hlt|Hle]; [exact Hlt|].
    exfalso. apply Hmnz. now apply Qle_antisym. }
  destruct (degree_range q m (Hpos q Hqin) (Hall q Hqin) Hmpos) as [d' [Ed [Hd4 Hd34]]].
  rewrite Ed in Hd. inversion Hd. subst d.
  exists d', q. split; [exact Hget|]. split; [exact Hqin|]. split; assumption.
Qed.

Lemma filter_all {A : Type} (p : A -> bool) (l : list A) :
  (forall x, In x l -> p x = true) -> filter p l = l.
Proof.
  induction l as [|a l IH]; simpl; intros H; [reflexivity|].
  rewrite (H a (or_introl eq_refl)). f_equal. apply IH. intros x Hx. apply H. now right.
Qed.

(** X18. A recalculation payload never has more links than the session
    has edges, and has exactly one link per edge when the source and the
    target of every edge are names of nodes of the payload. *)
Theorem payload_link_count
    (set_order : list string -> list string)
    (edits : list PreparedNode) (self self' : ReteGraph) (payload : Payload) :
  _on_recalc_request set_order edits self = (Ok payload, self') ->
  (List.length (links payload) <= List.length (erows (edgelist self')))%nat
  /\ ((forall row, In row (erows (edgelist self')) ->
         In (er_source row) (map pn_name (nodes payload))
         /\ In (er_target row) (map pn_name (nodes payload))) ->
      List.length (links payload) = List.length (erows (edgelist self'))).
Proof.
  intros Hreq.
  destruct (recalc_request_returns set_order edits self self' payload Hreq)
    as [self1 [nodes_set [_ [Hnodes Hedges]]]].
  destruct (prepare_nodes_filed set_order _ _ _ _ _ _ Hnodes) as [Hf Hvals].
  destruct (prepare_edges_resolved _ _ _ _ _ Hf Hedges)
    as [Hres [weight_col [scale Hel]]].
  rewrite <- Hvals in Hres. unfold edges_resolved in Hres.
  rewrite <- (edge_pairs_set_column "weight_norm"
                (fun r => np_div (cell weight_col (er_values r)) scale)), <- Hel in Hres.
  apply Forall2_length in Hres. rewrite <- Hres.
  assert (Hlen : List.length (edge_pairs (edgelist self'))
                 = List.length (erows (edgelist self'))).
  { unfold edge_pairs. apply length_map. }
  split.
  - rewrite <- Hlen. apply filter_length_le.
  - intros Hall. rewrite <- Hlen. f_equal. apply filter_all.
    intros p Hp. unfold edge_pairs in Hp. apply in_map_iff in Hp as [row [<- Hrow]].
    destruct (Hall row Hrow) as [Hs Ht]. unfold both_known. simpl.
    apply andb_true_iff. split; now apply isin_In.
Qed.

Lemma fill_other {V : Type} (g : string -> result V) (keys : list string)
    (d0 d : dict V) (k : string) :
  fold_left (fill g) keys (Ok d0) = Ok d -> ~ In k keys ->
  dict_get k d = dict_get k d0.
Proof.
  intros Hfold Hk.
  assert (Hall : forall k', In k' keys -> exists q, g k' = Ok q).
  { intros k' Hk'. destruct (fill_made g keys d0 d Hfold k' Hk') as [q [Hq _]].
    now exists q. }
  destruct (fill_returns V g keys Hall d0) as [norm [Hnorm [_ Hout]]].
  assert (norm = d) by congruence. subst norm. now apply Hout.
Qed.

Lemma mapM_In_r {A B : Type} (f : A -> result B) (xs : list A) (ys : list B) (y : B) :
  mapM f xs = Ok ys -> In y ys -> exists x, In x xs /\ f x = Ok y.
Proof.
  intros H. apply mapM_Forall2 in H. induction H as [|a b xs ys Hab _ IH]; intros Hin.
  - contradiction.
  - destruct Hin as [<- | Hin].
    + exists a. split; [now left | exact Hab].
    + destruct (IH Hin) as [x [Hx Hfx]]. exists x. split; [now right | exact Hfx].
Qed.

(** The link of one row: its default weight and its type. *)
Lemma prepare_edge_link (default_col weight_col : string) (custom_cols : list string)
    (el : EdgeList) (nodes_set : dict PreparedNode) (row : EdgeRow)
    (ls : list PreparedLink) (link : PreparedLink) :
  ~ In default_col custom_cols ->
  prepare_edge default_col weight_col custom_cols el nodes_set row = Ok ls ->
  In link ls ->
  dict_get default_col (weights link)
  = Some {| w_weight_norm := cell "weight_norm" (er_values row);
            w_weight := cell weight_col (er_values row) |}
  /\ er_type row = Some (link_type link).
Proof.
  intros Hdefault. unfold prepare_edge.
  match goal with
  | |- context [fold_left ?f custom_cols ?a] =>
      rewrite (fold_left_pointwise f
                 (fill (fun c =>
                          weight <- row_item (ecolumns el) c (er_values row) ;;
                          column <- edge_column c el ;;
                          Ok {| w_weight_norm := np_div weight (series_abs_max column);
                                w_weight := weight |}))
                 custom_cols a)
  end.
  - match goal with
    | |- context [fold_left ?f custom_cols ?a] =>
        destruct (fold_left f custom_cols a) as [ws|e] eqn:Hws
    end; simpl; [|discriminate].
    pose proof (fill_other _ _ _ _ default_col Hws Hdefault) as Hget.
    simpl in Hget. rewrite String.eqb_refl in Hget.
    destruct (dict_get (er_source row) nodes_set) as [s|];
      [destruct (dict_get (er_target row) nodes_set) as [t|]|].
    + destruct (er_type row) as [ty|]; [|discriminate].
      intros H Hin. inversion H. subst ls. destruct Hin as [<- | []]. simpl.
      split; [exact Hget | reflexivity].
    + intros H Hin. inversion H. subst ls. contradiction.
    + intros H Hin. inversion H. subst ls. contradiction.
  - intros acc c. unfold fill. destruct acc as [ws|e]; simpl; [|reflexivity].
    destruct (row_item (ecolumns el) c (er_values row)); simpl; [|reflexivity].
    destruct (edge_column c el); reflexivity.
Qed.

(** X19. Every link of [_prepare_edges] comes from a row of the edge
    list and carries, under the node list's default column name, the
    weight of that row in the edge list's first numeric column and that
    weight divided by the maximum magnitude of the column; its type is
    the [type] of the row.  (The default name is taken not to be a custom
    column, and the weight column not to be named weight_norm.) *)
Theorem prepare_edges_default_weight
    (rt : ReteExplorer) (el el' : EdgeList) (nodes_set : dict PreparedNode)
    (links : list PreparedLink) (weight_col : string) (rest : list string) :
  ecolumns el = weight_col :: rest ->
  weight_col <> "weight_norm" ->
  ~ In (get_nodelist_default_col rt) (get_custom_cols rt) ->
  _prepare_edges rt el nodes_set = (Ok links, el') ->
  forall link, In link links ->
    exists row,
      In row (erows el)
      /\ dict_get (get_nodelist_default_col rt) (weights link)
         = Some {| w_weight_norm :=
                     np_div (cell weight_col (er_values row))
                            (series_abs_max
                               (map (fun r => cell weight_col (er_values r)) (erows el)));
                   w_weight := cell weight_col (er_values row) |}
      /\ er_type row = Some (link_type link).
Proof.
  intros Hcols Hwn Hdefault. unfold _prepare_edges. rewrite Hcols.
  destruct (mapM _ _) as [edges|e] eqn:Hm; simpl; [|discriminate].
  intros H link Hlink. inversion H. subst links el'. clear H.
  apply in_concat in Hlink as [ls [Hls Hlink]].
  destruct (mapM_In_r _ _ _ ls Hm Hls) as [row' [Hrow' Hpe]].
  simpl in Hrow'. apply in_map_iff in Hrow' as [row [<- Hrow]].
  destruct (prepare_edge_link _ _ _ _ _ _ ls link Hdefault Hpe Hlink) as [Hget Hty].
  exists row. split; [exact Hrow|]. split; [|exact Hty].
  rewrite Hget. unfold cell. simpl.
  rewrite dict_get_set_same, (dict_get_set_other weight_col "weight_norm") by assumption.
  reflexivity.
Qed.

(** ** Node classification *)

Lemma dict_set_middle {V : Type} (k : string) (v v' : V) (pre post : dict V) :
  ~ In k (dict_keys pre) ->
  dict_set k v' (pre ++ (k, v) :: post)%list = (pre ++ (k, v') :: post)%list.
Proof.
  unfold dict_keys. induction pre as [|[k0 v0] pre IH]; simpl; intros H.
  - now rewrite String.eqb_refl.
  - destruct (String.eqb_spec k0 k) as [->|Hne].
    + exfalso. apply H. now left.
    + rewrite IH; [reflexivity|]. intros Hin. apply H. now right.
Qed.

Lemma relabel_targets_loop (todo done : NodeParams) :
  NoDup (dict_keys (done ++ todo)%list) ->
  fold_left (fun targets kv => dict_set (fst kv) (target_label (snd kv)) targets)
            todo
            (map (fun kv => (fst kv, target_label (snd kv))) done ++ todo)%list
  = map (fun kv => (fst kv, target_label (snd kv))) (done ++ todo)%list.
Proof.
  revert done. induction todo as [|[k v] todo IH]; intros done Hnd; simpl.
  - now rewrite map_app.
  - rewrite dict_set_middle.
    + specialize (IH (done ++ [(k, v)])%list).
      rewrite <- !app_assoc in IH. simpl in IH.
      rewrite map_app in IH. simpl in IH. rewrite <- app_assoc in IH. simpl in IH.
      apply IH. exact Hnd.
    + unfold dict_keys in *. rewrite map_map. simpl.
      rewrite map_app in Hnd. simpl in Hnd.
      apply NoDup_remove_2 in Hnd. intros Hin. apply Hnd.
      apply in_or_app. now left.
Qed.

Lemma node_params_of_targets (config : dict string) (targets : NodeParams) :
  NoDup (dict_keys targets) ->
  _make_node_params config (Some targets)
  = map (fun kv => (fst kv, target_label (snd kv))) targets.
Proof.
  intros Hnd. unfold _make_node_params.
  exact (relabel_targets_loop targets [] Hnd).
Qed.

(** X20. [_make_node_params] with targets keeps the keys and their order
    and rewrites each value on its own: 'red' becomes 'bad_target',
    'green' becomes 'nice_target', every other label stays. *)
Theorem make_node_params_targets (config : dict string) (targets : NodeParams) :
  NoDup (dict_keys targets) ->
  _make_node_params config (Some targets)
  = map (fun kv => (fst kv, target_label (snd kv))) targets.
Proof.
  intros Hnd. unfold _make_node_params.
  exact (relabel_targets_loop targets [] Hnd).
Qed.

Lemma target_label_fixed (v : string) : target_label (target_label v) = target_label v.
Proof.
  unfold target_label.
  destruct (String.eqb_spec v "red") as [->|Hred]; [reflexivity|].
  destruct (String.eqb_spec v "green") as [->|Hgreen]; [reflexivity|].
  destruct (String.eqb_spec v "red"); [contradiction|].
  destruct (String.eqb_spec v "green"); [contradiction | reflexivity].
Qed.

(** X21. Classifying twice is classifying once: [_make_node_params]
    applied to its own result returns it unchanged, so that a dictionary
    of targets that was already rewritten in place can be passed again. *)
Theorem make_node_params_idempotent (config : dict string) (targets : NodeParams) :
  NoDup (dict_keys targets) ->
  _make_node_params config (Some (_make_node_params config (Some targets)))
  = _make_node_params config (Some targets).
Proof.
  intros Hnd. rewrite (node_params_of_targets config targets Hnd).
  rewrite node_params_of_targets.
  - rewrite map_map. apply map_ext. intros [k v]. simpl. now rewrite target_label_fixed.
  - unfold dict_keys in *. rewrite map_map. simpl. exact Hnd.
Qed.

(** X22. [_make_node_params] without targets classifies the events named
    in the configuration, the later role winning when one event has
    several: the source event is 'source'; the negative target event, if
    it is not the source event, is 'bad_target'; the positive target
    event, if it is neither, is 'nice_target'; no other event is
    classified. *)
Theorem make_node_params_config (config : dict string) (e : string) :
  let node_params := _make_node_params config None in
  (dict_get "source_event" config = Some e -> dict_get e node_params = Some "source")
  /\ (dict_get "negative_target_event" config = Some e ->
      dict_get "source_event" config <> Some e ->
      dict_get e node_params = Some "bad_target")
  /\ (dict_get "positive_target_event" config = Some e ->
      dict_get "negative_target_event" config <> Some e ->
      dict_get "source_event" config <> Some e ->
      dict_get e node_params = Some "nice_target")
  /\ (dict_get "positive_target_event" config <> Some e ->
      dict_get "negative_target_event" config <> Some e ->
      dict_get "source_event" config <> Some e ->
      dict_get e node_params = None).
Proof.
  intros node_params. subst node_params. unfold _make_node_params. simpl.
  assert (Hset : forall (k : string) (v : string) (d : dict string),
             dict_get e (dict_set k v d) = if String.eqb k e then Some v else dict_get e d).
  { intros k v d. destruct (String.eqb_spec k e) as [->|Hne].
    - apply dict_get_set_same.
    - apply dict_get_set_other. congruence. }
  destruct (dict_get "positive_target_event" config) as [p|];
    destruct (dict_get "negative_target_event" config) as [n|];
    destruct (dict_get "source_event" config) as [s|];
    rewrite ?Hset; simpl;
    repeat match goal with
           | |- context [String.eqb ?a e] => destruct (String.eqb_spec a e)
           end;
    subst; repeat split; intros; try congruence; try reflexivity.
Qed.

(** ** Thresholds and the data of a plot *)

(** X23. Node-threshold normalization: when every requested key is a
    column of the node list whose maximum magnitude is not zero, the call
    returns a mapping that holds, under each requested key, the requested
    value divided by the maximum magnitude of that key's own column, and
    holds no other key; the session is the one it was given. *)
Theorem node_threshold_scaling (self : ReteGraph) (th : Threshold) :
  (forall key, In key (dict_keys th) ->
     exists column,
       node_column key (nodelist self) = Ok column
       /\ is_zero (series_abs_max column) = false) ->
  exists norm,
    _get_norm_node_threshold self (Some th) = (Ok (Some norm), self)
    /\ (forall key v column,
          dict_get key th = Some v ->
          node_column key (nodelist self) = Ok column ->
          dict_get key norm = Some (np_div v (series_abs_max column)))
    /\ (forall key, dict_get key th = None -> dict_get key norm = None).
Proof.
  intros Hcols. rewrite node_threshold_loop.
  assert (Hg : forall key v, dict_get key th = Some v ->
                 exists column,
                   node_column key (nodelist self) = Ok column
                   /\ node_norm self th key = Ok (np_div v (series_abs_max column))).
  { intros key v Hv.
    assert (Hin : In key (dict_keys th)) by (apply dict_get_keys; now exists v).
    destruct (Hcols key Hin) as [column [Hc Hz]]. exists column. split; [exact Hc|].
    unfold node_norm, dict_item. rewrite Hc, Hv. simpl. now apply py_div_nonzero. }
  destruct (fill_returns float (node_norm self th) (dict_keys th))
    with (norm0 := @nil (string * float)) as [norm [Hfold [Hin Hout]]].
  { intros k Hk. apply dict_get_keys in Hk as [v Hv].
    destruct (Hg k v Hv) as [column [_ Hq]]. eexists. exact Hq. }
  exists norm. unfold Threshold, dict in *. rewrite Hfold. simpl.
  split; [reflexivity|]. split.
  - intros key v column Hv Hc. destruct (Hg key v Hv) as [column' [Hc' Hq]].
    assert (column' = column) by congruence. subst column'.
    apply Hin; [apply dict_get_keys; now exists v | exact Hq].
  - intros key Hnone. rewrite Hout; [reflexivity|].
    intros Hk. apply dict_get_keys in Hk as [v Hv]. congruence.
Qed.

(** X24. A threshold requested for a key that is no column makes the
    normalizer raise: [_get_norm_node_threshold] for a key that is no
    numeric column of the node list, [_get_norm_link_threshold] for a key,
    other than the node default name, that is no numeric column of the
    edge list. *)
Theorem threshold_missing_column
    (self : ReteGraph) (th : Threshold) (key : string) :
  In key (dict_keys th) ->
  (isin (ncolumns (nodelist self)) key = false ->
   exists e, _get_norm_node_threshold self (Some th) = (Raise e, self))
  /\ (key <> get_nodelist_default_col (rete self) ->
      isin (ecolumns (edgelist self)) key = false ->
      exists e, _get_norm_link_threshold self (Some th) = (Raise e, self)).
Proof.
  intros Hin. split.
  - intros Hmissing. rewrite node_threshold_loop.
    destruct (fill_raises float (node_norm self th) (dict_keys th) key Hin)
      with (acc := @Ok (dict float) []) as [e He].
    { exists KeyError. unfold node_norm, node_column. now rewrite Hmissing. }
    exists e. unfold Threshold, dict in *. now rewrite He.
  - intros Hne Hmissing.
    destruct (edge_column (get_edgelist_default_col (rete self)) (edgelist self))
      as [default_column | e0] eqn:Hdef.
    + rewrite (link_threshold_loop self th default_column Hdef).
      destruct (fill_raises float (link_norm self th (series_abs_max default_column))
                  (dict_keys th) key Hin)
        with (acc := @Ok (dict float) []) as [e He].
      { exists KeyError. unfold link_norm, edge_column.
        destruct (String.eqb_spec key (get_nodelist_default_col (rete self)));
          [contradiction|].
        now rewrite Hmissing. }
      exists e. unfold Threshold, dict in *. now rewrite He.
    + exists e0. unfold _get_norm_link_threshold. rewrite Hdef. reflexivity.
Qed.

Section PlotFacts.

Variable spring_layout : list (string * string * float) -> Position.
Variable set_order : list string -> list string.

(** X25. Stored thresholds win over requested ones: once settings with
    both thresholds have been saved by [_on_graph_settings_request],
    [plot_graph] never normalizes (so raises nothing there), whatever
    thresholds it is asked for: it computes what it computes for no
    request, and when it returns, its thresholds are the saved ones as
    they were saved. *)
Theorem plot_uses_stored_thresholds
    (s : GraphSession) (settings : GraphSettings) (stored_nodes stored_links : Threshold)
    (targets : option NodeParams) (width height : Z)
    (sw sp sn se sl : option bool) (requested_nodes requested_links : option Threshold) :
  nodes_threshold settings = Some stored_nodes ->
  links_threshold settings = Some stored_links ->
  let s' := _on_graph_settings_request settings s in
  plot_graph_data spring_layout set_order s' targets width height sw sp sn se sl
                  requested_nodes requested_links
  = plot_graph_data spring_layout set_order s' targets width height sw sp sn se sl
                    None None
  /\ forall pd,
       plot_graph_data spring_layout set_order s' targets width height sw sp sn se sl
                       requested_nodes requested_links = Ok pd ->
       pd_nodes_threshold pd = Some stored_nodes
       /\ pd_links_threshold pd = Some stored_links.
Proof.
  intros Hn Hl s'. subst s'. unfold plot_graph_data. simpl. rewrite Hn, Hl. simpl.
  split; [reflexivity|].
  intros pd. destruct (_make_template_data _ _ _ _ _ _) as [t|e]; simpl; [|discriminate].
  intros H. inversion H. split; reflexivity.
Qed.

(** X26. With no node threshold in the stored settings, a node threshold
    requested for a metric whose maximum magnitude over the node list is
    zero makes [plot_graph] raise before any layout or payload is
    computed, whatever the rest of the session is. *)
Theorem plot_zero_scale_fails
    (s : GraphSession) (targets : option NodeParams) (width height : Z)
    (sw sp sn se sl : option bool) (th : Threshold) (requested_links : option Threshold)
    (key : string) (column : list float) :
  nodes_threshold (graph_settings s) = None ->
  In key (dict_keys th) ->
  node_column key (nodelist (graph s)) = Ok column ->
  is_zero (series_abs_max column) = true ->
  exists e,
    plot_graph_data spring_layout set_order s targets width height sw sp sn se sl
                    (Some th) requested_links = Raise e.
Proof.
  intros Hnone Hin Hc Hz. unfold plot_graph_data.
  change (nodes_threshold (_apply_settings s sw sp sn se sl))
    with (nodes_threshold (graph_settings s)).
  rewrite Hnone, node_threshold_loop. cbn [fst].
  destruct (dict_item_keys key th Hin) as [v Hv].
  destruct (fill_raises float (node_norm (graph s) th) (dict_keys th) key Hin)
    with (acc := @Ok (dict float) []) as [e He].
  { exists ZeroDivisionError. unfold node_norm. rewrite Hc, Hv. simpl.
    now apply py_div_zero. }
  exists e. unfold Threshold, dict in *. rewrite He. reflexivity.
Qed.

Lemma prepare_node_type (cols : list string) (nl : NodeList) (np : NodeParams)
    (pos : option Position) (idx : Z) (name : string) (n : PreparedNode) :
  prepare_node cols nl (Some np) pos idx name = Ok n ->
  pn_name n = name /\ pn_type n = (get_or_suit np name ++ "_node")%string.
Proof.
  unfold prepare_node.
  match goal with
  | |- context [fold_left ?f cols ?a] => destruct (fold_left f cols a) as [degree|e]
  end; simpl; [|discriminate].
  destruct (filter _ (map snd (nrows nl))) as [|r rest]; simpl; [discriminate|].
  intros H. inversion H. split; reflexivity.
Qed.

Lemma dict_get_map_values {V W : Type} (f : V -> W) (k : string) (d : dict V) :
  dict_get k (map (fun kv => (fst kv, f (snd kv))) d) = option_map f (dict_get k d).
Proof.
  induction d as [|[k' v'] d IH]; simpl; [reflexivity|].
  destruct (String.eqb k' k); [reflexivity | exact IH].
Qed.

Lemma target_label_empty (v : string) :
  v <> EmptyString -> is_empty (target_label v) = false.
Proof.
  unfold target_label. intros Hv.
  destruct (String.eqb_spec v "red") as [->|Hred]; [reflexivity|].
  destruct (String.eqb_spec v "green") as [->|Hgreen]; [reflexivity|].
  destruct v; [congruence | reflexivity].
Qed.

(** X27. In the data of a plot every node carries the class of its
    target: for targets with one label per name, a node whose name has
    the label v (not empty) in the targets has the type of v followed by
    '_node', 'red' and 'green' reading 'bad_target' and 'nice_target',
    and a node whose name is no target has the type 'suit_node'. *)
Theorem plot_node_types
    (s : GraphSession) (targets : NodeParams) (width height : Z)
    (sw sp sn se sl : option bool) (requested_nodes requested_links : option Threshold)
    (pd : PlotData) :
  NoDup (dict_keys targets) ->
  plot_graph_data spring_layout set_order s (Some targets) width height
                  sw sp sn se sl requested_nodes requested_links = Ok pd ->
  forall n, In n (pd_nodes pd) ->
    match dict_get (pn_name n) targets with
    | Some v => v <> EmptyString -> pn_type n = (target_label v ++ "_node")%string
    | None => pn_type n = "suit_node"
    end.
Proof.
  intros Hnd. unfold plot_graph_data.
  rewrite (node_params_of_targets (config s) targets Hnd).
  set (np := map (fun kv => (fst kv, target_label (snd kv))) targets).
  destruct (match nodes_threshold _ with Some _ => _ | None => _ end) as [nt|e];
    simpl; [|discriminate].
  destruct (match links_threshold _ with Some _ => _ | None => _ end) as [lt|e];
    simpl; [|discriminate].
  destruct (_make_template_data _ _ _ _ _ _) as [[ns ls]|e] eqn:Htemplate; simpl;
    [|discriminate].
  intros H n Hn. inversion H. subst pd. simpl in Hn. clear H.
  unfold _make_template_data in Htemplate.
  destruct (_calc_layout _ _ _ _) as [computed|e]; simpl in Htemplate; [|discriminate].
  destruct (_use_layout _ computed) as [pos|e]; simpl in Htemplate; [|discriminate].
  destruct (_prepare_nodes _ _ _ _ _) as [[ns' nodes_set]|e] eqn:Hnodes;
    simpl in Htemplate; [|discriminate].
  destruct (_prepare_edges _ _ nodes_set) as [r el]. simpl in Htemplate.
  destruct r as [ls'|e]; simpl in Htemplate; [|discriminate].
  inversion Htemplate. subst ns' ls'. clear Htemplate.
  destruct (prepare_nodes_made set_order _ _ _ _ _ _ Hnodes n Hn) as [idx [name Hnode]].
  destruct (prepare_node_type _ _ _ _ _ _ _ Hnode) as [Hname Htype].
  rewrite Htype, Hname. unfold get_or_suit, np.
  rewrite dict_get_map_values.
  destruct (dict_get name targets) as [v|]; simpl; [|reflexivity].
  intros Hv. now rewrite (target_label_empty v Hv).
Qed.

End PlotFacts.

(** ** Link types and failed requests *)

Lemma prepare_edge_type (default_col weight_col : string) (custom_cols : list string)
    (el : EdgeList) (nodes_set : dict PreparedNode) (row : EdgeRow)
    (ls : list PreparedLink) (link : PreparedLink) :
  prepare_edge default_col weight_col custom_cols el nodes_set row = Ok ls ->
  In link ls ->
  er_type row = Some (link_type link).
Proof.
  unfold prepare_edge.
  match goal with
  | |- context [fold_left ?f custom_cols ?a] =>
      destruct (fold_left f custom_cols a) as [ws|e]
  end; simpl; [|discriminate].
  destruct (dict_get (er_source row) nodes_set) as [s|];
    [destruct (dict_get (er_target row) nodes_set) as [t|]|].
  - destruct (er_type row) as [ty|]; [|discriminate].
    intros H Hin. inversion H. subst ls. destruct Hin as [<- | []]. reflexivity.
  - intros H Hin. inversion H. subst ls. contradiction.
  - intros H Hin. inversion H. subst ls. contradiction.
Qed.

Lemma prepare_edges_types (rt : ReteExplorer) (el el' : EdgeList)
    (nodes_set : dict PreparedNode) (links : list PreparedLink) :
  _prepare_edges rt el nodes_set = (Ok links, el') ->
  forall link, In link links ->
    exists row, In row (erows el) /\ er_type row = Some (link_type link).
Proof.
  unfold _prepare_edges. destruct (ecolumns el) as [|weight_col rest]; [discriminate|].
  destruct (mapM _ _) as [edges|e] eqn:Hm; simpl; [|discriminate].
  intros H link Hlink. inversion H. subst links el'. clear H.
  apply in_concat in Hlink as [ls [Hls Hlink]].
  destruct (mapM_In_r _ _ _ ls Hm Hls) as [row' [Hrow' Hpe]].
  simpl in Hrow'. apply in_map_iff in Hrow' as [row [<- Hrow]].
  exists row. split; [exact Hrow|].
  exact (prepare_edge_type _ _ _ _ _ _ ls link Hpe Hlink).
Qed.

Lemma get_or_suit_not_empty (d : NodeParams) (k : string) :
  get_or_suit d k <> EmptyString.
Proof.
  unfold get_or_suit. destruct (dict_get k d) as [v|]; [|discriminate].
  destruct v; simpl; [discriminate | discriminate].
Qed.

(** X28. The links of the template data take their type from the node
    classification: every link comes from an edge of the session, has the
    type 'source' when the classification of the edge's source is
    'source', the class of the edge's target or 'suit' otherwise, and
    never an empty type. *)
Theorem template_link_types
    (spring_layout : list (string * string * float) -> Position)
    (set_order : list string -> list string)
    (self : ReteGraph) (node_params : NodeParams) (width height : Z)
    (nodes : list PreparedNode) (links : list PreparedLink) :
  _make_template_data spring_layout set_order self node_params width height
  = Ok (nodes, links) ->
  forall link, In link links ->
    link_type link <> EmptyString
    /\ exists row,
         In row (erows (edgelist self))
         /\ (dict_get (er_source row) node_params = Some "source" ->
             link_type link = "source")
         /\ (dict_get (er_source row) node_params <> Some "source" ->
             link_type link = get_or_suit node_params (er_target row)).
Proof.
  unfold _make_template_data.
  destruct (_calc_layout _ _ _ _) as [computed|e]; simpl; [|discriminate].
  destruct (_use_layout self computed) as [pos|e]; simpl; [|discriminate].
  destruct (_prepare_nodes _ _ _ _ _) as [[ns nodes_set]|e]; simpl; [|discriminate].
  destruct (_prepare_edges _ _ nodes_set) as [r el] eqn:Hedges. simpl.
  destruct r as [ls|e]; simpl; [|discriminate].
  intros H link Hlink. inversion H. subst ns ls. clear H.
  destruct (prepare_edges_types _ _ _ _ _ Hedges link Hlink) as [row' [Hrow' Hty]].
  simpl in Hrow'. apply in_map_iff in Hrow' as [row [<- Hrow]].
  simpl in Hty. inversion Hty as [Htype]. clear Hty.
  assert (Hcases : (dict_get (er_source row) node_params = Some "source"
                    /\ edge_type node_params row = "source")
                   \/ (dict_get (er_source row) node_params <> Some "source"
                       /\ edge_type node_params row
                          = get_or_suit node_params (er_target row))).
  { unfold edge_type. destruct (dict_get (er_source row) node_params) as [s|].
    - destruct (String.eqb_spec s "source") as [->|Hne].
      + left. split; reflexivity.
      + right. split; [congruence | reflexivity].
    - right. split; [discriminate | reflexivity]. }
  split.
  - destruct Hcases as [[_ ->] | [_ ->]]; [discriminate | apply get_or_suit_not_empty].
  - exists row. split; [exact Hrow|]. split; intros Hsrc.
    + destruct Hcases as [[_ Heq] | [Hne _]]; [exact Heq | contradiction].
    + destruct Hcases as [[Heq _] | [_ Heq]]; [contradiction | exact Heq].
Qed.

(** X29. Every link of a recalculation payload has the type 'suit',
    whatever the classification of its nodes. *)
Theorem recalc_payload_links_suit
    (set_order : list string -> list string)
    (edits : list PreparedNode) (self self' : ReteGraph) (payload : Payload) :
  _on_recalc_request set_order edits self = (Ok payload, self') ->
  forall link, In link (links payload) -> link_type link = "suit".
Proof.
  intros Hreq link Hlink.
  destruct (recalc_request_returns set_order edits self self' payload Hreq)
    as [self1 [nodes_set [_ [_ Hedges]]]].
  destruct (prepare_edges_types _ _ _ _ _ Hedges link Hlink) as [row' [Hrow' Hty]].
  simpl in Hrow'. apply in_map_iff in Hrow' as [row [<- Hrow]].
  simpl in Hty. now inversion Hty.
Qed.

(** X30. A request is not all-or-nothing: when the recalculation of a
    request raises, the request raises the same exception and the session
    keeps the node edits of the request, applied to its node list before
    the recalculation, with the edge list it had. *)
Theorem failed_request_keeps_edits
    (set_order : list string -> list string)
    (edits : list PreparedNode) (self : ReteGraph) (e : exn) :
  fst (_recalculate (_on_nodelist_updated edits self)) = Raise e ->
  _on_recalc_request set_order edits self
  = (Raise e, _on_nodelist_updated edits self)
  /\ edgelist (_on_nodelist_updated edits self) = edgelist self
  /\ updates (_on_nodelist_updated edits self) = edits.
Proof.
  intros Hfail. split; [|split; reflexivity].
  unfold _on_recalc_request.
  assert (Hsame : _on_nodelist_updated edits (set_updates edits self)
                  = _on_nodelist_updated edits self) by reflexivity.
  rewrite Hsame.
  destruct (_recalculate (_on_nodelist_updated edits self)) as [[u|e0] self1] eqn:Hrun;
    simpl in Hfail; [discriminate|].
  inversion Hfail. subst e0.
  now rewrite (recalculate_raise _ _ _ Hrun).
Qed.

(** * Runs of the further properties *)


(** X3 on the chain session: a new node D under the unused label 7. *)
Lemma nodelist_updated_insert_witness :
  let nl' := nodelist (_on_nodelist_updated [edit_D] chain_session) in
  ncolumns nl' = ncolumns (nodelist chain_session)
  /\ exists r,
       nrows nl' = (nrows (nodelist chain_session) ++ [(pn_index edit_D, r)])%list
       /\ nr_event r = pn_name edit_D /\ nr_active r = pn_active edit_D
       /\ nr_parent r = pn_parent edit_D /\ nr_alias r = pn_alias edit_D
       /\ forall c, In c (ncolumns (nodelist chain_session)) ->
            cell c (nr_metrics r)
            = match dict_get c (pn_degree edit_D) with
              | Some d => dg_source d
              | None => NaN
              end.
Proof.
  apply (nodelist_updated_insert edit_D chain_session).
  - simpl. intuition discriminate.
  - simpl. intuition discriminate.
Defined.

(** X4 on the chain session: a new node D under the label 1 of node B. *)
Lemma nodelist_updated_overwrites_witness :
  let nl' := nodelist (_on_nodelist_updated [edit_D_on_B] chain_session) in
  List.length (nrows nl') = List.length (nrows (nodelist chain_session))
  /\ In (pn_index edit_D_on_B,
         inserted_row (ncolumns (nodelist chain_session)) edit_D_on_B) (nrows nl')
  /\ ~ In "B" (node_names nl').
Proof.
  apply (nodelist_updated_overwrites edit_D_on_B chain_session
           (node "B" true (Some "A") [("number_of_events", of_Z 1)])).
  - exact chain_names_nodup.
  - simpl. intuition discriminate.
  - simpl. right. left. reflexivity.
Defined.

(** X5 on the chain session. *)
Lemma recalculate_keeps_edit_state_witness :
  map (fun r => (fst r, nr_event (snd r), nr_active (snd r), nr_parent (snd r),
                 nr_alias (snd r), nr_changed_name (snd r)))
      (nrows (nodelist (snd (_recalculate chain_session))))
  = map (fun r => (fst r, nr_event (snd r), nr_active (snd r), nr_parent (snd r),
                   nr_alias (snd r), nr_changed_name (snd r)))
        (nrows (nodelist chain_session)).
Proof.
  apply (recalculate_keeps_edit_state chain_session (snd (_recalculate chain_session))).
  reflexivity.
Defined.

(** X6 on the chain session: no row of the relabelled log is named C, and
    node C keeps its count of 2. *)
Lemma recalculate_keeps_unmatched_witness :
  In (2, node "C" true (Some "B") [("number_of_events", of_Z 2)])
     (nrows (nodelist (snd (_recalculate chain_session)))).
Proof.
  apply (recalculate_keeps_unmatched chain_session (snd (_recalculate chain_session))).
  - reflexivity.
  - simpl. right. right. left. reflexivity.
  - vm_compute. intuition discriminate.
Defined.

(** X7 on the chain session: node B gets the count 2 of the relabelled
    log. *)
Lemma recalculate_writes_matched_witness :
  exists r',
    In (1, r') (nrows (nodelist (snd (_recalculate chain_session))))
    /\ (forall c, In c (get_nodelist_cols (rete chain_session)) ->
          cell c (nr_metrics r')
          = cell c (nr_metrics (node "B" true None [("number_of_events", of_Z 2)])))
    /\ (forall c, ~ In c (get_nodelist_cols (rete chain_session)) ->
          dict_get c (nr_metrics r')
          = dict_get c (nr_metrics (node "B" true (Some "A")
                                         [("number_of_events", of_Z 1)]))).
Proof.
  apply (recalculate_writes_matched chain_session (snd (_recalculate chain_session))
           1 0 (node "B" true (Some "A") [("number_of_events", of_Z 1)])
           (node "B" true None [("number_of_events", of_Z 2)]) []).
  - reflexivity.
  - simpl. right. left. reflexivity.
  - reflexivity.
Defined.

(** X9 on the session whose Explorer declares a column its node list
    lacks. *)
Lemma recalculate_missing_column_witness :
  _recalculate partial_session = (Raise KeyError, partial_session).
Proof.
  apply (recalculate_missing_column partial_session "duration" 1
           (node "B" true (Some "A") [("number_of_events", of_Z 1)])).
  - simpl. right. left. reflexivity.
  - reflexivity.
  - simpl. right. left. reflexivity.
  - vm_compute. left. reflexivity.
Defined.

(** X10 on the chain session. *)
Lemma recalculate_returns_witness :
  exists self',
    _recalculate chain_session = (Ok tt, self')
    /\ edgelist self' = create_edgelist (rete chain_session)
                          (updated_clickstream (rete chain_session)
                                               (nodelist chain_session))
    /\ rete self' = rete chain_session /\ layout self' = layout chain_session.
Proof.
  apply (recalculate_returns chain_session).
  intros c [<- | []]. reflexivity.
Defined.

(** X11 on three positions and a 960 x 900 canvas. *)
Lemma rescale_extremes_witness :
  exists computed,
    rescale sample_positions 960 900 = Ok computed
    /\ Forall2 (fun p q =>
                  fst q = fst p
                  /\ (feq (fst (snd p)) (of_Z 0) -> feq (fst (snd q)) (of_Z 75))
                  /\ (feq (fst (snd p)) (of_Z 2) -> feq (fst (snd q)) (of_Z (960 - 75)))
                  /\ (feq (snd (snd p)) (of_Z 0) -> feq (snd (snd q)) (of_Z 50))
                  /\ (feq (snd (snd p)) (of_Z 4) -> feq (snd (snd q)) (of_Z (900 - 50))))
               sample_positions computed.
Proof.
  destruct (rescale sample_positions 960 900) as [computed|e] eqn:E;
    [|vm_compute in E; discriminate].
  exists computed. split; [reflexivity|].
  apply (rescale_extremes sample_positions computed 960 900
           (of_Z 0) (of_Z 2) (of_Z 0) (of_Z 4)).
  - reflexivity.
  - reflexivity.
  - reflexivity.
  - reflexivity.
  - reflexivity.
  - reflexivity.
  - reflexivity.
  - exact E.
Defined.

(** X12 on the same positions: A stays left of and below B. *)
Lemma rescale_keeps_order_witness :
  exists computed,
    rescale sample_positions 960 900 = Ok computed
    /\ exists xi' yi' xj' yj',
         nth_error computed 0 = Some ("A", (Fin xi', Fin yi'))
         /\ nth_error computed 1 = Some ("B", (Fin xj', Fin yj'))
         /\ ((inject_Z 0 <= inject_Z 1)%Q -> (xi' <= xj')%Q)
         /\ ((inject_Z 0 <= inject_Z 1)%Q -> (yi' <= yj')%Q).
Proof.
  destruct (rescale sample_positions 960 900) as [computed|e] eqn:E;
    [|vm_compute in E; discriminate].
  exists computed. split; [reflexivity|].
  apply (rescale_keeps_order sample_positions computed 960 900 0 1
           "A" "B" (inject_Z 0) (inject_Z 0) (inject_Z 1) (inject_Z 1)).
  - lia.
  - lia.
  - reflexivity.
  - reflexivity.
  - reflexivity.
  - exact E.
  - reflexivity.
  - reflexivity.
Defined.

(** X13 on the session with one stored position. *)
Lemma use_layout_keeps_nodes_witness :
  exists pos,
    _use_layout override_session sample_positions = Ok pos
    /\ dict_keys pos = dict_keys sample_positions.
Proof.
  destruct (_use_layout override_session sample_positions) as [pos|e] eqn:E;
    [|vm_compute in E; discriminate].
  exists pos. split; [reflexivity|].
  apply (use_layout_keeps_nodes override_session sample_positions pos).
  exact E.
Defined.

(** X14 on the session with two stored positions for B. *)
Lemma use_layout_duplicate_raises_witness :
  _use_layout duplicate_layout_session sample_positions = Raise ValueError.
Proof.
  apply (use_layout_duplicate_raises duplicate_layout_session sample_positions
           [ {| ln_name := "B"; ln_x := of_Z 10; ln_y := of_Z 20 |};
             {| ln_name := "B"; ln_x := of_Z 30; ln_y := of_Z 40 |} ]
           "B"
           {| ln_name := "B"; ln_x := of_Z 10; ln_y := of_Z 20 |}
           {| ln_name := "B"; ln_x := of_Z 30; ln_y := of_Z 40 |} []).
  - reflexivity.
  - simpl. right. left. reflexivity.
  - reflexivity.
Defined.

(** X15: saving the sample layout over the session that stored two
    positions for B. *)
Lemma saved_layout_is_used_witness :
  layout (_on_layout_request saved_nodes duplicate_layout_session) = Some saved_nodes
  /\ exists pos,
       _use_layout (_on_layout_request saved_nodes duplicate_layout_session)
                   sample_positions = Ok pos
       /\ forall n, In n (dict_keys sample_positions) ->
            dict_get n pos
            = match find (fun m => String.eqb (ln_name m) n) saved_nodes with
              | Some m => Some (ln_x m, ln_y m)
              | None => dict_get n sample_positions
              end.
Proof.
  apply (saved_layout_is_used saved_nodes duplicate_layout_session sample_positions).
  vm_compute. repeat constructor; simpl; intuition discriminate.
Defined.

(** X16 on the chain session, ordered by first occurrence. *)
Lemma prepare_nodes_dense_indices_witness :
  exists nodes nodes_set,
    _prepare_nodes first_seen (rete chain_session) (nodelist chain_session) None None
    = Ok (nodes, nodes_set)
    /\ map pn_name nodes
       = first_seen (map (fun r => nr_event (snd r)) (nrows (nodelist chain_session)))
    /\ map pn_index nodes = map Z.of_nat (seq 0 (List.length nodes))
    /\ dict_keys nodes_set = map pn_name nodes.
Proof.
  destruct (_prepare_nodes first_seen (rete chain_session) (nodelist chain_session)
                           None None) as [[nodes nodes_set]|e] eqn:E;
    [|vm_compute in E; discriminate].
  exists nodes, nodes_set. split; [reflexivity|].
  apply (prepare_nodes_dense_indices first_seen (rete chain_session)
           (nodelist chain_session) None None nodes nodes_set).
  - vm_compute. repeat constructor; simpl; intuition discriminate.
  - exact E.
Defined.

(** X17 on the chain session, whose counts are 0, 1 and 2. *)
Lemma prepare_nodes_degree_range_witness :
  exists nodes nodes_set,
    _prepare_nodes first_seen (rete chain_session) (nodelist chain_session) None None
    = Ok (nodes, nodes_set)
    /\ forall n, In n nodes ->
         exists d q,
           dict_get "number_of_events" (pn_degree n)
           = Some {| dg_degree := Fin d; dg_source := Fin q |}
           /\ In q [inject_Z 0; inject_Z 1; inject_Z 2]
           /\ (inject_Z 4 <= d)%Q /\ (d <= inject_Z 34)%Q.
Proof.
  destruct (_prepare_nodes first_seen (rete chain_session) (nodelist chain_session)
                           None None) as [[nodes nodes_set]|e] eqn:E;
    [|vm_compute in E; discriminate].
  exists nodes, nodes_set. split; [reflexivity|].
  apply (prepare_nodes_degree_range first_seen (rete chain_session)
           (nodelist chain_session) None None nodes nodes_set "number_of_events"
           [inject_Z 0; inject_Z 1; inject_Z 2]).
  - simpl. left. reflexivity.
  - reflexivity.
  - intros q [<- | [<- | [<- | []]]]; vm_compute; discriminate.
  - reflexivity.
  - exact E.
Defined.

(** X18 on the session with an edge to a node the node list lacks. *)
Lemma payload_link_count_witness :
  exists payload self',
    _on_recalc_request first_seen [] orphan_session = (Ok payload, self')
    /\ (List.length (links payload) <= List.length (erows (edgelist self')))%nat
    /\ ((forall row, In row (erows (edgelist self')) ->
           In (er_source row) (map pn_name (nodes payload))
           /\ In (er_target row) (map pn_name (nodes payload))) ->
        List.length (links payload) = List.length (erows (edgelist self'))).
Proof.
  destruct (_on_recalc_request first_seen [] orphan_session) as [r self'] eqn:E.
  destruct r as [payload|e]; [|vm_compute in E; discriminate].
  exists payload, self'. split; [reflexivity|].
  apply (payload_link_count first_seen [] orphan_session self' payload).
  exact E.
Defined.

(** X19 on the typed edge list of the chain session. *)
Lemma prepare_edges_default_weight_witness :
  let rt := rete chain_session in
  let el := set_type_column "suit" (edgelist chain_session) in
  exists links el',
    _prepare_edges rt el chain_nodes_set = (Ok links, el')
    /\ forall link, In link links ->
         exists row,
           In row (erows el)
           /\ dict_get (get_nodelist_default_col rt) (weights link)
              = Some {| w_weight_norm :=
                          np_div (cell "edge_weight" (er_values row))
                                 (series_abs_max
                                    (map (fun r => cell "edge_weight" (er_values r))
                                         (erows el)));
                        w_weight := cell "edge_weight" (er_values row) |}
           /\ er_type row = Some (link_type link).
Proof.
  intros rt el.
  destruct (_prepare_edges rt el chain_nodes_set) as [r el'] eqn:E.
  destruct r as [links|e]; [|vm_compute in E; discriminate].
  exists links, el'. split; [reflexivity|].
  apply (prepare_edges_default_weight rt el el' chain_nodes_set links "edge_weight" []).
  - reflexivity.
  - discriminate.
  - simpl. tauto.
  - exact E.
Defined.

(** X20 on three targets. *)
Lemma make_node_params_targets_witness :
  _make_node_params [] (Some sample_targets)
  = map (fun kv => (fst kv, target_label (snd kv))) sample_targets.
Proof.
  apply (make_node_params_targets [] sample_targets).
  vm_compute. repeat constructor; simpl; intuition discriminate.
Defined.

(** X21 on three targets. *)
Lemma make_node_params_idempotent_witness :
  _make_node_params [] (Some (_make_node_params [] (Some sample_targets)))
  = _make_node_params [] (Some sample_targets).
Proof.
  apply (make_node_params_idempotent [] sample_targets).
  vm_compute. repeat constructor; simpl; intuition discriminate.
Defined.

(** X22 on a configuration that names A as positive target and as
    source: A is classified as source. *)
Lemma make_node_params_config_witness :
  dict_get "A" (_make_node_params (config (plot_session chain_session)) None)
  = Some "source".
Proof.
  apply (make_node_params_config (config (plot_session chain_session)) "A").
  reflexivity.
Defined.

(** X23 on the chain session: the count threshold 1 becomes 1 / 2. *)
Lemma node_threshold_scaling_witness :
  exists norm,
    _get_norm_node_threshold chain_session (Some [("number_of_events", of_Z 1)])
    = (Ok (Some norm), chain_session)
    /\ (forall key v column,
          dict_get key [("number_of_events", of_Z 1)] = Some v ->
          node_column key (nodelist chain_session) = Ok column ->
          dict_get key norm = Some (np_div v (series_abs_max column)))
    /\ (forall key, dict_get key [("number_of_events", of_Z 1)] = None ->
          dict_get key norm = None).
Proof.
  apply (node_threshold_scaling chain_session [("number_of_events", of_Z 1)]).
  intros key [<- | []].
  exists [of_Z 0; of_Z 1; of_Z 2]. split; reflexivity.
Defined.

(** X24 on the chain session: a threshold for a column [clicks] that
    neither list has. *)
Lemma threshold_missing_column_witness :
  (exists e, _get_norm_node_threshold chain_session (Some [("clicks", of_Z 1)])
             = (Raise e, chain_session))
  /\ (exists e, _get_norm_link_threshold chain_session (Some [("clicks", of_Z 1)])
                = (Raise e, chain_session)).
Proof.
  destruct (threshold_missing_column chain_session [("clicks", of_Z 1)] "clicks")
    as [Hnode Hlink].
  - simpl. left. reflexivity.
  - split.
    + apply Hnode. reflexivity.
    + apply Hlink; [discriminate | reflexivity].
Defined.

(** X25 on the chain session with stored thresholds: a request for a
    column [clicks] that no list has is not looked at. *)
Lemma plot_uses_stored_thresholds_witness :
  let s' := _on_graph_settings_request threshold_settings (plot_session chain_session) in
  plot_graph_data sample_layout first_seen s' None 960 900 None None None None None
                  (Some [("clicks", of_Z 1)]) (Some [("clicks", of_Z 1)])
  = plot_graph_data sample_layout first_seen s' None 960 900 None None None None None
                    None None
  /\ forall pd,
       plot_graph_data sample_layout first_seen s' None 960 900 None None None None None
                       (Some [("clicks", of_Z 1)]) (Some [("clicks", of_Z 1)]) = Ok pd ->
       pd_nodes_threshold pd = Some [("number_of_events", of_Z 1)]
       /\ pd_links_threshold pd = Some [("number_of_events", of_Z 1)].
Proof.
  apply (plot_uses_stored_thresholds sample_layout first_seen
           (plot_session chain_session) threshold_settings
           [("number_of_events", of_Z 1)] [("number_of_events", of_Z 1)]
           None 960 900 None None None None None
           (Some [("clicks", of_Z 1)]) (Some [("clicks", of_Z 1)])).
  - reflexivity.
  - reflexivity.
Defined.

(** X26 on the session whose only count is zero. *)
Lemma plot_zero_scale_fails_witness :
  exists e,
    plot_graph_data sample_layout first_seen (plot_session zero_session) None 960 900
                    None None None None None
                    (Some [("number_of_events", of_Z 1)]) None = Raise e.
Proof.
  destruct (node_column "number_of_events" (nodelist zero_session)) as [column|e] eqn:E;
    [|vm_compute in E; discriminate].
  apply (plot_zero_scale_fails sample_layout first_seen (plot_session zero_session)
           None 960 900 None None None None None
           [("number_of_events", of_Z 1)] None "number_of_events" column).
  - reflexivity.
  - simpl. left. reflexivity.
  - exact E.
  - vm_compute in E. injection E as <-. reflexivity.
Defined.

(** X27 on the chain session with three targets. *)
Lemma plot_node_types_witness :
  exists pd,
    plot_graph_data sample_layout first_seen (plot_session chain_session)
                    (Some sample_targets) 960 900 None None None None None None None
    = Ok pd
    /\ forall n, In n (pd_nodes pd) ->
         match dict_get (pn_name n) sample_targets with
         | Some v => v <> EmptyString -> pn_type n = (target_label v ++ "_node")%string
         | None => pn_type n = "suit_node"
         end.
Proof.
  destruct (plot_graph_data sample_layout first_seen (plot_session chain_session)
              (Some sample_targets) 960 900 None None None None None None None)
    as [pd|e] eqn:E; [|vm_compute in E; discriminate].
  exists pd. split; [reflexivity|].
  apply (plot_node_types sample_layout first_seen (plot_session chain_session)
           sample_targets 960 900 None None None None None None None pd).
  - vm_compute. repeat constructor; simpl; intuition discriminate.
  - exact E.
Defined.

(** X28 on the session with two edges, A classified as source. *)
Lemma template_link_types_witness :
  exists nodes links,
    _make_template_data sample_layout first_seen two_metric_session
                        [("A", "source")] 960 900 = Ok (nodes, links)
    /\ forall link, In link links ->
         link_type link <> EmptyString
         /\ exists row,
              In row (erows (edgelist two_metric_session))
              /\ (dict_get (er_source row) [("A", "source")] = Some "source" ->
                  link_type link = "source")
              /\ (dict_get (er_source row) [("A", "source")] <> Some "source" ->
                  link_type link = get_or_suit [("A", "source")] (er_target row)).
Proof.
  destruct (_make_template_data sample_layout first_seen two_metric_session
              [("A", "source")] 960 900) as [[nodes links]|e] eqn:E;
    [|vm_compute in E; discriminate].
  exists nodes, links. split; [reflexivity|].
  apply (template_link_types sample_layout first_seen two_metric_session
           [("A", "source")] 960 900 nodes links).
  exact E.
Defined.

(** X29 on the chain session with node B disabled. *)
Lemma recalc_payload_links_suit_witness :
  exists payload self',
    _on_recalc_request first_seen [edit_B] chain_session = (Ok payload, self')
    /\ forall link, In link (links payload) -> link_type link = "suit".
Proof.
  destruct (_on_recalc_request first_seen [edit_B] chain_session) as [r self'] eqn:E.
  destruct r as [payload|e]; [|vm_compute in E; discriminate].
  exists payload, self'. split; [reflexivity|].
  apply (recalc_payload_links_suit first_seen [edit_B] chain_session self' payload).
  exact E.
Defined.

(** X30 on the session whose Explorer declares a column its node list
    lacks: the request raises KeyError and node B stays disabled. *)
Lemma failed_request_keeps_edits_witness :
  _on_recalc_request first_seen [edit_B] partial_session
  = (Raise KeyError, _on_nodelist_updated [edit_B] partial_session)
  /\ edgelist (_on_nodelist_updated [edit_B] partial_session) = edgelist partial_session
  /\ updates (_on_nodelist_updated [edit_B] partial_session) = [edit_B].
Proof.
  apply (failed_request_keeps_edits first_seen [edit_B] partial_session KeyError).
  reflexivity.
Defined.
